(** * HydraTeams proxy: routing, retry and session correlation

    A shallow embedding of [src/proxy.ts] and [src/logger.ts].

    The request handler of [createProxyServer] works on whatever
    [JSON.parse] returns, so the embedding starts from a small model of
    JavaScript values and of the operations the handler applies to them
    (property access, truthiness, [includes], [join], ...), each with the
    behaviour the language gives it on every value, including the
    [TypeError]s it raises.  The handler itself is written in a state and
    exception monad over the response object, the log of outbound calls
    and the logger's session table. *)

From Stdlib Require Import ZArith List Bool Ascii String Lia.
From Stdlib Require Import DecimalString DecimalNat.
Import ListNotations.
Open Scope string_scope.
Open Scope Z_scope.
Set Warnings "-register-all".

(* ================================================================== *)
(** ** JavaScript values *)

Module JS.

(** Values as [JSON.parse] builds them, plus [undefined].  Numbers are
    the integers: the handler only tests numbers for truthiness, compares
    them with constants and prints them.  Strings are sequences of code
    units, here the 8-bit characters of [string].  An object lists its
    own properties in enumeration order, every key once. *)
Inductive value : Type :=
| Undefined
| Null
| Bool (b : bool)
| Num (n : Z)
| Str (s : string)
| Arr (items : list value)
| Obj (props : list (string * value)).

(** What a [throw] carries.  [TypeError site] is raised by the language
    itself (reading a property of [null], calling something that is not a
    function, iterating a non-iterable, converting to a string an object
    that has no usable [toString]); [Error m] is any other [Error] with
    message [m]; [Thrown] is a thrown value that is not an [Error]. *)
Inductive exn : Type :=
| TypeError (site : string)
| Error (message : string)
| Thrown.

Inductive result (A : Type) : Type :=
| Val (a : A)
| Throw (e : exn).
Arguments Val {A} a.
Arguments Throw {A} e.

Definition rbind {A B} (r : result A) (k : A -> result B) : result B :=
  match r with
  | Val a => k a
  | Throw e => Throw e
  end.

Fixpoint rmap {A B} (f : A -> result B) (l : list A) : result (list B) :=
  match l with
  | [] => Val []
  | x :: r =>
      rbind (f x) (fun y => rbind (rmap f r) (fun ys => Val (y :: ys)))
  end.

(** [!!v] *)
Definition truthy (v : value) : bool :=
  match v with
  | Undefined | Null => false
  | Bool b => b
  | Num n => negb (n =? 0)
  | Str s => negb (s =? "")%string
  | Arr _ | Obj _ => true
  end.

(** [a || b] *)
Definition or_else (a b : value) : value := if truthy a then a else b.

Definition nullish (v : value) : bool :=
  match v with
  | Undefined | Null => true
  | _ => false
  end.

Fixpoint lookup (k : string) (props : list (string * value)) : value :=
  match props with
  | [] => Undefined
  | (k', v) :: r => if (k =? k')%string then v else lookup k r
  end.

Definition strlen (s : string) : Z := Z.of_nat (String.length s).

(** [v.p] for a property name [p] that no prototype defines (all the
    names the proxy reads: model, system, messages, text, content, ...)
    or for [p = "length"]. *)
Definition get (v : value) (p : string) : result value :=
  match v with
  | Undefined | Null => Throw (TypeError p)
  | Obj props => Val (lookup p props)
  | Str s => Val (if (p =? "length")%string then Num (strlen s) else Undefined)
  | Arr l =>
      Val (if (p =? "length")%string then Num (Z.of_nat (List.length l))
           else Undefined)
  | Bool _ | Num _ => Val Undefined
  end.

(** [v?.p] *)
Definition get_opt (v : value) (p : string) : value :=
  match v with
  | Undefined | Null => Undefined
  | Obj props => lookup p props
  | Str s => if (p =? "length")%string then Num (strlen s) else Undefined
  | Arr l =>
      if (p =? "length")%string then Num (Z.of_nat (List.length l))
      else Undefined
  | Bool _ | Num _ => Undefined
  end.

(** [v?.[0]] *)
Definition first_opt (v : value) : value :=
  match v with
  | Arr (x :: _) => x
  | Str (String c _) => Str (String c "")
  | Obj props => lookup "0" props
  | _ => Undefined
  end.

(** [typeof v === "string"] and [Array.isArray(v)] are pattern matches
    on [Str] and [Arr] below. *)

(** [s.startsWith(p)] on strings *)
Definition startsWith (s p : string) : bool := String.prefix p s.

(** [s.includes(m)] on strings: [m] occurs at some position of [s]. *)
Fixpoint includes (s m : string) : bool :=
  if String.prefix m s then true
  else match s with
       | "" => false
       | String _ r => includes r m
       end.

(** [s.endsWith(p)] on strings *)
Fixpoint endsWith (s p : string) : bool :=
  if (s =? p)%string then true
  else match s with
       | "" => false
       | String _ r => endsWith r p
       end.

Definition lower_char (c : ascii) : ascii :=
  let n := nat_of_ascii c in
  if (((65 <=? n) && (n <=? 90))
      || ((192 <=? n) && (n <=? 222) && negb (n =? 215)))%nat%bool
  then ascii_of_nat (n + 32) else c.

(** [s.toLowerCase()] on code units below 256: A-Z and the accented
    capitals U+00C0-U+00DE (the sign U+00D7 apart) move up by 32, every
    other unit is kept. *)
Fixpoint toLowerCase (s : string) : string :=
  match s with
  | "" => ""
  | String c r => String (lower_char c) (toLowerCase r)
  end.

(** [l.includes(x)] on an array of strings (SameValueZero): only a
    string can be equal to an element. *)
Definition list_includes (l : list string) (x : value) : bool :=
  match x with
  | Str s => existsb (String.eqb s) l
  | _ => false
  end.

(** [a.includes(m)] on an array of values, for a string [m]. *)
Definition arr_includes (a : list value) (m : string) : bool :=
  existsb (fun v => match v with Str s => (s =? m)%string | _ => false end) a.

(** [l.join(sep)] on strings already converted *)
Definition join (sep : string) (l : list string) : string :=
  String.concat sep l.

End JS.

(* ================================================================== *)
(** ** What the engine provides

    Library functions of the JavaScript engine that the proxy calls and
    whose results it only passes on: the JSON codec, the decimal printing
    of numbers and the wording of the engine's own [TypeError]s. *)

Class Engine : Type := {
  JSON_parse : string -> JS.result JS.value;
  JSON_stringify : JS.value -> string;
  numberToString : Z -> string;
  typeErrorMessage : string -> string
}.

Module Conv.
Import JS.
Section WithEngine.
Context {E : Engine}.

(** [k] is an own property of the object *)
Definition has_own (k : string) (props : list (string * value)) : bool :=
  existsb (fun kv => (fst kv =? k)%string) props.

(** [String(v)], as [Array.prototype.join], template literals and
    [JSON.parse] apply it to their arguments.  An array prints as its
    elements joined by commas, [null] and [undefined] elements as the
    empty string.  An object is converted through its [toString]: the
    inherited one prints [[object Object]]; an own property of that name
    hides it, and since a property that [JSON.parse] built is never a
    function (and the inherited [valueOf] returns the object itself) the
    conversion then throws a [TypeError]. *)
Fixpoint to_str (v : value) : result string :=
  match v with
  | Undefined => Val "undefined"
  | Null => Val "null"
  | Bool true => Val "true"
  | Bool false => Val "false"
  | Num n => Val (numberToString n)
  | Str s => Val s
  | Arr l =>
      rbind
        ((fix each (l : list value) : result (list string) :=
            match l with
            | [] => Val []
            | x :: r =>
                rbind (if nullish x then Val "" else to_str x) (fun s =>
                rbind (each r) (fun ss => Val (s :: ss)))
            end) l)
        (fun ss => Val (String.concat "," ss))
  | Obj props =>
      if has_own "toString" props then Throw (TypeError "toString")
      else Val "[object Object]"
  end.

(** What [join] prints an element as *)
Definition element_str (x : value) : result string :=
  if nullish x then Val "" else to_str x.

(** [a.join(sep)]: the elements are converted in order, so the first one
    that cannot be converted decides the error. *)
Definition join_values (sep : string) (a : list value) : result string :=
  rbind (rmap element_str a) (fun ss => Val (join sep ss)).

(** [err instanceof Error ? err.message : "Internal proxy error"] *)
Definition message_of (e : exn) : string :=
  match e with
  | TypeError site => typeErrorMessage site
  | Error m => m
  | Thrown => "Internal proxy error"
  end.

End WithEngine.
End Conv.


(* ================================================================== *)
(** ** logger.ts: the session correlator *)

Module Logger.
Import JS.

Definition esc : string := String (ascii_of_nat 27) "".

(** The ANSI colours [C] *)
Definition C_dim : string := esc ++ "[2m".
Definition C_cyan : string := esc ++ "[36m".
Definition C_yellow : string := esc ++ "[33m".
Definition C_green : string := esc ++ "[32m".
Definition C_magenta : string := esc ++ "[35m".
Definition C_blue : string := esc ++ "[34m".

Definition TEAMMATE_COLORS : list string :=
  [C_yellow; C_green; C_magenta; C_blue].

Inductive session_type : Type := lead | teammate | warmup.

Definition is_teammate (t : session_type) : bool :=
  match t with teammate => true | _ => false end.

(** [AgentSession]; the [logStream] field, a file handle, is left out. *)
Record AgentSession : Type := {
  key : string;
  label : string;
  color : string;
  type : session_type;
  lastMsgCount : Z;
  requestCount : Z
}.

(** The fields of [ProxyLogger] that [identify] and [logRequest] change.
    [sessions] is the [Map<string, AgentSession>], kept as its entries in
    insertion order, which is the order [for ... of] visits them. *)
Record t : Type := {
  sessions : list (string * AgentSession);
  teammateIndex : nat;
  totalRequests : nat
}.

(** [new ProxyLogger()] *)
Definition create : t :=
  {| sessions := []; teammateIndex := 0; totalRequests := 0 |}.

(** [info] of [identify].  [toolCount] is declared a number; the handler
    passes [tools?.length || 0], which is any value the request holds
    there, so it is kept as a value and only compared with [0]. *)
Record info : Type := {
  toolCount : value;
  msgCount : Z;
  isTeammate : bool;
  systemText : string
}.

(** [v === 0] *)
Definition is_zero (v : value) : bool :=
  match v with
  | Num n => n =? 0
  | _ => false
  end.

(** [`${n}`] for a counter *)
Definition decimal (n : nat) : string :=
  NilEmpty.string_of_uint (Nat.to_uint n).

(** [this.sessions.get(key)] *)
Fixpoint map_get (k : string) (m : list (string * AgentSession))
  : option AgentSession :=
  match m with
  | [] => None
  | (k', s) :: r => if (k =? k')%string then Some s else map_get k r
  end.

(** Writing through the reference [this.sessions.get(k)]: the entry
    under [k] is replaced where it stands. *)
Fixpoint map_update (k : string) (s : AgentSession)
  (m : list (string * AgentSession)) : list (string * AgentSession) :=
  match m with
  | [] => []
  | (k', s') :: r =>
      if (k =? k')%string then (k', s) :: r
      else (k', s') :: map_update k s r
  end.

(** [session.lastMsgCount = msgCount; session.requestCount++] *)
Definition touch (s : AgentSession) (count : Z) : AgentSession :=
  {| key := key s; label := label s; color := color s; type := type s;
     lastMsgCount := count; requestCount := requestCount s + 1 |}.

(** [getOrCreate(key, type, msgCount, label?)].  The colour of a new
    teammate is [TEAMMATE_COLORS[(teammateIndex - 1) % 4]]; the only
    teammate call follows [teammateIndex++], so the index is at least 1
    there. *)
Definition getOrCreate (lg : t) (k : string) (ty : session_type)
  (count : Z) (lbl : option string) : AgentSession * t :=
  match map_get k (sessions lg) with
  | Some s =>
      let s' := touch s count in
      (s', {| sessions := map_update k s' (sessions lg);
              teammateIndex := teammateIndex lg;
              totalRequests := totalRequests lg |})
  | None =>
      let c :=
        match ty with
        | lead => C_cyan
        | warmup => C_dim
        | teammate =>
            nth ((teammateIndex lg - 1) mod 4)%nat TEAMMATE_COLORS C_yellow
        end in
      let displayLabel :=
        match lbl with
        | Some l => if (l =? "")%string then k else l
        | None => k
        end in
      let s := {| key := k; label := displayLabel; color := c; type := ty;
                  lastMsgCount := count; requestCount := 0 |} in
      let s' := touch s count in
      (s', {| sessions := sessions lg ++ [(k, s')];
              teammateIndex := teammateIndex lg;
              totalRequests := totalRequests lg |})
  end.

(** *** extractName: the three patterns, matched by hand *)

Definition in_range (lo hi : nat) (c : ascii) : bool :=
  let n := nat_of_ascii c in ((lo <=? n) && (n <=? hi))%nat%bool.

(** word characters: letters, digits and the underscore *)
Definition is_word (c : ascii) : bool :=
  in_range 65 90 c || in_range 97 122 c || in_range 48 57 c
  || (c =? "_")%char.

(** a word character or a dash *)
Definition is_word_or_dash (c : ascii) : bool :=
  is_word c || (c =? "-")%char.

(** white space among the code units below 256 *)
Definition is_space (c : ascii) : bool :=
  in_range 9 13 c || (nat_of_ascii c =? 32)%nat || (nat_of_ascii c =? 160)%nat.

(** what [.] refuses *)
Definition is_line_terminator (c : ascii) : bool :=
  ((nat_of_ascii c =? 10) || (nat_of_ascii c =? 13))%nat.

Definition fold_case (c : ascii) : ascii :=
  if in_range 65 90 c then ascii_of_nat (nat_of_ascii c + 32) else c.

(** A literal at the head of [s]; with [ci] letters match in either
    case (the [i] flag).  Returns what follows the literal. *)
Fixpoint lit (ci : bool) (p s : string) : option string :=
  match p with
  | "" => Some s
  | String a p' =>
      match s with
      | "" => None
      | String b s' =>
          if (if ci then (fold_case a =? fold_case b)%char else (a =? b)%char)
          then lit ci p' s' else None
      end
  end.

(** The greedy run of word characters and dashes at the head of [s] *)
Fixpoint word_tail (s : string) : string :=
  match s with
  | String c r => if is_word_or_dash c then String c (word_tail r) else ""
  | "" => ""
  end.

(** The capture group: a word character, then the greedy run *)
Definition word_at (s : string) : option string :=
  match s with
  | String c r => if is_word c then Some (String c (word_tail r)) else None
  | "" => None
  end.

(** An optional opening quote from [quotes], then the captured name.
    The optional closing quote of the first two patterns always matches
    and does not change the capture. *)
Definition name_at (quotes : ascii -> bool) (s : string) : option string :=
  match s with
  | String c r =>
      if quotes c then
        match word_at r with
        | Some n => Some n
        | None => word_at s
        end
      else word_at s
  | "" => None
  end.

Definition dquote (c : ascii) : bool := (nat_of_ascii c =? 34)%nat.
Definition any_quote (c : ascii) : bool :=
  ((nat_of_ascii c =? 34) || (nat_of_ascii c =? 39))%nat.

Definition or_try {A} (a b : option A) : option A :=
  match a with
  | Some x => Some x
  | None => b
  end.

Definition and_then {A B} (a : option A) (k : A -> option B) : option B :=
  match a with
  | Some x => k x
  | None => None
  end.

(** The tail of the first pattern at the head of [s]: name, an optional
    d, a space, an optional double quote, the capture. *)
Definition named_at (s : string) : option string :=
  and_then (lit true "name" s) (fun r =>
    or_try
      (and_then (lit true "d" r) (fun r1 =>
         and_then (lit true " " r1) (name_at dquote)))
      (and_then (lit true " " r) (name_at dquote))).

(** [.*?] followed by [named_at]: the shortest run of characters other
    than line terminators after which the rest matches. *)
Fixpoint lazy_named (s : string) : option string :=
  match named_at s with
  | Some n => Some n
  | None =>
      match s with
      | String c r => if is_line_terminator c then None else lazy_named r
      | "" => None
      end
  end.

(** The leftmost position of [s] at which [at_head] matches *)
Fixpoint leftmost (at_head : string -> option string) (s : string)
  : option string :=
  match at_head s with
  | Some n => Some n
  | None =>
      match s with
      | String _ r => leftmost at_head r
      | "" => None
      end
  end.

(** The first pattern: You are a teammate, a lazy run of characters,
    then the tail above; letters in either case. *)
Definition pattern1 (s : string) : option string :=
  leftmost (fun x => and_then (lit true "You are a teammate" x) lazy_named) s.

(** The second pattern: your, an optional agent, name is, an optional
    double quote, the capture; letters in either case. *)
Definition pattern2 (s : string) : option string :=
  leftmost (fun x =>
    and_then (lit true "your " x) (fun r =>
      or_try
        (and_then (lit true "agent " r) (fun r1 =>
           and_then (lit true "name is " r1) (name_at dquote)))
        (and_then (lit true "name is " r) (name_at dquote)))) s.

Fixpoint skip_spaces (s : string) : string :=
  match s with
  | String c r => if is_space c then skip_spaces r else s
  | "" => ""
  end.

(** The third pattern: Name and a colon, white space, an optional single
    or double quote, the capture; case matters. *)
Definition pattern3 (s : string) : option string :=
  leftmost (fun x =>
    and_then (lit false "Name:" x) (fun r =>
      name_at any_quote (skip_spaces r))) s.

(** [extractName]: the capture of the first pattern that matches *)
Definition extractName (systemText : string) : option string :=
  or_try (pattern1 systemText)
    (or_try (pattern2 systemText) (pattern3 systemText)).

(** *** identify *)

(** [diff < bestDiff], [bestDiff] starting at [Infinity] ([None]) *)
Definition below (diff : Z) (bestDiff : option Z) : bool :=
  match bestDiff with
  | None => true
  | Some b => diff <? b
  end.

(** One turn of the [for] loop over the sessions *)
Definition scan_step (count : Z) (best : option AgentSession * option Z)
  (entry : string * AgentSession) : option AgentSession * option Z :=
  let session := snd entry in
  if negb (is_teammate (type session)) then best
  else
    let diff := count - lastMsgCount session in
    if (0 <=? diff) && (diff <=? 8) && below diff (snd best)
    then (Some session, Some diff)
    else best.

Definition scan (count : Z) (m : list (string * AgentSession))
  : option AgentSession * option Z :=
  fold_left (scan_step count) m (None, None).

Definition identify (lg : t) (i : info) : AgentSession * t :=
  if is_zero (toolCount i) then
    getOrCreate lg "WARM" warmup (msgCount i) None
  else if negb (isTeammate i) then
    getOrCreate lg "LEAD" lead (msgCount i) None
  else
    match fst (scan (msgCount i) (sessions lg)) with
    | Some bestMatch =>
        let s' := touch bestMatch (msgCount i) in
        (s', {| sessions := map_update (key bestMatch) s' (sessions lg);
                teammateIndex := teammateIndex lg;
                totalRequests := totalRequests lg |})
    | None =>
        let lg1 := {| sessions := sessions lg;
                      teammateIndex := S (teammateIndex lg);
                      totalRequests := totalRequests lg |} in
        let k := "T" ++ decimal (teammateIndex lg1) in
        let name := extractName (systemText i) in
        getOrCreate lg1 k teammate (msgCount i) name
    end.

(** [logRequest], as far as the logger's own state goes: the request
    counter.  What it prints and appends to the session's file is not
    kept. *)
Definition logRequest (lg : t) : t :=
  {| sessions := sessions lg;
     teammateIndex := teammateIndex lg;
     totalRequests := S (totalRequests lg) |}.

(** [" ".repeat(n)] *)
Fixpoint spaces (n : nat) : string :=
  match n with
  | O => ""
  | S n' => String " " (spaces n')
  end.

(** [s.slice(0, n)] for [0 <= n] *)
Fixpoint take (n : nat) (s : string) : string :=
  match n, s with
  | S n', String c r => String c (take n' r)
  | _, _ => ""
  end.

(** [pad(s, n)], lines 247-249 *)
Definition pad (s : string) (n : nat) : string :=
  if (n <=? String.length s)%nat then take n s
  else s ++ spaces (n - String.length s).

End Logger.

(* ================================================================== *)
(** ** proxy.ts: classifier and routing *)

(** Modelled from the spec: the type [ProxyConfig] is declared in
    translators/types.ts, which is not among the sources.  The fields are
    those of the spec's ProxyConfiguration, under the names and with the
    optionality proxy.ts reads them with. *)
Record ProxyConfig : Type := {
  targetProvider : string;
  targetModel : string;
  spoofModel : string;
  port : Z;
  targetUrl : option string;
  passthroughModels : list string;
  leadBaseUrl : option string;
  openaiApiKey : option string;
  chatgptAccessToken : option string;
  chatgptAccountId : option string
}.

(** What a translator does to the response it is handed: the chunks it
    writes, whether it ends the response, and the error it throws if it
    does. *)
Record stream_run : Type := {
  written : list string;
  finished : bool;
  failure : option JS.exn
}.

(** The body of an upstream response, as the proxy reads it: the chunks
    its reader yields, and the error the reader rejects with after them
    when the transfer breaks off. *)
Record Body : Type := {
  yielded : list string;
  rejected : option JS.exn
}.

(** The four functions imported from translators/, which are not among
    the sources, taken as parameters.  The request translators return the
    upstream request or throw; the stream translators are handed the
    upstream body, the response and the spoof model. *)
Class Translators : Type := {
  translateRequest : JS.value -> string -> JS.result (list (string * JS.value));
  translateRequestToResponses : JS.value -> string -> JS.result JS.value;
  translateStream : Body -> string -> stream_run;
  translateResponsesStream : Body -> string -> stream_run
}.

Module Proxy.
Import JS Conv.

Definition DEFAULT_OPENAI_URL : string :=
  "https://api.openai.com/v1/chat/completions".
Definition CHATGPT_API_URL : string :=
  "https://chatgpt.com/backend-api/codex/responses".
Definition DEFAULT_ANTHROPIC_BASE_URL : string := "https://api.anthropic.com".

Definition LEAD_MARKER : string := "hydra:lead".
Definition TEAMMATE_MARKER : string :=
  "the user interacts primarily with the team lead".

(** [searchText.includes(LEAD_MARKER)] as the call is dispatched at run
    time: on a string it searches for the substring, on an array for an
    equal element, and any other truthy value has no such method. *)
Definition call_includes (v : value) (m : string) : result bool :=
  match v with
  | Str s => Val (includes s m)
  | Arr a => Val (arr_includes a m)
  | _ => Throw (TypeError "includes")
  end.

(** [shouldPassthrough(model, passthroughModels, searchText)].  The
    parameters are declared [string], [string[]] and [string?]; the
    callers pass fields of the parsed request, so [model] and
    [searchText] are values here. *)
Definition shouldPassthrough (model : value) (passthroughModels : list string)
  (searchText : value) : result bool :=
  if (Z.of_nat (List.length passthroughModels) =? 0) then Val false
  else if list_includes passthroughModels (Str "*") then
    match model with
    | Str m => Val (startsWith m "claude-")
    | _ => Throw (TypeError "startsWith")
    end
  else if list_includes passthroughModels (Str "lead") then
    if truthy searchText then call_includes searchText LEAD_MARKER
    else Val false
  else Val (list_includes passthroughModels model).

(** [baseUrl] without its trailing slashes, the [replace] of line 102 *)
Fixpoint strip_slashes (s : string) : string :=
  match s with
  | "" => ""
  | String c r =>
      let r' := strip_slashes r in
      if ((r' =? "")%string && (c =? "/")%char)%bool then "" else String c r'
  end.

Definition normalizeAnthropicMessagesUrl (baseUrl : string)
  (countTokens : bool) : string :=
  let stripped := strip_slashes baseUrl in
  let messagesUrl :=
    if endsWith stripped "/v1/messages" then stripped
    else stripped ++ "/v1/messages" in
  if countTokens then messagesUrl ++ "/count_tokens" else messagesUrl.

Section WithEngine.
Context {E : Engine}.

(** [block.text], or the empty string when that is falsy *)
Definition blockText (block : value) : result value :=
  rbind (get block "text") (fun t => Val (or_else t (Str ""))).

Definition extractSystemText (system : value) : result string :=
  match system with
  | Str s => Val s
  | Arr blocks => rbind (rmap blockText blocks) (join_values " ")
  | _ => Val ""
  end.

(** The callback of lines 203-207, applied to one message *)
Definition messageText (m : value) : result value :=
  rbind (get m "content") (fun content =>
    match content with
    | Str s => Val (Str s)
    | Arr bs =>
        rbind (rmap blockText bs) (fun l =>
        rbind (join_values " " l) (fun s => Val (Str s)))
    | _ => Val (Str "")
    end).

(** [(messages || []).slice(0, 3).map(...).join(" ")]: only an array has
    both [slice] and [map]; a string has [slice] alone. *)
Definition firstMessagesText (messages : value) : result string :=
  match or_else messages (Arr []) with
  | Arr l => rbind (rmap messageText (firstn 3 l)) (join_values " ")
  | Str _ => Throw (TypeError "map")
  | _ => Throw (TypeError "slice")
  end.

(** [v !== false] *)
Definition not_false (v : value) : bool :=
  match v with
  | Bool false => false
  | _ => true
  end.

(** [o ? o : d] for an optional configuration string *)
Definition opt_truthy (o : option string) : bool :=
  match o with
  | Some s => negb (s =? "")%string
  | None => false
  end.

Definition opt_or (o : option string) (d : string) : string :=
  match o with
  | Some s => if (s =? "")%string then d else s
  | None => d
  end.

(** What lines 198-221 compute from the parsed request *)
Record Routing : Type := {
  systemText : string;
  fullText : string;
  hasMarker : bool;
  isTeammate : bool;
  isStreaming : bool;
  msgCount : value;
  toolCount : value;
  isPassthrough : bool;
  isLeadPassthrough : bool;
  passthroughBaseUrl : string
}.

Definition route (config : ProxyConfig) (anthropicReq : value)
  : result Routing :=
  rbind (get anthropicReq "model") (fun model =>
  rbind (get anthropicReq "system") (fun system =>
  rbind (extractSystemText system) (fun systemText =>
  rbind (get anthropicReq "messages") (fun messages =>
  rbind (firstMessagesText messages) (fun msgText =>
  let fullText := systemText ++ " " ++ msgText in
  let hasMarker := includes fullText LEAD_MARKER in
  let isTeammate := includes (toLowerCase systemText) TEAMMATE_MARKER in
  rbind (get anthropicReq "stream") (fun stream =>
  let isStreaming := not_false stream in
  let msgCount := or_else (get_opt messages "length") (Num 0) in
  rbind (get anthropicReq "tools") (fun tools =>
  let toolCount := or_else (get_opt tools "length") (Num 0) in
  rbind (if isTeammate then Val false
         else shouldPassthrough model (passthroughModels config)
                (Str fullText)) (fun isPassthrough =>
  let isLeadPassthrough :=
    list_includes (passthroughModels config) (Str "lead") && hasMarker in
  let passthroughBaseUrl :=
    if isLeadPassthrough && opt_truthy (leadBaseUrl config)
    then opt_or (leadBaseUrl config) DEFAULT_ANTHROPIC_BASE_URL
    else DEFAULT_ANTHROPIC_BASE_URL in
  Val {| systemText := systemText; fullText := fullText;
         hasMarker := hasMarker; isTeammate := isTeammate;
         isStreaming := isStreaming; msgCount := msgCount;
         toolCount := toolCount; isPassthrough := isPassthrough;
         isLeadPassthrough := isLeadPassthrough;
         passthroughBaseUrl := passthroughBaseUrl |})))))))).

(** The guard of the count_tokens branch, line 160:
    [parsed.model && shouldPassthrough(parsed.model, ..., parsed.system)] *)
Definition countTokensPassthrough (config : ProxyConfig) (parsed : value)
  : result bool :=
  rbind (get parsed "model") (fun model =>
    if truthy model then
      rbind (get parsed "system") (fun system =>
        shouldPassthrough model (passthroughModels config) system)
    else Val false).

End WithEngine.

(** *** The connection: response object, outbound calls, logger *)

(** An upstream [Response]: the HTTP status, the content-type header,
    and the body ([None] for a null body). *)
Record Response : Type := {
  status : Z;
  contentType : option string;
  body : option Body
}.

(** [upstream.ok] *)
Definition ok (r : Response) : bool := (200 <=? status r) && (status r <=? 299).

(** [await upstream.text()]: the whole body is read first, so the call
    rejects when the transfer breaks off. *)
Definition text (r : Response) : result string :=
  match body r with
  | Some b =>
      match rejected b with
      | Some e => Throw e
      | None => Val (String.concat "" (yielded b))
      end
  | None => Val ""
  end.

(** What lies outside the process: the reply (or rejection) of the n-th
    [fetch] of this request, and [Date.now()]. *)
Record World : Type := {
  reply : nat -> result Response;
  now : Z
}.

(** [http.ServerResponse], as far as the handler uses it, for a client
    that stays connected ([res.destroyed] is false). *)
Record ServerResponse : Type := {
  head : option (Z * list (string * string));
  sent : list string;
  writableEnded : bool
}.

Inductive translator : Type :=
| ToChatCompletions | ToResponses | FromChatStream | FromResponsesStream.

(** What the handler does besides answering, in order.  Log lines are
    recorded without their text: [LogRequest] is the console line of
    [logger.logRequest] (the entry it then appends to the session's file
    is not recorded apart), [LogRetry] the line of [logger.logFile] in
    the retry loops, [LogError] a call of [logger.logError] and
    [ConsoleError] one of [console.error].  [formatPassthroughTarget],
    which only builds the route label of those lines and cannot throw,
    is left out. *)
Inductive event : Type :=
| Fetch (url : string) (headers : list (string * string)) (payload : string)
| Wait (ms : Z)
| Translate (which : translator)
| LogRequest (passthrough : bool)
| LogRetry (retry : Z) (waitMs : Z)
| LogError
| ConsoleError.

(** The connection and the handler's variables that outlive the [try]
    block: [session] and [requestModel]. *)
Record state : Type := {
  res : ServerResponse;
  events : list event;
  calls : nat;
  logger : Logger.t;
  session : option Logger.AgentSession;
  requestModel : value
}.

Definition M (A : Type) : Type := state -> result A * state.

Definition ret {A} (a : A) : M A := fun s => (Val a, s).

Definition bind {A B} (m : M A) (k : A -> M B) : M B :=
  fun s =>
    match m s with
    | (Val a, s') => k a s'
    | (Throw e, s') => (Throw e, s')
    end.

Definition lift {A} (r : result A) : M A := fun s => (r, s).

(** [try { m } catch (err) { h err }] *)
Definition try_catch (m : M unit) (h : exn -> M unit) : M unit :=
  fun s =>
    match m s with
    | (Val a, s') => (Val a, s')
    | (Throw e, s') => h e s'
    end.

(** [try { m } finally { f }] *)
Definition try_finally (m : M unit) (f : M unit) : M unit :=
  fun s =>
    match m s with
    | (o, s') =>
        match f s' with
        | (Val _, s'') => (o, s'')
        | (Throw e, s'') => (Throw e, s'')
        end
    end.

Declare Scope proxy_scope.
Delimit Scope proxy_scope with proxy.
Notation "x <- m ;; k" := (bind m (fun x => k))
  (at level 100, m at next level, right associativity) : proxy_scope.
Notation "m ;; k" := (bind m (fun _ => k))
  (at level 100, right associativity) : proxy_scope.
Open Scope proxy_scope.

Definition with_res (f : ServerResponse -> ServerResponse) (s : state) : state :=
  {| res := f (res s); events := events s; calls := calls s;
     logger := logger s; session := session s;
     requestModel := requestModel s |}.

Definition emit (e : event) : M unit :=
  fun s => (Val tt, {| res := res s; events := events s ++ [e];
                       calls := calls s; logger := logger s;
                       session := session s;
                       requestModel := requestModel s |}).

Definition read_res : M ServerResponse := fun s => (Val (res s), s).

(** [res.writeHead(status, headers)]; a second call throws. *)
Definition writeHead (code : Z) (headers : list (string * string)) : M unit :=
  fun s =>
    match head (res s) with
    | Some _ =>
        (Throw (Error "Cannot write headers after they are sent to the client"), s)
    | None =>
        (Val tt, with_res (fun r => {| head := Some (code, headers);
                                       sent := sent r;
                                       writableEnded := writableEnded r |}) s)
    end.

(** [res.write(chunk)] *)
Definition write (chunk : string) : M unit :=
  fun s =>
    (Val tt, with_res (fun r =>
       if writableEnded r then r
       else {| head := head r; sent := sent r ++ [chunk];
               writableEnded := false |}) s).

(** [res.end(payload)]; headers not yet written go out with status 200. *)
Definition end_ (payload : option string) : M unit :=
  fun s =>
    (Val tt, with_res (fun r =>
       if writableEnded r then r
       else {| head := match head r with
                       | Some h => Some h
                       | None => Some (200, [])
                       end;
               sent := match payload with
                       | Some p => sent r ++ [p]
                       | None => sent r
                       end;
               writableEnded := true |}) s).

(** [safeEnd(res, payload?)] *)
Definition safeEnd (payload : option string) : M unit :=
  r <- read_res ;;
  if writableEnded r then ret tt else end_ payload.

(** [await fetch(url, { method: "POST", headers, body })] *)
Definition fetch (W : World) (url : string) (headers : list (string * string))
  (payload : string) : M Response :=
  fun s =>
    (reply W (calls s),
     {| res := res s; events := events s ++ [Fetch url headers payload];
        calls := S (calls s); logger := logger s; session := session s;
        requestModel := requestModel s |}).

Definition JSON_HEADERS : list (string * string) :=
  [("Content-Type", "application/json")].

Definition SSE_HEADERS : list (string * string) :=
  [("Content-Type", "text/event-stream"); ("Cache-Control", "no-cache");
   ("Connection", "keep-alive")].

(** *** handlePassthrough *)

Definition relayKeys : list string :=
  ["x-api-key"; "authorization"; "anthropic-version"; "anthropic-beta";
   "cookie"; "x-request-id"].

Fixpoint header (k : string) (headers : list (string * string))
  : option string :=
  match headers with
  | [] => None
  | (k', v) :: r => if (k =? k')%string then Some v else header k r
  end.

Definition forwardHeaders (headers : list (string * string))
  : list (string * string) :=
  ("Content-Type", "application/json")
  :: flat_map (fun k =>
       match header k headers with
       | Some v => if (v =? "")%string then [] else [(k, v)]
       | None => []
       end) relayKeys.

(** The read loop of lines 88-94: each turn reads, and a chunk read is
    written unless the response has ended, which ends the loop; a read
    that rejects throws out of the loop. *)
Fixpoint relay (chunks : list string) (rejected : option exn) : M unit :=
  match chunks with
  | [] =>
      match rejected with
      | Some e => lift (Throw e)
      | None => ret tt
      end
  | c :: rest =>
      r <- read_res ;;
      if writableEnded r then ret tt else (write c ;; relay rest rejected)
  end.

Definition handlePassthrough (W : World) (payload : string)
  (headers : list (string * string)) (upstreamUrl : string)
  (onStatus : Z -> M unit) : M unit :=
  upstream <- fetch W upstreamUrl (forwardHeaders headers) payload ;;
  onStatus (status upstream) ;;
  writeHead (status upstream)
    [("Content-Type", opt_or (contentType upstream) "text/event-stream");
     ("Cache-Control", "no-cache"); ("Connection", "keep-alive")] ;;
  match body upstream with
  | None => safeEnd None
  | Some b => try_finally (relay (yielded b) (rejected b)) (safeEnd None)
  end.

Section Handler.
Context {E : Engine} {T : Translators}.
Variable config : ProxyConfig.
Variable W : World.

(** *** The retry loop of lines 267-287 and 321-338 *)

Definition MAX_RETRIES : Z := 5.

(** [Math.min(1000 * Math.pow(2, attempt), 10000)] *)
Definition waitMs (attempt : Z) : Z := Z.min (1000 * 2 ^ attempt) 10000.

(** [for (let attempt = 0; attempt <= MAX_RETRIES; attempt++) { ... }]
    from the turn numbered [attempt] on; [turns] is the number of turns
    the loop condition still admits, [upstream] the variable of that
    name, [null] before the first turn. *)
Fixpoint retryFrom (doFetch : M Response) (turns : nat) (attempt : Z)
  (upstream : option Response) : M (option Response) :=
  match turns with
  | O => ret upstream
  | S turns' =>
      r <- doFetch ;;
      if negb (status r =? 429) then ret (Some r)
      else
        (if attempt <? MAX_RETRIES
         then (emit (LogRetry (attempt + 1) (waitMs attempt)) ;;
               emit (Wait (waitMs attempt)))
         else ret tt) ;;
        retryFrom doFetch turns' (attempt + 1) (Some r)
  end.

Definition retry (doFetch : M Response) : M (option Response) :=
  retryFrom doFetch (Z.to_nat (MAX_RETRIES + 1)) 0 None.

(** [{ type: "error", error: { type, message } }] *)
Definition errorBody (kind message : string) : value :=
  Obj [("type", Str "error");
       ("error", Obj [("type", Str kind); ("message", Str message)])].

Definition sendJson (code : Z) (v : value) : M unit :=
  writeHead code JSON_HEADERS ;; end_ (Some (JSON_stringify v)).

(** [await translate...Stream(upstream.body, res, config.spoofModel)] *)
Fixpoint write_all (chunks : list string) : M unit :=
  match chunks with
  | [] => ret tt
  | c :: rest => write c ;; write_all rest
  end.

Definition run_stream (which : translator) (r : stream_run) : M unit :=
  emit (Translate which) ;;
  write_all (written r) ;;
  (if finished r then end_ None else ret tt) ;;
  match failure r with
  | Some e => lift (Throw e)
  | None => ret tt
  end.

(** [upstream?.status || 500] *)
Definition status_or_500 (upstream : option Response) : Z :=
  match upstream with
  | Some r => if status r =? 0 then 500 else status r
  | None => 500
  end.

(** [upstream ? await upstream.text() : "No response"] *)
Definition errText_of (upstream : option Response) : result string :=
  match upstream with
  | Some r => text r
  | None => Val "No response"
  end.

Definition failed (upstream : option Response) : bool :=
  match upstream with
  | Some r => negb (ok r)
  | None => true
  end.

(** [logger.logError(session, `... (model=${anthropicReq.model}, ...)`)]:
    the template is evaluated before the call, and printing the model
    can throw. *)
Definition logError (model : value) : M unit :=
  _ <- lift (to_str model) ;;
  emit LogError.

(** *** The ChatGPT (Responses API) branch, lines 263-309 *)

Definition bearer (token : option string) : string :=
  "Bearer " ++ match token with Some t => t | None => "undefined" end.

Definition respondChatGPT (model : value) (upstream : option Response)
  : M unit :=
  if failed upstream then
    errText <- lift (errText_of upstream) ;;
    logError model ;;
    sendJson (status_or_500 upstream) (errorBody "api_error" errText)
  else
    match upstream with
    | Some {| body := Some b |} =>
        writeHead 200 SSE_HEADERS ;;
        run_stream FromResponsesStream
          (translateResponsesStream b (spoofModel config))
    | _ =>
        logError model ;;
        sendJson 500 (errorBody "api_error" "No response body")
    end.

Definition chatgptBranch (anthropicReq model : value) : M unit :=
  emit (Translate ToResponses) ;;
  responsesReq <-
    lift (translateRequestToResponses anthropicReq (targetModel config)) ;;
  upstream <-
    retry (fetch W CHATGPT_API_URL
             [("Content-Type", "application/json");
              ("Authorization", bearer (chatgptAccessToken config));
              ("Chatgpt-Account-Id", opt_or (chatgptAccountId config) "");
              ("User-Agent", "codex-cli/1.0")]
             (JSON_stringify responsesReq)) ;;
  respondChatGPT model upstream.

(** *** The Chat Completions branch, lines 311-381 *)

(** [o.k = v] on an object: an existing property keeps its place. *)
Fixpoint obj_set (k : string) (v : value) (o : list (string * value))
  : list (string * value) :=
  match o with
  | [] => [(k, v)]
  | (k', v') :: r =>
      if (k =? k')%string then (k', v) :: r else (k', v') :: obj_set k v r
  end.

(** [delete o.k] *)
Definition obj_delete (k : string) (o : list (string * value))
  : list (string * value) :=
  filter (fun kv => negb (k =? fst kv)%string) o.

(** Line 347 *)
Definition errorType (code : Z) : string :=
  if code =? 429 then "rate_limit_error"
  else if code =? 401 then "authentication_error"
  else if 500 <=? code then "api_error"
  else "invalid_request_error".

(** One turn of the loop over [tool_calls], line 363 *)
Definition toolUse (tc : value) : result value :=
  rbind (get tc "id") (fun id =>
  rbind (get tc "function") (fun fn =>
  rbind (get fn "name") (fun name =>
  rbind (get fn "arguments") (fun arguments =>
  rbind (to_str (or_else arguments (Str "{}"))) (fun text =>
  rbind (JSON_parse text) (fun input =>
  Val (Obj [("type", Str "tool_use"); ("id", id); ("name", name);
            ("input", input)]))))))).

(** [for (const tc of v)]: an array yields its elements, a string its
    characters, nothing else that is truthy can be iterated. *)
Definition iterate (v : value) : result (list value) :=
  match v with
  | Arr l => Val l
  | Str s => Val (List.map (fun c => Str (String c "")) (list_ascii_of_string s))
  | _ => Throw (TypeError "iterator")
  end.

(** Lines 361-365: the blocks pushed for [message.tool_calls] *)
Definition toolUses (message : value) : result (list value) :=
  if truthy (get_opt message "tool_calls")
  then rbind (iterate (get_opt message "tool_calls")) (rmap toolUse)
  else Val [].

(** Line 366 *)
Definition stopReason (choice : value) : string :=
  match get_opt choice "finish_reason" with
  | Str "tool_calls" => "tool_use"
  | Str "length" => "max_tokens"
  | _ => "end_turn"
  end.

(** Lines 358-368: the Anthropic message built from the upstream JSON *)
Definition translateMessage (openaiRes : value) : result value :=
  rbind (get openaiRes "choices") (fun choices =>
  let choice := first_opt choices in
  let message := get_opt choice "message" in
  let content1 :=
    if truthy (get_opt message "content")
    then [Obj [("type", Str "text"); ("text", get_opt message "content")]]
    else [] in
  rbind (toolUses message) (fun content2 =>
  rbind (get openaiRes "usage") (fun usage =>
  Val (Obj [("id", Str ("msg_" ++ numberToString (now W)));
            ("type", Str "message");
            ("role", Str "assistant");
            ("model", Str (spoofModel config));
            ("content", Arr (content1 ++ content2));
            ("stop_reason", Str (stopReason choice));
            ("usage",
             Obj [("input_tokens",
                   or_else (get_opt usage "prompt_tokens") (Num 0));
                  ("output_tokens",
                   or_else (get_opt usage "completion_tokens") (Num 0))])])))).

Definition respondOpenAI (model : value) (isStreaming : bool)
  (upstream : option Response) : M unit :=
  if failed upstream then
    errText <- lift (errText_of upstream) ;;
    logError model ;;
    sendJson (status_or_500 upstream)
      (errorBody (errorType (status_or_500 upstream)) errText)
  else
    match upstream with
    | None => ret tt
    | Some r =>
        if negb isStreaming then
          (* [await upstream.json()] *)
          openaiRes <- lift (rbind (text r) JSON_parse) ;;
          msg <- lift (translateMessage openaiRes) ;;
          sendJson 200 msg
        else
          match body r with
          | None =>
              logError model ;;
              sendJson 500 (errorBody "api_error" "No response body")
          | Some b =>
              writeHead 200 SSE_HEADERS ;;
              run_stream FromChatStream
                (translateStream b (spoofModel config))
          end
    end.

Definition openaiBranch (anthropicReq model : value) (isStreaming : bool)
  : M unit :=
  let openaiUrl := opt_or (targetUrl config) DEFAULT_OPENAI_URL in
  emit (Translate ToChatCompletions) ;;
  openaiReq0 <- lift (translateRequest anthropicReq (targetModel config)) ;;
  let openaiReq :=
    if negb isStreaming
    then obj_delete "stream_options" (obj_set "stream" (Bool false) openaiReq0)
    else openaiReq0 in
  let headers :=
    ("Content-Type", "application/json")
    :: (if opt_truthy (openaiApiKey config)
        then [("Authorization", bearer (openaiApiKey config))] else []) in
  upstream <-
    retry (fetch W openaiUrl headers (JSON_stringify (Obj openaiReq))) ;;
  respondOpenAI model isStreaming upstream.

(** *** The count_tokens endpoint, lines 156-183 *)

(** [Math.ceil(n / 4)] for a length [n] *)
Definition ceil_quarter (n : Z) : Z := - ((- n) / 4).

Definition countTokens (headers : list (string * string)) (payload : string)
  : M unit :=
  try_catch
    (parsed <- lift (JSON_parse payload) ;;
     pass <- lift (countTokensPassthrough config parsed) ;;
     if pass then
       system <- lift (get parsed "system") ;;
       systemText <- lift (extractSystemText system) ;;
       let isLeadPassthrough :=
         list_includes (passthroughModels config) (Str "lead")
         && includes systemText LEAD_MARKER in
       let passthroughBaseUrl :=
         if isLeadPassthrough && opt_truthy (leadBaseUrl config)
         then opt_or (leadBaseUrl config) DEFAULT_ANTHROPIC_BASE_URL
         else DEFAULT_ANTHROPIC_BASE_URL in
       handlePassthrough W payload headers
         (normalizeAnthropicMessagesUrl passthroughBaseUrl true)
         (fun _ => ret tt)
     else
       messages <- lift (get parsed "messages") ;;
       let serialized := JSON_stringify (or_else messages (Arr [])) in
       sendJson 200
         (Obj [("input_tokens", Num (ceil_quarter (strlen serialized)))]))
    (fun _ => sendJson 200 (Obj [("input_tokens", Num 1000)])).

(** *** The main endpoint, lines 192-402 *)

(** [msgCount] is a number whenever line 213 is reached (lemma
    [route_msgCount] below); this reads it. *)
Definition as_number (v : value) : Z :=
  match v with
  | Num n => n
  | _ => 0
  end.

(** [requestModel = anthropicReq.model || "unknown"], line 198 *)
Definition set_requestModel (v : value) : M unit :=
  fun s =>
    (Val tt, {| res := res s; events := events s; calls := calls s;
                logger := logger s; session := session s;
                requestModel := v |}).

Definition read_requestModel : M value := fun s => (Val (requestModel s), s).

(** [session = logger.identify({...})] *)
Definition identify (i : Logger.info) : M unit :=
  fun s =>
    let (found, lg) := Logger.identify (logger s) i in
    (Val tt, {| res := res s; events := events s; calls := calls s;
                logger := lg; session := Some found;
                requestModel := requestModel s |}).

(** [this.totalRequests++], the first statement of [logRequest] *)
Definition countRequest : M unit :=
  fun s =>
    (Val tt, {| res := res s; events := events s; calls := calls s;
                logger := Logger.logRequest (logger s);
                session := session s;
                requestModel := requestModel s |}).

(** [logger.logRequest(session, {...})], logger.ts lines 112-142.  The
    request counter goes up first.  The templates print [info.model]
    (in the console line of a passthrough request only, in the file
    entry always), [info.msgCount] and [info.toolCount], which are
    whatever the request holds there; each is evaluated before the line
    is handed to [console.log] or to the file, so a value that cannot be
    printed throws before its line goes out. *)
Definition logRequest (passthrough : bool) (model msgCount toolCount : value)
  : M unit :=
  countRequest ;;
  (if passthrough then (_ <- lift (to_str model) ;; ret tt) else ret tt) ;;
  _ <- lift (to_str msgCount) ;;
  _ <- lift (to_str toolCount) ;;
  emit (LogRequest passthrough) ;;
  _ <- lift (to_str model) ;;
  _ <- lift (to_str msgCount) ;;
  _ <- lift (to_str toolCount) ;;
  ret tt.

(** The [catch] block, lines 382-402.  Its log line prints
    [requestModel], before anything is sent: when that throws, the
    block throws and the handler's promise rejects. *)
Definition onError (err : exn) : M unit :=
  model <- read_requestModel ;;
  _ <- lift (to_str model) ;;
  (fun s => match session s with
            | Some _ => emit LogError s
            | None => emit ConsoleError s
            end) ;;
  r <- read_res ;;
  if writableEnded r then ret tt
  else
    match head r with
    | None =>
        writeHead 500 JSON_HEADERS ;;
        safeEnd (Some (JSON_stringify (errorBody "api_error" (message_of err))))
    | Some _ => safeEnd None
    end.

Definition messages (headers : list (string * string)) (payload : string)
  : M unit :=
  try_catch
    (anthropicReq <- lift (JSON_parse payload) ;;
     model <- lift (get anthropicReq "model") ;;
     set_requestModel (or_else model (Str "unknown")) ;;
     d <- lift (route config anthropicReq) ;;
     identify {| Logger.toolCount := toolCount d;
                 Logger.msgCount := as_number (msgCount d);
                 Logger.isTeammate := isTeammate d;
                 Logger.systemText := systemText d |} ;;
     logRequest (isPassthrough d) model (msgCount d) (toolCount d) ;;
     if isPassthrough d then
       handlePassthrough W payload headers
         (normalizeAnthropicMessagesUrl (passthroughBaseUrl d) false)
         (fun code => if 400 <=? code then logError model else ret tt)
     else if (targetProvider config =? "chatgpt")%string then
       chatgptBranch anthropicReq model
     else
       openaiBranch anthropicReq model (isStreaming d))
    onError.

(** *** The request listener, lines 140-190 *)

(** The part of [req.url] before the first question mark, line 141 *)
Fixpoint before_query (url : string) : string :=
  match url with
  | "" => ""
  | String c r => if (c =? "?")%char then "" else String c (before_query r)
  end.

Definition healthBody : value :=
  Obj [("status", Str "ok");
       ("targetModel", Str (targetModel config));
       ("spoofModel", Str (spoofModel config));
       ("passthroughModels", Arr (List.map Str (passthroughModels config)))].

Definition listener (method : string) (url : option string)
  (headers : list (string * string)) (payload : string) : M unit :=
  let pathname := before_query (opt_or url "") in
  if ((method =? "GET") && ((pathname =? "/") || (pathname =? "/health")))%string
  then sendJson 200 healthBody
  else if ((method =? "POST") && (pathname =? "/v1/messages/count_tokens"))%string
  then countTokens headers payload
  else if (negb (method =? "POST") || negb (pathname =? "/v1/messages"))%string
  then sendJson 404
         (Obj [("error", Obj [("type", Str "not_found");
                              ("message", Str "Not found")])])
  else messages headers payload.

End Handler.

(** A response nothing has been written to *)
Definition blank : ServerResponse :=
  {| head := None; sent := []; writableEnded := false |}.

(** A connection as the listener finds it: nothing sent, no outbound
    call made, no session identified, the request's model unknown. *)
Definition fresh (lg : Logger.t) : state :=
  {| res := blank; events := []; calls := 0; logger := lg; session := None;
     requestModel := Str "unknown" |}.

(** A complete answer: status line, headers, body chunks, ended *)
Definition answered (code : Z) (headers : list (string * string))
  (chunks : list string) : ServerResponse :=
  {| head := Some (code, headers); sent := chunks; writableEnded := true |}.

(** A JSON answer whose body is the serialization of [v] *)
Definition json_answer {E : Engine} (code : Z) (v : value) : ServerResponse :=
  answered code JSON_HEADERS [JSON_stringify v].

End Proxy.

(* ================================================================== *)
(** ** Vocabulary of the statements *)

(** [p] is a prefix of [s] *)
Definition prefix_of (p s : string) : Prop := exists r, s = p ++ r.

(** [m] occurs in [s] *)
Definition occurs_in (m s : string) : Prop := exists a b, s = a ++ m ++ b.

(** The [searchText?: string] argument of the classifier *)
Definition search_arg (searchText : option string) : JS.value :=
  match searchText with
  | Some s => JS.Str s
  | None => JS.Undefined
  end.

(** The routing decision of the main endpoint: [isPassthrough] of line
    217, when the lines before it do not throw *)
Definition mainPassthrough {E : Engine} (config : ProxyConfig)
  (anthropicReq : JS.value) : JS.result bool :=
  JS.rbind (Proxy.route config anthropicReq)
    (fun d => JS.Val (Proxy.isPassthrough d)).

(** What an observer sees of [k] rate-limited attempts and one more,
    in the spec's words: every attempt is a POST; after each of the
    first [k] the retry is logged and the proxy waits
    min(1000 ms x 2^attempt, 10000 ms). *)
Fixpoint backoff_events (post : Proxy.event) (attempt : Z) (k : nat)
  : list Proxy.event :=
  match k with
  | O => [post]
  | S k' =>
      post
      :: Proxy.LogRetry (attempt + 1) (Z.min (1000 * 2 ^ attempt) 10000)
      :: Proxy.Wait (Z.min (1000 * 2 ^ attempt) 10000)
      :: backoff_events post (attempt + 1) k'
  end.

(** The waits of a trace, in order, and the number of its POSTs *)
Definition delays (evs : list Proxy.event) : list Z :=
  flat_map (fun e => match e with Proxy.Wait ms => [ms] | _ => [] end) evs.

Definition posts (evs : list Proxy.event) : nat :=
  List.length
    (filter (fun e => match e with Proxy.Fetch _ _ _ => true | _ => false end)
       evs).

(** A state with more events and calls, the rest unchanged *)
Definition advance (s : Proxy.state) (evs : list Proxy.event) (n : nat)
  : Proxy.state :=
  {| Proxy.res := Proxy.res s;
     Proxy.events := Proxy.events s ++ evs;
     Proxy.calls := Proxy.calls s + n;
     Proxy.logger := Proxy.logger s;
     Proxy.session := Proxy.session s;
     Proxy.requestModel := Proxy.requestModel s |}.

(** The connection after lines 198-240 of a request [req] routed as [d]
    and logged: the model noted, the session identified, the request
    counted and its line printed, nothing answered yet *)
Definition routed (lg : Logger.t) (req : JS.value) (d : Proxy.Routing)
  : Proxy.state :=
  let found :=
    Logger.identify lg
      {| Logger.toolCount := Proxy.toolCount d;
         Logger.msgCount := Proxy.as_number (Proxy.msgCount d);
         Logger.isTeammate := Proxy.isTeammate d;
         Logger.systemText := Proxy.systemText d |} in
  {| Proxy.res := Proxy.blank;
     Proxy.events := [Proxy.LogRequest (Proxy.isPassthrough d)];
     Proxy.calls := 0;
     Proxy.logger := Logger.logRequest (snd found);
     Proxy.session := Some (fst found);
     Proxy.requestModel :=
       JS.or_else (JS.get_opt req "model") (JS.Str "unknown") |}.

(** The connection after line 198 of a request that parsed to [req]:
    its model noted, nothing else done yet *)
Definition noted (lg : Logger.t) (req : JS.value) : Proxy.state :=
  {| Proxy.res := Proxy.blank;
     Proxy.events := [];
     Proxy.calls := 0;
     Proxy.logger := lg;
     Proxy.session := None;
     Proxy.requestModel :=
       JS.or_else (JS.get_opt req "model") (JS.Str "unknown") |}.

(** The connection when [logRequest] is called for a request [req]
    routed as [d]: the model noted and the session identified *)
Definition identified (lg : Logger.t) (req : JS.value) (d : Proxy.Routing)
  : Proxy.state :=
  let found :=
    Logger.identify lg
      {| Logger.toolCount := Proxy.toolCount d;
         Logger.msgCount := Proxy.as_number (Proxy.msgCount d);
         Logger.isTeammate := Proxy.isTeammate d;
         Logger.systemText := Proxy.systemText d |} in
  {| Proxy.res := Proxy.blank;
     Proxy.events := [];
     Proxy.calls := 0;
     Proxy.logger := snd found;
     Proxy.session := Some (fst found);
     Proxy.requestModel :=
       JS.or_else (JS.get_opt req "model") (JS.Str "unknown") |}.

(** What the main endpoint goes on with once a request is routed and
    logged, lines 243-381 *)
Definition branch_of {E : Engine} {T : Translators} (config : ProxyConfig)
  (W : Proxy.World) (headers : list (string * string)) (payload : string)
  (req : JS.value) (d : Proxy.Routing) : Proxy.M unit :=
  let model := JS.get_opt req "model" in
  if Proxy.isPassthrough d then
    Proxy.handlePassthrough W payload headers
      (Proxy.normalizeAnthropicMessagesUrl (Proxy.passthroughBaseUrl d) false)
      (fun code =>
         if 400 <=? code then Proxy.logError model else Proxy.ret tt)
  else if (targetProvider config =? "chatgpt")%string then
    Proxy.chatgptBranch config W req model
  else
    Proxy.openaiBranch config W req model (Proxy.isStreaming d).

(** The upstream answers its [i]-th call with status 429 *)
Definition rate_limited (W : Proxy.World) (i : nat) : Prop :=
  exists r, Proxy.reply W i = JS.Val r /\ Proxy.status r = 429.

(** [r] is the answer the retry loop ends with when the calls of the
    request start at the upstream's answer 0: the first answer that is
    not a 429 when it is among the first six, the sixth otherwise. *)
Definition final_answer (W : Proxy.World) (r : Proxy.Response) : Prop :=
  (exists k, (k <= 5)%nat
             /\ (forall i, (i < k)%nat -> rate_limited W i)
             /\ Proxy.reply W k = JS.Val r /\ Proxy.status r <> 429)
  \/ ((forall i, (i <= 5)%nat -> rate_limited W i)
      /\ Proxy.reply W 5 = JS.Val r).

(** The retry loop, started at the upstream's answer 0, ends with the
    answer [r] after [k] answers 429: [r] is the first answer that is not
    a 429, or the sixth answer when all six are. *)
Definition ends_at (W : Proxy.World) (k : nat) (r : Proxy.Response) : Prop :=
  ((k <= 5)%nat
   /\ (forall i, (i < k)%nat -> rate_limited W i)
   /\ Proxy.reply W k = JS.Val r /\ Proxy.status r <> 429)
  \/ (k = 5%nat
      /\ (forall i, (i <= 5)%nat -> rate_limited W i)
      /\ Proxy.reply W 5 = JS.Val r).

(** The POST of the Chat Completions branch, lines 313-330, for the
    translated request [oreq] *)
Definition openai_post {E : Engine} (config : ProxyConfig)
  (oreq : list (string * JS.value)) (streaming : bool) : Proxy.event :=
  Proxy.Fetch
    match targetUrl config with
    | Some u =>
        if (u =? "")%string
        then "https://api.openai.com/v1/chat/completions" else u
    | None => "https://api.openai.com/v1/chat/completions"
    end
    (("Content-Type", "application/json")
     :: match openaiApiKey config with
        | Some k =>
            if (k =? "")%string then []
            else [("Authorization", ("Bearer " ++ k)%string)]
        | None => []
        end)
    (JSON_stringify
       (JS.Obj
          (if streaming then oreq
           else filter (fun kv => negb ("stream_options" =? fst kv)%string)
                  (Proxy.obj_set "stream" (JS.Bool false) oreq)))).

(** The POST of the ChatGPT branch, lines 270-279 *)
Definition chatgpt_post {E : Engine} (config : ProxyConfig) (rr : JS.value)
  : Proxy.event :=
  Proxy.Fetch "https://chatgpt.com/backend-api/codex/responses"
    [("Content-Type", "application/json");
     ("Authorization",
      ("Bearer " ++ match chatgptAccessToken config with
                    | Some t => t
                    | None => "undefined"
                    end)%string);
     ("Chatgpt-Account-Id",
      match chatgptAccountId config with
      | Some a => a
      | None => ""
      end);
     ("User-Agent", "codex-cli/1.0")]
    (JSON_stringify rr).

(** Logger states that a run of the server can reach *)
Inductive reachable : Logger.t -> Prop :=
| reach_create : reachable Logger.create
| reach_identify lg i : reachable lg -> reachable (snd (Logger.identify lg i))
| reach_logRequest lg : reachable lg -> reachable (Logger.logRequest lg).

(** A teammate session that a request with [count] messages can join *)
Definition eligible (count : Z) (s : Logger.AgentSession) : Prop :=
  Logger.type s = Logger.teammate
  /\ 0 <= count - Logger.lastMsgCount s <= 8.

(** What the loop of [identify] holds in [bestMatch] and [bestDiff]
    after visiting the sessions [m]: nothing when no session of [m] is
    eligible, otherwise an eligible session of [m] and its gap, the
    smallest among the eligible ones. *)
Definition best_of (count : Z) (m : list (string * Logger.AgentSession))
  (acc : option Logger.AgentSession * option Z) : Prop :=
  match acc with
  | (None, None) => forall k s, In (k, s) m -> ~ eligible count s
  | (Some s0, Some g) =>
      (exists k0, In (k0, s0) m)
      /\ eligible count s0
      /\ g = count - Logger.lastMsgCount s0
      /\ forall k s, In (k, s) m -> eligible count s ->
           g <= count - Logger.lastMsgCount s
  | _ => False
  end.

(** The representation invariant of the session table: it is a map
    (every key once), each session sits under its own key, and the keys
    are WARM, LEAD and T1 ... Tn for the sessions of those types. *)
Definition well_keyed (lg : Logger.t) : Prop :=
  NoDup (List.map fst (Logger.sessions lg))
  /\ forall k s, In (k, s) (Logger.sessions lg) ->
       Logger.key s = k
       /\ (Logger.type s = Logger.teammate ->
             exists j, (1 <= j <= Logger.teammateIndex lg)%nat
                       /\ k = "T" ++ Logger.decimal j)
       /\ (Logger.type s <> Logger.teammate -> k = "WARM" \/ k = "LEAD").

(** The sum of a list of waits *)
Definition total_wait (l : list Z) : Z := fold_right Z.add 0 l.

(** The headers [handlePassthrough] answers with, lines 76-80 *)
Definition relayed_headers (up : Proxy.Response) : list (string * string) :=
  [("Content-Type",
    match Proxy.contentType up with
    | Some c => if (c =? "")%string then "text/event-stream" else c
    | None => "text/event-stream"
    end);
   ("Cache-Control", "no-cache"); ("Connection", "keep-alive")].

(** The chunks the reader of an upstream body yields, none for a null
    body *)
Definition chunks_of (up : Proxy.Response) : list string :=
  match Proxy.body up with
  | Some b => yielded b
  | None => []
  end.

(** The error the reader of an upstream body rejects with, if it does *)
Definition cut_short (up : Proxy.Response) : option JS.exn :=
  match Proxy.body up with
  | Some b => rejected b
  | None => None
  end.

(** The base URL the handlers relay to, lines 164-169 and 218-221: the
    configured lead URL for a text carrying the lead marker when the
    lead matcher is configured, Anthropic's otherwise *)
Definition relay_base (config : ProxyConfig) (searched : string) : string :=
  if JS.list_includes (passthroughModels config) (JS.Str "lead")
     && JS.includes searched "hydra:lead"
  then match leadBaseUrl config with
       | Some u => if (u =? "")%string then "https://api.anthropic.com" else u
       | None => "https://api.anthropic.com"
       end
  else "https://api.anthropic.com".

(** The headers of an event stream *)
Definition event_stream : list (string * string) :=
  [("Content-Type", "text/event-stream"); ("Cache-Control", "no-cache");
   ("Connection", "keep-alive")].

(** A response whose status line and headers are sent, and which is
    ended unless it is an event stream *)
Definition settled (r : Proxy.ServerResponse) : Prop :=
  exists h, Proxy.head r = Some h
            /\ (Proxy.writableEnded r = false -> h = (200, event_stream)).

(** [String(v)] returns: [v] can be printed in a log line *)
Definition printable {E : Engine} (v : JS.value) : Prop :=
  exists s, Conv.to_str v = JS.Val s.

(** The message the client is shown for a caught [e]: the message of an
    [Error], and Internal proxy error for anything else thrown *)
Definition error_text {E : Engine} (e : JS.exn) : string :=
  match e with
  | JS.TypeError site => typeErrorMessage site
  | JS.Error m => m
  | JS.Thrown => "Internal proxy error"
  end.

(** A complete answer with status [code], the JSON content type and the
    serialization of [v] as its body *)
Definition json_reply {E : Engine} (code : Z) (v : JS.value)
  : Proxy.ServerResponse :=
  {| Proxy.head := Some (code, [("Content-Type", "application/json")]);
     Proxy.sent := [JSON_stringify v];
     Proxy.writableEnded := true |}.

(** A body that parses to a request whose model cannot be printed in a
    log line *)
Definition opaque_model {E : Engine} (payload : string) : Prop :=
  exists req e,
    JSON_parse payload = JS.Val req
    /\ Conv.to_str (JS.get_opt req "model") = JS.Throw e.

(** Events among which there is no upstream call and no wait *)
Definition quiet (evs : list Proxy.event) : Prop :=
  posts evs = 0%nat /\ delays evs = [].

(** From [s] to [s1] only the response and the log have changed: the
    trace goes on with events among which there is no call and no wait,
    and the handler's variables and the logger are as they were. *)
Definition follows (s s1 : Proxy.state) : Prop :=
  exists evs, Proxy.events s1 = (Proxy.events s ++ evs)%list
              /\ quiet evs
              /\ Proxy.calls s1 = Proxy.calls s
              /\ Proxy.logger s1 = Proxy.logger s
              /\ Proxy.session s1 = Proxy.session s
              /\ Proxy.requestModel s1 = Proxy.requestModel s.

(** A computation that makes no upstream call and does not wait *)
Definition Quiet {A} (m : Proxy.M A) : Prop :=
  forall s o s1, m s = (o, s1) -> follows s s1.

(** A stream translator that threw *)
Definition broke (sr : stream_run) : bool :=
  match failure sr with
  | Some _ => true
  | None => false
  end.

(** What the table holds under the key [k] when [n] teammates have been
    numbered: a session carrying that key, counted at least once, which
    is the warm-up session under WARM, the lead under LEAD, or teammate
    number j under Tj, in the j-th colour of the cycle. *)
Definition entry_ok (n : nat) (k : string) (s : Logger.AgentSession) : Prop :=
  Logger.key s = k
  /\ 1 <= Logger.requestCount s
  /\ ((k = "WARM" /\ Logger.type s = Logger.warmup
       /\ Logger.color s = Logger.C_dim)
      \/ (k = "LEAD" /\ Logger.type s = Logger.lead
          /\ Logger.color s = Logger.C_cyan)
      \/ (exists j, (1 <= j <= n)%nat
                    /\ k = "T" ++ Logger.decimal j
                    /\ Logger.type s = Logger.teammate
                    /\ Logger.color s
                       = nth ((j - 1) mod 4) Logger.TEAMMATE_COLORS
                           Logger.C_yellow)).

(** The shape of the session table: a map whose entries are as above
    and in which every teammate number handed out so far has its
    session. *)
Definition shaped (lg : Logger.t) : Prop :=
  NoDup (List.map fst (Logger.sessions lg))
  /\ (forall k s, In (k, s) (Logger.sessions lg) ->
        entry_ok (Logger.teammateIndex lg) k s)
  /\ (forall j, (1 <= j <= Logger.teammateIndex lg)%nat ->
        In ("T" ++ Logger.decimal j) (List.map fst (Logger.sessions lg))).

(** A name as the capture group admits it: a word character, then word
    characters and dashes *)
Definition is_name (n : string) : bool :=
  match n with
  | String c r =>
      Logger.is_word c
      && forallb Logger.is_word_or_dash (list_ascii_of_string r)
  | "" => false
  end.

(** The keys and types [identify] calls [getOrCreate] with, [n] being
    the teammate counter at the call *)
Definition admissible (n : nat) (k : string) (ty : Logger.session_type)
  : Prop :=
  (k = "WARM" /\ ty = Logger.warmup) \/ (k = "LEAD" /\ ty = Logger.lead)
  \/ (k = "T" ++ Logger.decimal n /\ ty = Logger.teammate /\ (1 <= n)%nat).

(** [k] slashes *)
Fixpoint slashes (k : nat) : string :=
  match k with
  | O => ""
  | S k' => String "/" (slashes k')
  end.

(** [s] ends with [p] *)
Definition suffix_of (p s : string) : Prop := exists a, s = a ++ p.

(** ** An engine and translators to run the model on

    A serializer for documents whose strings hold no control characters,
    a parser that recognises the serializations of a given list of
    documents and rejects every other text, and translators that relay
    what they are given; used to evaluate the definitions on examples. *)

Module Sample.
Import JS.

Definition dq : string := String (ascii_of_nat 34) "".

Fixpoint escape (s : string) : string :=
  match s with
  | "" => ""
  | String c r =>
      (if ((nat_of_ascii c =? 34) || (nat_of_ascii c =? 92))%nat
       then String (ascii_of_nat 92) (String c "")
       else String c "") ++ escape r
  end.

Definition decimalZ (n : Z) : string := NilEmpty.string_of_int (Z.to_int n).

Fixpoint stringify (v : value) : string :=
  match v with
  | Undefined | Null => "null"
  | Bool true => "true"
  | Bool false => "false"
  | Num n => decimalZ n
  | Str s => dq ++ escape s ++ dq
  | Arr l => "[" ++ String.concat "," (List.map stringify l) ++ "]"
  | Obj ps =>
      "{" ++ String.concat ","
        ((fix props (l : list (string * value)) : list string :=
            match l with
            | [] => []
            | (k, Undefined) :: r => props r
            | (k, x) :: r => (dq ++ escape k ++ dq ++ ":" ++ stringify x) :: props r
            end) ps) ++ "}"
  end.

Definition parse_among (docs : list value) (s : string) : result value :=
  match find (fun d => (stringify d =? s)%string) docs with
  | Some d => Val d
  | None => Throw (Error "Unexpected token")
  end.

Definition engine (docs : list value) : Engine :=
  {| JSON_parse := parse_among docs;
     JSON_stringify := stringify;
     numberToString := decimalZ;
     typeErrorMessage := fun site => "Cannot read properties (reading " ++ site ++ ")" |}.

(** A translator that writes what it reads and ends the response, or
    throws the error the body breaks off with *)
Definition relays (b : Body) (spoof : string) : stream_run :=
  {| written := yielded b;
     finished := match rejected b with Some _ => false | None => true end;
     failure := rejected b |}.

Definition translators : Translators :=
  {| translateRequest := fun req model =>
       Val [("model", Str model); ("stream", Bool true)];
     translateRequestToResponses := fun req model =>
       Val (Obj [("model", Str model)]);
     translateStream := relays;
     translateResponsesStream := relays |}.

Definition answer (code : Z) (chunks : list string) : Proxy.Response :=
  {| Proxy.status := code; Proxy.contentType := Some "application/json";
     Proxy.body := Some {| yielded := chunks; rejected := None |} |}.

(** An answer whose body breaks off after the given chunks *)
Definition cut_off (code : Z) (chunks : list string) : Proxy.Response :=
  {| Proxy.status := code; Proxy.contentType := Some "application/json";
     Proxy.body := Some {| yielded := chunks;
                           rejected := Some (Error "terminated") |} |}.

(** An upstream that gives the listed answers in turn, then fails *)
Definition world (answers : list Proxy.Response) : Proxy.World :=
  {| Proxy.reply := fun i =>
       match nth_error answers i with
       | Some r => Val r
       | None => Throw (Error "fetch failed")
       end;
     Proxy.now := 1700000000000 |}.

Fixpoint replicate (n : nat) (c : ascii) : string :=
  match n with
  | O => ""
  | S n' => String c (replicate n' c)
  end.


(** A count_tokens request whose messages serialize to 400 characters *)
Definition counted : value :=
  Obj [("model", Str "claude-haiku");
       ("messages", Arr [Str (replicate 396 "a")])].

(** A request that asks for a buffered answer *)
Definition buffered : value :=
  Obj [("model", Str "claude-sonnet");
       ("system", Str "You are a helpful assistant.");
       ("messages", Arr [Obj [("role", Str "user"); ("content", Str "hello")]]);
       ("stream", Bool false)].

(** What the handler passes to [identify] for a teammate request with
    twelve tools, [count] messages and the system text [text] *)
Definition teammate_info (count : Z) (text : string) : Logger.info :=
  {| Logger.toolCount := Num 12; Logger.msgCount := count;
     Logger.isTeammate := true; Logger.systemText := text |}.

Definition config (provider : string) (matchers : list string) : ProxyConfig :=
  {| targetProvider := provider; targetModel := "gpt-x";
     spoofModel := "claude-sonnet"; port := 3456; targetUrl := None;
     passthroughModels := matchers; leadBaseUrl := None;
     openaiApiKey := Some "sk"; chatgptAccessToken := None;
     chatgptAccountId := None |}.

(** A lead request: the marker stands in its system text *)
Definition leading : value :=
  Obj [("model", Str "claude-opus-4");
       ("system", Str "You lead. hydra:lead");
       ("messages", Arr [Obj [("role", Str "user"); ("content", Str "hello")]])].

(** A request that does not say [stream: false] *)
Definition streamed : value :=
  Obj [("model", Str "claude-sonnet");
       ("system", Str "You are a helpful assistant.");
       ("messages", Arr [Obj [("role", Str "user"); ("content", Str "hello")]])].

(** A teammate's request without tools *)
Definition idle_teammate : Logger.info :=
  {| Logger.toolCount := Num 0; Logger.msgCount := 1;
     Logger.isTeammate := true; Logger.systemText := "" |}.

(** A request whose model cannot be printed *)
Definition opaque : value :=
  Obj [("model", Obj [("toString", Num 1)]); ("messages", Arr [])].


(** A count_tokens request whose model is a number and whose messages
    serialize to 400 characters *)
Definition miscounted : value :=
  Obj [("model", Num 5);
       ("messages", Arr [Str (replicate 396 "a")])].

(** A request whose model cannot be printed and whose system prompt
    holds a null block *)
Definition unreadable : value :=
  Obj [("model", Obj [("toString", Num 1)]); ("system", Arr [Null])].

End Sample.

(* ================================================================== *)
(** ** Strings *)

Section Strings.

Lemma prefix_iff (p s : string) : String.prefix p s = true <-> prefix_of p s.
Proof.
  revert s; induction p as [|a p IH]; intros s.
  - destruct s; simpl; split; intros _; try reflexivity; eexists; reflexivity.
  - destruct s as [|b s]; simpl.
    + split; [discriminate|]. intros [r Hr]. discriminate.
    + destruct (Ascii.ascii_dec a b) as [->|Hne].
      * rewrite IH. split; intros [r Hr].
        -- exists r. simpl. now rewrite Hr.
        -- exists r. simpl in Hr. now inversion Hr.
      * split; [discriminate|]. intros [r Hr]. simpl in Hr.
        injection Hr as Hab _. symmetry in Hab. contradiction.
Qed.

Lemma includes_unfold (s m : string) :
  JS.includes s m =
  if String.prefix m s then true
  else match s with
       | "" => false
       | String _ r => JS.includes r m
       end.
Proof. destruct s; reflexivity. Qed.

Lemma includes_iff (s m : string) : JS.includes s m = true <-> occurs_in m s.
Proof.
  induction s as [|c s IH]; rewrite includes_unfold.
  - destruct (String.prefix m "") eqn:Hp.
    + split; [intros _|reflexivity].
      apply prefix_iff in Hp. destruct Hp as [r Hr]. exists "", r. exact Hr.
    + split; [discriminate|]. intros [a [b Hab]].
      destruct a; [|discriminate]. simpl in Hab.
      assert (String.prefix m "" = true) by (apply prefix_iff; now exists b).
      congruence.
  - destruct (String.prefix m (String c s)) eqn:Hp.
    + split; [intros _|reflexivity].
      apply prefix_iff in Hp. destruct Hp as [r Hr]. exists "", r. exact Hr.
    + rewrite IH. split.
      * intros [a [b Hab]]. exists (String c a), b. simpl. now rewrite Hab.
      * intros [a [b Hab]]. destruct a as [|c' a].
        -- simpl in Hab.
           assert (String.prefix m (String c s) = true)
             by (apply prefix_iff; now exists b).
           congruence.
        -- simpl in Hab. inversion Hab. now exists a, b.
Qed.

Lemma list_includes_iff (l : list string) (m : string) :
  JS.list_includes l (JS.Str m) = true <-> In m l.
Proof.
  simpl. rewrite existsb_exists. split.
  - intros [x [Hin Heq]]. apply String.eqb_eq in Heq. now subst.
  - intros Hin. exists m. split; [assumption|apply String.eqb_refl].
Qed.

End Strings.

(* ================================================================== *)
(** ** The classifier *)

Section Classifier.
Import JS Proxy.

Lemma startsWith_iff (s p : string) : startsWith s p = true <-> prefix_of p s.
Proof. unfold startsWith. apply prefix_iff. Qed.

(** C4.  On a model name, a list of matchers and an optional search
    text, [shouldPassthrough] returns a decision [b] without throwing,
    and: with no matcher the decision is translate; with the star matcher
    it is passthrough exactly when the model name starts with claude-;
    without the star but with the lead matcher, exactly when the search
    text is given and contains the lead marker; with neither, exactly
    when the model name is one of the matchers. *)
Theorem shouldPassthrough_decides
  (model : string) (matchers : list string) (searchText : option string) :
  exists b : bool,
    shouldPassthrough (Str model) matchers (search_arg searchText) = Val b
    /\ (matchers = [] -> b = false)
    /\ (In "*" matchers -> (b = true <-> prefix_of "claude-" model))
    /\ (~ In "*" matchers -> In "lead" matchers ->
        (b = true <->
         exists s, searchText = Some s /\ occurs_in LEAD_MARKER s))
    /\ (~ In "*" matchers -> ~ In "lead" matchers ->
        (b = true <-> In model matchers)).
Proof.
  unfold shouldPassthrough.
  destruct matchers as [|m0 ms].
  - exists false. simpl.
    split; [reflexivity|split; [intros _; reflexivity|split; [|split]]].
    + intros H; contradiction.
    + intros _ H; contradiction.
    + intros _ _. split; [discriminate|intros H; contradiction].
  - set (matchers := m0 :: ms).
    assert (Hlen : (Z.of_nat (List.length matchers) =? 0) = false)
      by (apply Z.eqb_neq; subst matchers; simpl List.length; lia).
    assert (Hne : matchers <> []) by (subst matchers; discriminate).
    rewrite Hlen.
    destruct (list_includes matchers (Str "*")) eqn:Hstar.
    + apply list_includes_iff in Hstar.
      exists (startsWith model "claude-").
      split; [reflexivity|split; [|split; [|split]]].
      * intros; contradiction.
      * intros _. apply startsWith_iff.
      * intros; contradiction.
      * intros; contradiction.
    + assert (Hnostar : ~ In "*" matchers).
      { intros Hin. apply list_includes_iff in Hin. congruence. }
      destruct (list_includes matchers (Str "lead")) eqn:Hlead.
      * apply list_includes_iff in Hlead.
        destruct searchText as [s|]; simpl search_arg; simpl truthy.
        -- destruct (s =? "")%string eqn:Hs; simpl negb; cbv iota.
           ++ apply String.eqb_eq in Hs. subst s.
              exists false.
              split; [reflexivity|split; [|split; [|split]]];
                try (intros; contradiction).
              intros _ _. split; [discriminate|].
              intros [s [Hs Hocc]]. injection Hs as <-.
              apply includes_iff in Hocc. discriminate.
           ++ exists (includes s LEAD_MARKER). simpl call_includes.
              split; [reflexivity|split; [|split; [|split]]];
                try (intros; contradiction).
              intros _ _. split.
              ** intros H. exists s. split; [reflexivity|].
                 now apply includes_iff.
              ** intros [s' [Hs' Hocc]]. injection Hs' as <-.
                 now apply includes_iff.
        -- exists false.
           split; [reflexivity|split; [|split; [|split]]];
             try (intros; contradiction).
           intros _ _. split; [discriminate|].
           intros [s [Hs _]]. discriminate.
      * assert (Hnolead : ~ In "lead" matchers).
        { intros Hin. apply list_includes_iff in Hin. congruence. }
        exists (list_includes matchers (Str model)).
        split; [reflexivity|split; [|split; [|split]]];
          try (intros; contradiction).
        intros _ _. apply list_includes_iff.
Qed.

End Classifier.

(* ================================================================== *)
(** ** Routing of the two endpoints *)

Section Routing.
Import JS Proxy.
Context {E : Engine}.

Lemma get_total (v : value) (p : string) (x : value) :
  get v p = Val x -> forall q, exists y, get v q = Val y.
Proof.
  destruct v; simpl; intros H q; try discriminate; eexists; reflexivity.
Qed.

Lemma route_teammate (config : ProxyConfig) (req : value) (d : Routing) :
  route config req = Val d ->
  isTeammate d = true -> isPassthrough d = false.
Proof.
  unfold route. intros H.
  repeat match type of H with
  | rbind ?r _ = Val _ =>
      let e := fresh "e" in destruct r eqn:e; simpl rbind in H;
      [|discriminate]
  end.
  injection H as <-. simpl. intros Ht. rewrite Ht in e6.
  now injection e6 as <-.
Qed.

(** At line 213 [messages] is an array or falsy, so [msgCount] is a
    number. *)
Lemma route_msgCount (config : ProxyConfig) (req : value) (d : Routing) :
  route config req = Val d -> exists n, msgCount d = Num n.
Proof.
  unfold route. intros H.
  repeat match type of H with
  | rbind ?r _ = Val _ =>
      let e := fresh "e" in destruct r eqn:e; simpl rbind in H;
      [|discriminate]
  end.
  injection H as <-. simpl msgCount.
  match goal with
  | Hm : firstMessagesText ?m = Val _ |- _ =>
      revert Hm; unfold firstMessagesText, or_else;
      destruct m as [| |[]|n|s|l|o]; simpl; try discriminate
  end.
  - now exists 0.
  - now exists 0.
  - now exists 0.
  - destruct (n =? 0); simpl; [now exists 0|discriminate].
  - destruct (s =? "")%string eqn:Hs; simpl; [|discriminate].
    apply String.eqb_eq in Hs. subst. now exists 0.
  - destruct (Z.of_nat (List.length l) =? 0); simpl; eexists; reflexivity.
Qed.

(** C1.  A request to the main endpoint whose system text contains the
    teammate phrase (in any letter case) is never routed to passthrough,
    whatever the matchers and whether or not the lead marker occurs in
    the search text: every routing decision reached for it is translate,
    and one is reached as soon as the text of its first three messages
    can be read. *)
Theorem teammate_always_translates
  (config : ProxyConfig) (req system : value) (sys : string) :
  get req "system" = Val system ->
  extractSystemText system = Val sys ->
  occurs_in TEAMMATE_MARKER (toLowerCase sys) ->
  (forall d, route config req = Val d ->
     isTeammate d = true /\ isPassthrough d = false)
  /\ (forall msgs t,
        get req "messages" = Val msgs ->
        firstMessagesText msgs = Val t ->
        exists d, route config req = Val d
                  /\ fullText d = sys ++ " " ++ t
                  /\ isPassthrough d = false).
Proof.
  intros Hsys Hext Hocc.
  apply includes_iff in Hocc.
  destruct (get_total _ _ _ Hsys "model") as [model Hmodel].
  destruct (get_total _ _ _ Hsys "messages") as [msgs Hmsgs].
  destruct (get_total _ _ _ Hsys "stream") as [stream Hstream].
  destruct (get_total _ _ _ Hsys "tools") as [tools Htools].
  split.
  - intros d Hd.
    assert (Ht : isTeammate d = true).
    { revert Hd. unfold route.
      rewrite Hmodel, Hsys; simpl rbind. rewrite Hext, Hmsgs; simpl rbind.
      destruct (firstMessagesText msgs); simpl rbind; [|discriminate].
      rewrite Hstream, Htools, Hocc; simpl rbind.
      intros H. injection H as <-. reflexivity. }
    split; [exact Ht|]. eapply route_teammate; eassumption.
  - intros msgs' t Hm Ht. rewrite Hmsgs in Hm. injection Hm as <-.
    unfold route.
    rewrite Hmodel, Hsys; simpl rbind. rewrite Hext, Hmsgs; simpl rbind.
    rewrite Ht; simpl rbind. rewrite Hstream, Htools, Hocc; simpl rbind.
    eexists. split; [reflexivity|]. split; reflexivity.
Qed.

(** C3.  The count_tokens endpoint does not route as the main endpoint
    does.  With the lead matcher configured: a lead request whose system
    prompt is a list of text blocks holding the marker is relayed by the
    main endpoint and counted locally by count_tokens; so is one whose
    marker sits in its first message; and a teammate request whose system
    string also holds the marker is translated by the main endpoint and
    relayed by count_tokens. *)
Theorem count_tokens_routes_differently :
  let config := Sample.config "openai" ["lead"] in
  let blocks :=
    Obj [("model", Str "claude-opus-4");
         ("system", Arr [Obj [("type", Str "text");
                              ("text", Str "You lead. hydra:lead")]]);
         ("messages", Arr [Obj [("role", Str "user");
                                ("content", Str "hello")]])] in
  let inMessage :=
    Obj [("model", Str "claude-opus-4");
         ("system", Str "You lead.");
         ("messages", Arr [Obj [("role", Str "user");
                                ("content", Str "hydra:lead hello")]])] in
  let teammate :=
    Obj [("model", Str "claude-opus-4");
         ("system",
          Str "hydra:lead The user interacts primarily with the team lead.");
         ("messages", Arr [Obj [("role", Str "user");
                                ("content", Str "hello")]])] in
  (mainPassthrough config blocks = Val true
   /\ countTokensPassthrough config blocks = Val false)
  /\ (mainPassthrough config inMessage = Val true
      /\ countTokensPassthrough config inMessage = Val false)
  /\ (mainPassthrough config teammate = Val false
      /\ countTokensPassthrough config teammate = Val true).
Proof. repeat split; vm_compute; reflexivity. Qed.

End Routing.

Section RoutingWitness.
Import JS Proxy.

Lemma teammate_always_translates_witness :
  let sys := "hydra:lead The user interacts primarily with the team lead." in
  let req :=
    Obj [("model", Str "claude-opus-4"); ("system", Str sys);
         ("messages", Arr [Obj [("role", Str "user");
                                ("content", Str "hydra:lead")]])] in
  let config := Sample.config "openai" ["lead"] in
  occurs_in TEAMMATE_MARKER (toLowerCase sys)
  /\ exists d, route (E := Sample.engine []) config req = Val d
               /\ fullText d = sys ++ " " ++ "hydra:lead"
               /\ isPassthrough d = false.
Proof.
  intros sys req config.
  assert (Hocc : occurs_in TEAMMATE_MARKER (toLowerCase sys))
    by (exists "hydra:lead ", "."; reflexivity).
  split; [exact Hocc|].
  exact (proj2 (teammate_always_translates (E := Sample.engine [])
                  config req (Str sys) sys eq_refl eq_refl Hocc)
           _ _ eq_refl eq_refl).
Defined.

End RoutingWitness.

(* ================================================================== *)
(** ** The retry loop *)

Section Retry.
Import JS Proxy.

Lemma advance_advance (s : state) e1 n1 e2 n2 :
  advance (advance s e1 n1) e2 n2 = advance s (e1 ++ e2) (n1 + n2).
Proof.
  unfold advance; simpl. f_equal; [now rewrite app_assoc|lia].
Qed.

Lemma advance_eq (s : state) e1 n1 e2 n2 :
  e1 = e2 -> n1 = n2 -> advance s e1 n1 = advance s e2 n2.
Proof. now intros -> ->. Qed.

Ltac same_advance :=
  rewrite ?advance_advance;
  apply (f_equal (pair _)); apply advance_eq; [try reflexivity|try lia].

Lemma fetch_run (W : World) url headers payload (s : state) :
  fetch W url headers payload s
  = (reply W (calls s), advance s [Fetch url headers payload] 1).
Proof. unfold fetch, advance. f_equal. f_equal. lia. Qed.

Lemma retryFrom_throw (doFetch : M Response) turns attempt upstream s e s1 :
  doFetch s = (Throw e, s1) ->
  retryFrom doFetch (S turns) attempt upstream s = (Throw e, s1).
Proof. intros H. simpl. unfold bind. now rewrite H. Qed.

Lemma retryFrom_break (doFetch : M Response) turns attempt upstream s r s1 :
  doFetch s = (Val r, s1) -> status r <> 429 ->
  retryFrom doFetch (S turns) attempt upstream s = (Val (Some r), s1).
Proof.
  intros H Hne. simpl. unfold bind. rewrite H.
  apply Z.eqb_neq in Hne. now rewrite Hne.
Qed.

Lemma retryFrom_wait (doFetch : M Response) turns attempt upstream s r s1 :
  doFetch s = (Val r, s1) -> status r = 429 -> attempt < MAX_RETRIES ->
  retryFrom doFetch (S turns) attempt upstream s
  = retryFrom doFetch turns (attempt + 1) (Some r)
      (advance s1 [LogRetry (attempt + 1) (waitMs attempt);
                   Wait (waitMs attempt)] 0).
Proof.
  intros H Hs Hlt. simpl. unfold bind at 1. rewrite H, Hs. simpl negb. cbv iota.
  apply Z.ltb_lt in Hlt. rewrite Hlt.
  unfold bind, emit. simpl. f_equal.
  unfold advance. simpl. f_equal; [now rewrite <- app_assoc|lia].
Qed.

Lemma retryFrom_last (doFetch : M Response) turns attempt upstream s r s1 :
  doFetch s = (Val r, s1) -> status r = 429 -> MAX_RETRIES <= attempt ->
  retryFrom doFetch (S turns) attempt upstream s
  = retryFrom doFetch turns (attempt + 1) (Some r) s1.
Proof.
  intros H Hs Hge. simpl. unfold bind at 1. rewrite H, Hs. simpl negb. cbv iota.
  apply Z.ltb_ge in Hge. rewrite Hge. reflexivity.
Qed.

Variable W : World.
Variables (url : string) (headers : list (string * string)) (payload : string).

Let post : event := Fetch url headers payload.
Let doFetch : M Response := fetch W url headers payload.

(** The loop stops at the first answer that is not a 429. *)
Lemma retryFrom_stops (k : nat) :
  forall turns attempt upstream s r,
    (k < turns)%nat -> 0 <= attempt -> attempt + Z.of_nat k <= MAX_RETRIES ->
    (forall i, (i < k)%nat -> rate_limited W (calls s + i)) ->
    reply W (calls s + k) = Val r -> status r <> 429 ->
    retryFrom doFetch turns attempt upstream s
    = (Val (Some r), advance s (backoff_events post attempt k) (k + 1)).
Proof.
  induction k as [|k IH]; intros turns attempt upstream s r Hk H0 Hle Hlim Hr Hne;
    (destruct turns as [|turns]; [lia|]).
  - rewrite Nat.add_0_r in Hr.
    apply retryFrom_break with (r := r); [|exact Hne].
    unfold doFetch. rewrite fetch_run, Hr. reflexivity.
  - destruct (Hlim 0%nat ltac:(lia)) as [r0 [Hr0 Hs0]].
    rewrite Nat.add_0_r in Hr0.
    rewrite retryFrom_wait with (r := r0) (s1 := advance s [post] 1);
      [| unfold doFetch; rewrite fetch_run, Hr0; reflexivity | exact Hs0 | lia].
    rewrite advance_advance.
    rewrite (IH turns (attempt + 1) (Some r0) _ r).
    + same_advance.
    + lia.
    + lia.
    + lia.
    + intros i Hi.
      match goal with
      | |- rate_limited W ?n =>
          replace n with (calls s + S i)%nat by (simpl; lia)
      end.
      apply Hlim. lia.
    + match goal with
      | |- reply W ?n = _ =>
          replace n with (calls s + S k)%nat by (simpl; lia)
      end.
      exact Hr.
    + exact Hne.
Qed.

(** When every answer is a 429 the loop runs out of turns, without a
    wait after the last one. *)
Lemma retryFrom_exhausts (k : nat) :
  forall attempt upstream s,
    0 <= attempt -> attempt + Z.of_nat k = MAX_RETRIES ->
    (forall i, (i <= k)%nat -> rate_limited W (calls s + i)) ->
    exists r,
      reply W (calls s + k) = Val r /\ status r = 429
      /\ retryFrom doFetch (S k) attempt upstream s
         = (Val (Some r), advance s (backoff_events post attempt k) (k + 1)).
Proof.
  induction k as [|k IH]; intros attempt upstream s H0 Hle Hlim;
    destruct (Hlim 0%nat ltac:(lia)) as [r0 [Hr0 Hs0]];
    rewrite Nat.add_0_r in Hr0.
  - exists r0. rewrite Nat.add_0_r. split; [exact Hr0|]. split; [exact Hs0|].
    rewrite retryFrom_last with (r := r0) (s1 := advance s [post] 1);
      [ simpl retryFrom; unfold ret; same_advance
      | unfold doFetch; rewrite fetch_run, Hr0; reflexivity
      | exact Hs0 | lia].
  - rewrite retryFrom_wait with (r := r0) (s1 := advance s [post] 1);
      [| unfold doFetch; rewrite fetch_run, Hr0; reflexivity | exact Hs0 | lia].
    rewrite advance_advance.
    destruct (IH (attempt + 1) (Some r0)
                (advance s ([post] ++ [LogRetry (attempt + 1) (waitMs attempt);
                                       Wait (waitMs attempt)]) (1 + 0)))
      as [r [Hr [Hs Hrun]]].
    + lia.
    + lia.
    + intros i Hi.
      match goal with
      | |- rate_limited W ?n =>
          replace n with (calls s + S i)%nat by (simpl; lia)
      end.
      apply Hlim. lia.
    + exists r.
      match type of Hr with
      | reply W ?n = _ =>
          replace n with (calls s + S k)%nat in Hr by (simpl; lia)
      end.
      split; [exact Hr|]. split; [exact Hs|].
      rewrite Hrun. same_advance.
Qed.

Lemma backoff_posts (k : nat) (attempt : Z) :
  posts (backoff_events post attempt k) = S k.
Proof.
  revert attempt. induction k as [|k IH]; intros attempt; [reflexivity|].
  unfold posts in *. simpl. now rewrite IH.
Qed.

Lemma backoff_delays (k : nat) (a : nat) :
  delays (backoff_events post (Z.of_nat a) k)
  = List.map (fun i => Z.min (1000 * 2 ^ Z.of_nat i) 10000) (seq a k).
Proof.
  revert a. induction k as [|k IH]; intros a; [reflexivity|].
  simpl. f_equal.
  replace (Z.of_nat a + 1) with (Z.of_nat (S a)) by lia. apply IH.
Qed.

(** The loop run on a POST: if the first [k <= 5] answers are 429 and
    the next is not, it returns that answer after [k + 1] calls; if all
    six are 429 it returns the sixth. *)
Lemma retry_run (s : state) :
  (forall k r,
     (k <= 5)%nat ->
     (forall i, (i < k)%nat -> rate_limited W (calls s + i)) ->
     reply W (calls s + k) = Val r -> status r <> 429 ->
     retry doFetch s
     = (Val (Some r), advance s (backoff_events post 0 k) (k + 1))
     /\ posts (backoff_events post 0 k) = S k
     /\ delays (backoff_events post 0 k)
        = List.map (fun i => Z.min (1000 * 2 ^ Z.of_nat i) 10000) (seq 0 k))
  /\ ((forall i, (i <= 5)%nat -> rate_limited W (calls s + i)) ->
      exists r,
        reply W (calls s + 5) = Val r /\ status r = 429
        /\ retry doFetch s
           = (Val (Some r), advance s (backoff_events post 0 5) 6)
        /\ posts (backoff_events post 0 5) = 6%nat
        /\ delays (backoff_events post 0 5)
           = [1000; 2000; 4000; 8000; 10000]).
Proof.
  split.
  - intros k r Hk Hlim Hr Hne. split; [|split].
    + unfold retry. apply retryFrom_stops; try assumption.
      * change (Z.to_nat (MAX_RETRIES + 1)) with 6%nat. lia.
      * lia.
      * unfold MAX_RETRIES. lia.
    + apply backoff_posts.
    + apply (backoff_delays k 0).
  - intros Hlim.
    destruct (retryFrom_exhausts 5 0 None s) as [r [Hr [Hs Hrun]]].
    + lia.
    + reflexivity.
    + exact Hlim.
    + exists r. repeat split; try assumption; reflexivity.
Qed.

(** Whatever the upstream answers, the loop ends after [k <= 5] answers
    429 and one more call, with the reply to that call or with the error
    the call rejects with. *)
Lemma retryFrom_shape (turns : nat) :
  forall attempt upstream s,
    0 <= attempt -> attempt + Z.of_nat turns = MAX_RETRIES ->
    exists k o, (k <= turns)%nat
      /\ retryFrom doFetch (S turns) attempt upstream s
         = (o, advance s (backoff_events post attempt k) (k + 1))
      /\ ((exists e, o = Throw e /\ reply W (calls s + k) = Throw e)
          \/ (exists r, o = Val (Some r) /\ reply W (calls s + k) = Val r)).
Proof.
  induction turns as [|turns IH]; intros attempt upstream s H0 Hsum;
    destruct (reply W (calls s)) as [r|e] eqn:Hr.
  - exists 0%nat. rewrite Nat.add_0_r.
    destruct (Z.eq_dec (status r) 429) as [Hs|Hs].
    + exists (Val (Some r)). split; [lia|]. split; [|right; now exists r].
      rewrite retryFrom_last with (r := r) (s1 := advance s [post] 1);
        [reflexivity|unfold doFetch; now rewrite fetch_run, Hr|exact Hs|lia].
    + exists (Val (Some r)). split; [lia|]. split; [|right; now exists r].
      rewrite retryFrom_break with (r := r) (s1 := advance s [post] 1);
        [reflexivity|unfold doFetch; now rewrite fetch_run, Hr|exact Hs].
  - exists 0%nat, (Throw e). rewrite Nat.add_0_r.
    split; [lia|]. split; [|left; now exists e].
    rewrite retryFrom_throw with (e := e) (s1 := advance s [post] 1);
      [reflexivity|unfold doFetch; now rewrite fetch_run, Hr].
  - destruct (Z.eq_dec (status r) 429) as [Hs|Hs].
    + rewrite retryFrom_wait with (r := r) (s1 := advance s [post] 1);
        [|unfold doFetch; now rewrite fetch_run, Hr|exact Hs|lia].
      destruct (IH (attempt + 1) (Some r)
                  (advance (advance s [post] 1)
                     [LogRetry (attempt + 1) (waitMs attempt);
                      Wait (waitMs attempt)] 0))
        as [k [o [Hk [Hrun Hout]]]]; [lia|lia|].
      exists (S k), o. split; [lia|]. split.
      * rewrite Hrun, !advance_advance. same_advance.
      * simpl calls in Hout.
        replace (calls s + 1 + 0 + k)%nat with (calls s + S k)%nat in Hout
          by lia.
        exact Hout.
    + exists 0%nat, (Val (Some r)). rewrite Nat.add_0_r.
      split; [lia|]. split; [|right; now exists r].
      rewrite retryFrom_break with (r := r) (s1 := advance s [post] 1);
        [reflexivity|unfold doFetch; now rewrite fetch_run, Hr|exact Hs].
  - exists 0%nat, (Throw e). rewrite Nat.add_0_r.
    split; [lia|]. split; [|left; now exists e].
    rewrite retryFrom_throw with (e := e) (s1 := advance s [post] 1);
      [reflexivity|unfold doFetch; now rewrite fetch_run, Hr].
Qed.

End Retry.

(* ================================================================== *)
(** ** Answers of the handler *)

Section Answers.
Import JS Conv Proxy.
Context {E : Engine} {T : Translators}.
Variable config : ProxyConfig.
Variable W : World.

Lemma bind_val {A B} (m : M A) (k : A -> M B) s a s1 :
  m s = (Val a, s1) -> bind m k s = k a s1.
Proof. intros H. unfold bind. now rewrite H. Qed.

Lemma bind_throw {A B} (m : M A) (k : A -> M B) s e s1 :
  m s = (Throw e, s1) -> bind m k s = (Throw e, s1).
Proof. intros H. unfold bind. now rewrite H. Qed.

Lemma lift_val {A B} (r : result A) (k : A -> M B) (a : A) (s : state) :
  r = Val a -> bind (lift r) k s = k a s.
Proof. intros ->. reflexivity. Qed.

Lemma lift_throw {A B} (r : result A) (k : A -> M B) (e : exn) (s : state) :
  r = Throw e -> bind (lift r) k s = (Throw e, s).
Proof. intros ->. reflexivity. Qed.

Lemma sendJson_blank (code : Z) (v : value) (s : state) :
  res s = blank ->
  sendJson code v s
  = (Val tt, with_res (fun _ => json_answer code v) s).
Proof.
  intros H. unfold sendJson, bind, writeHead, end_, with_res. rewrite H.
  simpl. reflexivity.
Qed.

Lemma json_answer_reply (code : Z) (v : value) :
  json_answer code v = json_reply code v.
Proof. reflexivity. Qed.

Lemma emit_run (e : event) (s : state) :
  emit e s = (Val tt, advance s [e] 0).
Proof. unfold emit, advance. f_equal. f_equal. lia. Qed.

Lemma advance_nil (s : state) : advance s [] 0 = s.
Proof.
  destruct s. unfold advance. simpl. now rewrite app_nil_r, Nat.add_0_r.
Qed.

Lemma read_res_bind {B} (k : ServerResponse -> M B) (s : state) :
  bind read_res k s = k (res s) s.
Proof. reflexivity. Qed.

Lemma res_advance (s : state) evs n : res (advance s evs n) = res s.
Proof. reflexivity. Qed.

Lemma get_get_opt (v : value) (p : string) (x : value) :
  get v p = Val x -> get_opt v p = x.
Proof. destruct v; simpl; intros H; try discriminate; now injection H. Qed.

Lemma get_of_opt (v : value) (p q : string) (x : value) :
  get v p = Val x -> get v q = Val (get_opt v q).
Proof. destruct v; simpl; intros H; try discriminate; reflexivity. Qed.

(** *** Printing values in log lines *)

Lemma to_str_cases (v : value) :
  (exists t, to_str v = Val t) \/ (exists e, to_str v = Throw e).
Proof. destruct (to_str v) as [t|e]; [left; now exists t|right; now exists e]. Qed.

Lemma printable_unknown (m : value) :
  printable m -> printable (or_else m (Str "unknown")).
Proof.
  intros H. unfold or_else. destruct (truthy m); [exact H|].
  now exists "unknown".
Qed.

(** What cannot be printed is truthy. *)
Lemma unprintable_truthy (m : value) (e : exn) :
  to_str m = Throw e -> or_else m (Str "unknown") = m.
Proof.
  unfold or_else.
  destruct m as [| |[]|n|s|l|o]; simpl; try discriminate; reflexivity.
Qed.

Lemma printable_Num (n : Z) : printable (Num n).
Proof. now exists (numberToString n). Qed.

Lemma logError_run (model : value) (s : state) :
  printable model -> logError model s = (Val tt, advance s [LogError] 0).
Proof.
  intros [t Ht]. unfold logError. rewrite (lift_val _ _ t s Ht).
  apply emit_run.
Qed.

(** The request is counted and its line printed when its model, message
    count and tool count can be printed. *)
Lemma logRequest_run (p : bool) (model mc tc : value) (s : state) :
  printable model -> printable mc -> printable tc ->
  logRequest p model mc tc s
  = (Val tt,
     {| res := res s; events := (events s ++ [LogRequest p])%list;
        calls := calls s; logger := Logger.logRequest (logger s);
        session := session s; requestModel := requestModel s |}).
Proof.
  intros [t1 H1] [t2 H2] [t3 H3]. unfold logRequest.
  unfold bind at 1. unfold countRequest at 1.
  destruct p.
  - unfold bind at 1. rewrite (lift_val _ _ t1 _ H1). unfold ret at 1.
    rewrite (lift_val _ _ t2 _ H2), (lift_val _ _ t3 _ H3).
    unfold bind at 1, emit at 1.
    rewrite (lift_val _ _ t1 _ H1), (lift_val _ _ t2 _ H2),
      (lift_val _ _ t3 _ H3).
    reflexivity.
  - unfold bind at 1, ret at 1.
    rewrite (lift_val _ _ t2 _ H2), (lift_val _ _ t3 _ H3).
    unfold bind at 1, emit at 1.
    rewrite (lift_val _ _ t1 _ H1), (lift_val _ _ t2 _ H2),
      (lift_val _ _ t3 _ H3).
    reflexivity.
Qed.

(** A model that cannot be printed stops [logRequest], whatever the
    route: nothing is sent, and the variables of the handler are as they
    were. *)
Lemma logRequest_unprintable (p : bool) (model mc tc : value) (s : state)
  (e : exn) :
  to_str model = Throw e ->
  exists e' s1,
    logRequest p model mc tc s = (Throw e', s1)
    /\ res s1 = res s /\ session s1 = session s
    /\ requestModel s1 = requestModel s /\ calls s1 = calls s.
Proof.
  intros Hm. unfold logRequest.
  unfold bind at 1. unfold countRequest at 1.
  destruct p.
  - unfold bind at 1. rewrite (lift_throw _ _ e _ Hm).
    eexists _, _. split; [reflexivity|]. repeat split.
  - unfold bind at 1, ret at 1.
    destruct (to_str mc) as [t2|e2] eqn:H2.
    2:{ rewrite (lift_throw _ _ e2 _ eq_refl).
        eexists _, _. split; [reflexivity|]. repeat split. }
    rewrite (lift_val _ _ t2 _ eq_refl).
    destruct (to_str tc) as [t3|e3] eqn:H3.
    2:{ rewrite (lift_throw _ _ e3 _ eq_refl).
        eexists _, _. split; [reflexivity|]. repeat split. }
    rewrite (lift_val _ _ t3 _ eq_refl).
    unfold bind at 1, emit at 1.
    rewrite (lift_throw _ _ e _ Hm).
    eexists _, _. split; [reflexivity|]. repeat split.
Qed.

(** Every way [logRequest] can end *)
Lemma logRequest_outcome (p : bool) (model mc tc : value) (s : state) :
  forall o s1, logRequest p model mc tc s = (o, s1) ->
    res s1 = res s /\ session s1 = session s
    /\ requestModel s1 = requestModel s /\ calls s1 = calls s
    /\ posts (events s1) = posts (events s)
    /\ (o = Val tt -> printable model).
Proof.
  intros o s1.
  destruct (to_str model) as [t1|e1] eqn:H1.
  - destruct (to_str mc) as [t2|e2] eqn:H2.
    + destruct (to_str tc) as [t3|e3] eqn:H3.
      * rewrite logRequest_run by (eexists; eassumption).
        intros H. injection H as <- <-. simpl.
        repeat split; try (eexists; eassumption).
        unfold posts. rewrite filter_app, length_app. simpl. lia.
      * unfold logRequest.
        unfold bind at 1. unfold countRequest at 1.
        assert (Hpre : forall s0 : state,
                  (if p then (_ <- lift (to_str model) ;; ret tt) else ret tt) s0
                  = (Val tt, s0)).
        { intros s0. destruct p; [rewrite (lift_val _ _ t1 _ H1)|]; reflexivity. }
        rewrite (bind_val _ _ _ tt _ (Hpre _)).
        rewrite (lift_val _ _ t2 _ H2), (lift_throw _ _ e3 _ H3).
        intros H. injection H as <- <-. simpl.
        repeat split. now exists t1.
    + unfold logRequest.
      unfold bind at 1. unfold countRequest at 1.
      assert (Hpre : forall s0 : state,
                (if p then (_ <- lift (to_str model) ;; ret tt) else ret tt) s0
                = (Val tt, s0)).
      { intros s0. destruct p; [rewrite (lift_val _ _ t1 _ H1)|]; reflexivity. }
      rewrite (bind_val _ _ _ tt _ (Hpre _)).
      rewrite (lift_throw _ _ e2 _ H2).
      intros H. injection H as <- <-. simpl.
      repeat split. now exists t1.
  - destruct (logRequest_unprintable p model mc tc s e1 H1)
      as [e' [s2 [Hrun [Hr [Hs [Hm Hc]]]]]].
    rewrite Hrun. intros H. injection H as <- <-.
    split; [exact Hr|]. split; [exact Hs|]. split; [exact Hm|].
    split; [exact Hc|]. split; [|discriminate].
    revert Hrun. unfold logRequest.
    unfold bind at 1. unfold countRequest at 1.
    destruct p.
    + unfold bind at 1. rewrite (lift_throw _ _ e1 _ H1).
      intros H. injection H as _ <-. reflexivity.
    + unfold bind at 1, ret at 1.
      destruct (to_str mc) as [t2|e2] eqn:H2.
      2:{ rewrite (lift_throw _ _ e2 _ eq_refl).
          intros H. injection H as _ <-. reflexivity. }
      rewrite (lift_val _ _ t2 _ eq_refl).
      destruct (to_str tc) as [t3|e3] eqn:H3.
      2:{ rewrite (lift_throw _ _ e3 _ eq_refl).
          intros H. injection H as _ <-. reflexivity. }
      rewrite (lift_val _ _ t3 _ eq_refl).
      unfold bind at 1, emit at 1.
      rewrite (lift_throw _ _ e1 _ H1).
      intros H. injection H as _ <-. simpl.
      unfold posts. rewrite filter_app, length_app. simpl. lia.
Qed.


(** *** Steps that make no call *)

Lemma posts_app (a b : list event) : posts (a ++ b) = (posts a + posts b)%nat.
Proof. unfold posts. now rewrite filter_app, List.length_app. Qed.

Lemma delays_app (a b : list event) : delays (a ++ b) = (delays a ++ delays b)%list.
Proof.
  induction a as [|e a IH]; [reflexivity|].
  destruct e; simpl; now rewrite ?IH.
Qed.

Lemma quiet_nil : quiet [].
Proof. split; reflexivity. Qed.

Lemma quiet_app (a b : list event) : quiet a -> quiet b -> quiet (a ++ b).
Proof.
  intros [Ha1 Ha2] [Hb1 Hb2]. split.
  - rewrite posts_app. lia.
  - now rewrite delays_app, Ha2, Hb2.
Qed.

Lemma quiet_LogError : quiet [LogError].
Proof. split; reflexivity. Qed.

Lemma quiet_ConsoleError : quiet [ConsoleError].
Proof. split; reflexivity. Qed.

Lemma follows_refl (s : state) : follows s s.
Proof.
  exists []. rewrite app_nil_r. repeat split.
Qed.

Lemma follows_trans (s s1 s2 : state) :
  follows s s1 -> follows s1 s2 -> follows s s2.
Proof.
  intros [a [Ha [Hqa [Hc1 [Hl1 [Hs1 Hm1]]]]]] [b [Hb [Hqb [Hc2 [Hl2 [Hs2 Hm2]]]]]].
  exists (a ++ b)%list. split; [now rewrite Hb, Ha, app_assoc|].
  split; [now apply quiet_app|].
  repeat split; congruence.
Qed.

Lemma follows_with_res (f : ServerResponse -> ServerResponse) (s : state) :
  follows s (with_res f s).
Proof.
  exists []. simpl. rewrite app_nil_r. repeat split.
Qed.

Lemma follows_advance (s : state) (evs : list event) :
  quiet evs -> follows s (advance s evs 0).
Proof.
  intros H. exists evs. simpl. repeat split; try apply H. lia.
Qed.

Lemma Quiet_ret {A} (a : A) : Quiet (ret a).
Proof. intros s o s1 H. injection H as _ <-. apply follows_refl. Qed.

Lemma Quiet_lift {A} (r : result A) : Quiet (lift r).
Proof. intros s o s1 H. injection H as _ <-. apply follows_refl. Qed.

Lemma Quiet_bind {A B} (m : M A) (k : A -> M B) :
  Quiet m -> (forall a, Quiet (k a)) -> Quiet (bind m k).
Proof.
  intros Hm Hk s o s2. unfold bind.
  destruct (m s) as [[a|e] s1] eqn:Hrun; intros H.
  - apply follows_trans with s1; [apply (Hm _ _ _ Hrun)|apply (Hk a _ _ _ H)].
  - injection H as _ <-. apply (Hm _ _ _ Hrun).
Qed.

Lemma Quiet_try_catch (m : M unit) (h : exn -> M unit) :
  Quiet m -> (forall e, Quiet (h e)) -> Quiet (try_catch m h).
Proof.
  intros Hm Hh s o s2. unfold try_catch.
  destruct (m s) as [[a|e] s1] eqn:Hrun; intros H.
  - injection H as _ <-. apply (Hm _ _ _ Hrun).
  - apply follows_trans with s1; [apply (Hm _ _ _ Hrun)|apply (Hh e _ _ _ H)].
Qed.

Lemma Quiet_try_finally (m : M unit) (f : M unit) :
  Quiet m -> Quiet f -> Quiet (try_finally m f).
Proof.
  intros Hm Hf s o s2. unfold try_finally.
  destruct (m s) as [r s1] eqn:Hrun.
  destruct (f s1) as [[u|e] s3] eqn:Hfin; intros H.
  - injection H as _ <-.
    apply follows_trans with s1; [apply (Hm _ _ _ Hrun)|apply (Hf _ _ _ Hfin)].
  - injection H as _ <-.
    apply follows_trans with s1; [apply (Hm _ _ _ Hrun)|apply (Hf _ _ _ Hfin)].
Qed.

Lemma Quiet_emit (e : event) : quiet [e] -> Quiet (emit e).
Proof.
  intros Hq s o s1 H. rewrite emit_run in H. injection H as _ <-.
  now apply follows_advance.
Qed.

Lemma Quiet_read_res : Quiet read_res.
Proof. intros s o s1 H. injection H as _ <-. apply follows_refl. Qed.

Lemma Quiet_writeHead code headers : Quiet (writeHead code headers).
Proof.
  intros s o s1. unfold writeHead.
  destruct (head (res s)); intros H; injection H as _ <-;
    [apply follows_refl|apply follows_with_res].
Qed.

Lemma Quiet_write chunk : Quiet (write chunk).
Proof.
  intros s o s1 H. injection H as _ <-. apply follows_with_res.
Qed.

Lemma Quiet_end_ data : Quiet (end_ data).
Proof.
  intros s o s1 H. injection H as _ <-. apply follows_with_res.
Qed.

Lemma Quiet_safeEnd data : Quiet (safeEnd data).
Proof.
  unfold safeEnd. apply Quiet_bind; [apply Quiet_read_res|].
  intros r. destruct (writableEnded r); [apply Quiet_ret|apply Quiet_end_].
Qed.

Lemma Quiet_sendJson code v : Quiet (sendJson code v).
Proof.
  unfold sendJson. apply Quiet_bind; [apply Quiet_writeHead|].
  intros _. apply Quiet_end_.
Qed.

Lemma Quiet_write_all chunks : Quiet (write_all chunks).
Proof.
  induction chunks as [|c chunks IH]; simpl; [apply Quiet_ret|].
  apply Quiet_bind; [apply Quiet_write|intros _; exact IH].
Qed.

Lemma Quiet_logError model : Quiet (logError model).
Proof.
  unfold logError. apply Quiet_bind; [apply Quiet_lift|].
  intros _. apply Quiet_emit, quiet_LogError.
Qed.

Lemma Quiet_run_stream which (r : stream_run) : Quiet (run_stream which r).
Proof.
  unfold run_stream.
  apply Quiet_bind; [apply Quiet_emit; split; reflexivity|intros _].
  apply Quiet_bind; [apply Quiet_write_all|intros _].
  apply Quiet_bind;
    [destruct (finished r); [apply Quiet_end_|apply Quiet_ret]|intros _].
  destruct (failure r); [apply Quiet_lift|apply Quiet_ret].
Qed.

Lemma Quiet_respondChatGPT model upstream :
  Quiet (respondChatGPT config model upstream).
Proof.
  unfold respondChatGPT. destruct (failed upstream).
  - apply Quiet_bind; [apply Quiet_lift|intros t].
    apply Quiet_bind; [apply Quiet_logError|intros _]. apply Quiet_sendJson.
  - destruct upstream as [[st ct [b|]]|].
    + apply Quiet_bind; [apply Quiet_writeHead|intros _].
      apply Quiet_run_stream.
    + apply Quiet_bind; [apply Quiet_logError|intros _]. apply Quiet_sendJson.
    + apply Quiet_bind; [apply Quiet_logError|intros _]. apply Quiet_sendJson.
Qed.

Lemma Quiet_respondOpenAI model streaming upstream :
  Quiet (respondOpenAI config W model streaming upstream).
Proof.
  unfold respondOpenAI. destruct (failed upstream).
  - apply Quiet_bind; [apply Quiet_lift|intros t].
    apply Quiet_bind; [apply Quiet_logError|intros _]. apply Quiet_sendJson.
  - destruct upstream as [r|]; [|apply Quiet_ret].
    destruct (negb streaming).
    + apply Quiet_bind; [apply Quiet_lift|intros v].
      apply Quiet_bind; [apply Quiet_lift|intros m]. apply Quiet_sendJson.
    + destruct (body r) as [b|].
      * apply Quiet_bind; [apply Quiet_writeHead|intros _].
        apply Quiet_run_stream.
      * apply Quiet_bind; [apply Quiet_logError|intros _].
        apply Quiet_sendJson.
Qed.

Lemma Quiet_onError err : Quiet (onError err).
Proof.
  unfold onError.
  apply Quiet_bind; [intros s o s1 H; injection H as _ <-; apply follows_refl|].
  intros model. apply Quiet_bind; [apply Quiet_lift|intros _].
  apply Quiet_bind.
  { intros s o s1. destruct (session s); intros H;
      [apply (Quiet_emit LogError quiet_LogError _ _ _ H)
      |apply (Quiet_emit ConsoleError quiet_ConsoleError _ _ _ H)]. }
  intros _. apply Quiet_bind; [apply Quiet_read_res|intros r].
  destruct (writableEnded r); [apply Quiet_ret|].
  destruct (head r).
  - apply Quiet_safeEnd.
  - apply Quiet_bind; [apply Quiet_writeHead|intros _]. apply Quiet_safeEnd.
Qed.
(** *** The catch block *)

Lemma onError_unprintable (err : exn) (s : state) (e : exn) :
  to_str (requestModel s) = Throw e -> onError err s = (Throw e, s).
Proof.
  intros H. unfold onError. unfold bind at 1, read_requestModel at 1.
  now rewrite (lift_throw _ _ e s H).
Qed.

Lemma onError_logs (err : exn) (s : state) :
  printable (requestModel s) ->
  exists ev,
    (ev = LogError \/ ev = ConsoleError)
    /\ (forall x, session s = Some x -> ev = LogError)
    /\ (session s = None -> ev = ConsoleError)
    /\ onError err s
       = (r <- read_res ;;
          if writableEnded r then ret tt
          else
            match head r with
            | None =>
                writeHead 500 JSON_HEADERS ;;
                safeEnd (Some (JSON_stringify
                                 (errorBody "api_error" (message_of err))))
            | Some _ => safeEnd None
            end) (advance s [ev] 0).
Proof.
  intros [t Ht]. unfold onError. unfold bind at 1, read_requestModel at 1.
  rewrite (lift_val _ _ t s Ht).
  destruct (session s) as [x|] eqn:Hs.
  - exists LogError. split; [now left|]. split; [reflexivity|].
    split; [discriminate|].
    rewrite (bind_val _ _ s tt (advance s [LogError] 0))
      by (rewrite Hs; apply emit_run).
    reflexivity.
  - exists ConsoleError. split; [now right|]. split; [discriminate|].
    split; [reflexivity|].
    rewrite (bind_val _ _ s tt (advance s [ConsoleError] 0))
      by (rewrite Hs; apply emit_run).
    reflexivity.
Qed.

(** The answer of the catch block when nothing has been sent *)
Lemma onError_blank (err : exn) (s : state) :
  res s = blank -> printable (requestModel s) ->
  onError err s
  = (Val tt,
     with_res (fun _ =>
       json_reply 500
         (Obj [("type", Str "error");
               ("error", Obj [("type", Str "api_error");
                              ("message", Str (error_text err))])]))
       (advance s [match session s with
                   | Some _ => LogError
                   | None => ConsoleError
                   end] 0)).
Proof.
  intros Hres Hp.
  destruct (onError_logs err s Hp) as [ev [_ [Hsome [Hnone Hrun]]]].
  rewrite Hrun.
  assert (Hev : ev = match session s with
                     | Some _ => LogError
                     | None => ConsoleError
                     end).
  { destruct (session s) as [x|]; [now apply (Hsome x)|now apply Hnone]. }
  rewrite <- Hev.
  rewrite read_res_bind, res_advance, Hres. cbn [writableEnded head blank].
  unfold bind, writeHead, safeEnd, read_res, end_, with_res, bind.
  rewrite !res_advance, Hres. reflexivity.
Qed.

(** The catch block never throws once the model can be printed, and
    always leaves the response ended; headers already sent stay as they
    are, and it makes no call. *)
Lemma onError_total (err : exn) (s : state) :
  printable (requestModel s) ->
  exists s1,
    onError err s = (Val tt, s1)
    /\ (forall h, head (res s) = Some h -> head (res s1) = Some h)
    /\ (head (res s) = None -> writableEnded (res s) = false ->
        head (res s1) = Some (500, [("Content-Type", "application/json")]))
    /\ (writableEnded (res s) = false -> writableEnded (res s1) = true)
    /\ (writableEnded (res s) = true -> res s1 = res s)
    /\ (head (res s) <> None -> sent (res s1) = sent (res s))
    /\ follows s s1.
Proof.
  intros Hp.
  destruct (onError_logs err s Hp) as [ev [Hev [_ [_ Hrun]]]].
  rewrite Hrun. rewrite read_res_bind, res_advance.
  assert (Hq : quiet [ev]).
  { destruct Hev as [-> | ->]; split; reflexivity. }
  assert (Hfol : forall f, follows s (with_res f (advance s [ev] 0))).
  { intros f. apply follows_trans with (advance s [ev] 0);
      [now apply follows_advance|apply follows_with_res]. }
  destruct (writableEnded (res s)) eqn:Hw.
  - exists (advance s [ev] 0). split; [reflexivity|].
    split; [|split; [|split; [|split; [|split;
      [|now apply follows_advance]]]]];
      simpl; intros; try assumption; try discriminate; reflexivity.
  - destruct (head (res s)) as [h|] eqn:Hh.
    + unfold safeEnd, bind, read_res, end_. simpl. rewrite Hw.
      eexists. split; [reflexivity|].
      split; [|split; [|split; [|split; [|split; [|apply Hfol]]]]];
        simpl; rewrite ?Hw, ?Hh; simpl; intros; try assumption;
        try discriminate; reflexivity.
    + unfold bind at 1, writeHead at 1. rewrite res_advance, Hh.
      unfold safeEnd, bind, read_res, end_. simpl. rewrite Hw.
      eexists. split; [reflexivity|].
      split; [|split; [|split; [|split; [|split; [|apply Hfol]]]]];
        simpl; rewrite ?Hw; simpl; intros; try assumption;
        try discriminate; try reflexivity; congruence.
Qed.

(** *** The main endpoint up to its branches *)

Lemma route_reads_model (req : value) (d : Routing) :
  route config req = Val d -> get req "model" = Val (get_opt req "model").
Proof.
  unfold route.
  destruct (get req "model") as [m|e] eqn:Hm; cbn [rbind]; [|discriminate].
  intros _. f_equal. symmetry. now apply get_get_opt.
Qed.

Lemma messages_begun headers payload lg (req : value) :
  JSON_parse payload = Val req ->
  get req "model" = Val (get_opt req "model") ->
  messages config W headers payload (fresh lg)
  = try_catch
      (d <- lift (route config req) ;;
       identify {| Logger.toolCount := toolCount d;
                   Logger.msgCount := as_number (msgCount d);
                   Logger.isTeammate := isTeammate d;
                   Logger.systemText := systemText d |} ;;
       logRequest (isPassthrough d) (get_opt req "model") (msgCount d)
         (toolCount d) ;;
       branch_of config W headers payload req d)
      onError (noted lg req).
Proof.
  intros Hparse Hmodel. unfold messages, try_catch.
  rewrite (lift_val _ _ req (fresh lg) Hparse).
  rewrite (lift_val _ _ _ (fresh lg) Hmodel).
  unfold bind at 1, set_requestModel at 1. reflexivity.
Qed.

Lemma messages_identified headers payload lg (req : value) (d : Routing) :
  JSON_parse payload = Val req ->
  route config req = Val d ->
  messages config W headers payload (fresh lg)
  = try_catch
      (logRequest (isPassthrough d) (get_opt req "model") (msgCount d)
         (toolCount d) ;;
       branch_of config W headers payload req d)
      onError (identified lg req d).
Proof.
  intros Hparse Hroute.
  rewrite (messages_begun _ _ _ _ Hparse (route_reads_model _ _ Hroute)).
  unfold try_catch.
  rewrite (lift_val _ _ d _ Hroute).
  unfold bind at 1. unfold identify at 1. simpl logger.
  unfold identified.
  destruct (Logger.identify lg _) as [found lg1] eqn:Hid.
  reflexivity.
Qed.

Lemma messages_routed headers payload lg (req : value) (d : Routing) :
  JSON_parse payload = Val req ->
  route config req = Val d ->
  printable (get_opt req "model") -> printable (toolCount d) ->
  messages config W headers payload (fresh lg)
  = try_catch (branch_of config W headers payload req d) onError (routed lg req d).
Proof.
  intros Hparse Hroute Hm Ht.
  rewrite (messages_identified _ _ _ _ _ Hparse Hroute).
  unfold try_catch.
  destruct (route_msgCount config req d Hroute) as [n Hn].
  assert (Hmc : printable (msgCount d))
    by (rewrite Hn; apply printable_Num).
  rewrite (bind_val _ _ _ tt _
             (logRequest_run (isPassthrough d) _ _ _ (identified lg req d)
                Hm Hmc Ht)).
  reflexivity.
Qed.

Lemma printable_routed (lg : Logger.t) (req : value) (d : Routing) :
  printable (get_opt req "model") -> printable (requestModel (routed lg req d)).
Proof. intros H. simpl. now apply printable_unknown. Qed.

Lemma before_query_opt (u : string) :
  before_query (opt_or (Some u) "") = before_query u.
Proof.
  unfold opt_or. destruct (u =? "")%string eqn:H; [|reflexivity].
  apply String.eqb_eq in H. now subst.
Qed.

Lemma listener_count_tokens (u : string) headers payload :
  before_query u = "/v1/messages/count_tokens" ->
  listener config W "POST" (Some u) headers payload
  = countTokens config W headers payload.
Proof.
  intros H. unfold listener. rewrite before_query_opt, H. reflexivity.
Qed.

Lemma listener_messages (u : string) headers payload :
  before_query u = "/v1/messages" ->
  listener config W "POST" (Some u) headers payload
  = messages config W headers payload.
Proof.
  intros H. unfold listener. rewrite before_query_opt, H. reflexivity.
Qed.

(** C7.  A POST whose body [JSON.parse] rejects.  On count_tokens the
    answer is status 200 with the JSON body { input_tokens: 1000 }.  On
    the main endpoint it is status 500 with the JSON body
    { type: error, error: { type: api_error, message } }, the message
    being the parser's, and nothing else happens: no translator is
    called, no upstream call is made, the logger is untouched (the error
    goes to the console). *)
Theorem malformed_body
  (u1 u2 : string) (headers : list (string * string)) (payload : string)
  (lg : Logger.t) (e : exn) :
  JSON_parse payload = Throw e ->
  before_query u1 = "/v1/messages/count_tokens" ->
  before_query u2 = "/v1/messages" ->
  listener config W "POST" (Some u1) headers payload (fresh lg)
  = (Val tt,
     {| res :=
          {| head := Some (200, [("Content-Type", "application/json")]);
             sent := [JSON_stringify (Obj [("input_tokens", Num 1000)])];
             writableEnded := true |};
        events := []; calls := 0; logger := lg; session := None;
        requestModel := Str "unknown" |})
  /\ listener config W "POST" (Some u2) headers payload (fresh lg)
     = (Val tt,
        {| res :=
             {| head := Some (500, [("Content-Type", "application/json")]);
                sent :=
                  [JSON_stringify
                     (Obj [("type", Str "error");
                           ("error",
                            Obj [("type", Str "api_error");
                                 ("message",
                                  Str match e with
                                      | TypeError site => typeErrorMessage site
                                      | Error m => m
                                      | Thrown => "Internal proxy error"
                                      end)])])];
                writableEnded := true |};
           events := [ConsoleError]; calls := 0; logger := lg;
           session := None; requestModel := Str "unknown" |}).
Proof.
  intros Hparse H1 H2. split.
  - rewrite (listener_count_tokens _ _ _ H1).
    unfold countTokens, try_catch.
    rewrite (lift_throw _ _ e (fresh lg) Hparse).
    rewrite sendJson_blank by reflexivity. reflexivity.
  - rewrite (listener_messages _ _ _ H2).
    unfold messages, try_catch.
    rewrite (lift_throw _ _ e (fresh lg) Hparse).
    rewrite onError_blank; [reflexivity|reflexivity|now exists "unknown"].
Qed.

Lemma ceil_quarter_spec (n : Z) :
  4 * (ceil_quarter n - 1) < n <= 4 * ceil_quarter n.
Proof.
  unfold ceil_quarter.
  pose proof (Z.div_mod (- n) 4 ltac:(lia)) as Hd.
  pose proof (Z.mod_pos_bound (- n) 4 ltac:(lia)) as Hm.
  lia.
Qed.

(** C9, as amended.  A POST to count_tokens whose body parses.  When the
    routing guard of line 160 evaluates to false the request is
    answered, without any upstream call, with status 200 and
    { input_tokens: n }, where n is the ceiling of a quarter of the
    length of the serialized messages: 4 (n - 1) < length <= 4 n; what is
    serialized is the messages array itself, and the empty array when the
    field is absent; a length of 400 gives 100.  When evaluating the
    guard throws, the answer is status 200 with { input_tokens: 1000 },
    whatever the messages are. *)
Theorem count_tokens_estimate
  (u : string) (headers : list (string * string)) (payload : string)
  (lg : Logger.t) (parsed : value) :
  before_query u = "/v1/messages/count_tokens" ->
  JSON_parse payload = Val parsed ->
  (countTokensPassthrough config parsed = Val false ->
   exists msgs n,
     get parsed "messages" = Val msgs
     /\ listener config W "POST" (Some u) headers payload (fresh lg)
        = (Val tt,
           {| res :=
                {| head := Some (200, [("Content-Type", "application/json")]);
                   sent := [JSON_stringify (Obj [("input_tokens", Num n)])];
                   writableEnded := true |};
              events := []; calls := 0; logger := lg; session := None;
              requestModel := Str "unknown" |})
     /\ 4 * (n - 1) < strlen (JSON_stringify (or_else msgs (Arr [])))
                    <= 4 * n
     /\ (forall l, msgs = Arr l -> or_else msgs (Arr []) = Arr l)
     /\ (msgs = Undefined -> or_else msgs (Arr []) = Arr [])
     /\ (strlen (JSON_stringify (or_else msgs (Arr []))) = 400 -> n = 100))
  /\ (forall e,
        countTokensPassthrough config parsed = Throw e ->
        listener config W "POST" (Some u) headers payload (fresh lg)
        = (Val tt,
           {| res :=
                {| head := Some (200, [("Content-Type", "application/json")]);
                   sent := [JSON_stringify (Obj [("input_tokens", Num 1000)])];
                   writableEnded := true |};
              events := []; calls := 0; logger := lg; session := None;
              requestModel := Str "unknown" |})).
Proof.
  intros Hu Hparse. split.
  - intros Hpass.
    assert (Hmodel : exists m, get parsed "model" = Val m).
    { unfold countTokensPassthrough in Hpass.
      destruct (get parsed "model") as [m|]; [now exists m|discriminate]. }
    destruct Hmodel as [m Hm].
    destruct (get_total _ _ _ Hm "messages") as [msgs Hmsgs].
    exists msgs,
      (ceil_quarter (strlen (JSON_stringify (or_else msgs (Arr []))))).
    split; [exact Hmsgs|]. split; [|split; [|split; [|split]]].
    + rewrite (listener_count_tokens _ _ _ Hu).
      unfold countTokens, try_catch.
      rewrite (lift_val _ _ parsed (fresh lg) Hparse).
      rewrite (lift_val _ _ false (fresh lg) Hpass).
      cbv iota.
      rewrite (lift_val _ _ msgs (fresh lg) Hmsgs).
      rewrite sendJson_blank by reflexivity. reflexivity.
    + apply ceil_quarter_spec.
    + intros l ->. reflexivity.
    + intros ->. reflexivity.
    + intros ->. reflexivity.
  - intros e Hpass.
    rewrite (listener_count_tokens _ _ _ Hu).
    unfold countTokens, try_catch.
    rewrite (lift_val _ _ parsed (fresh lg) Hparse).
    rewrite (lift_throw _ _ e (fresh lg) Hpass).
    rewrite sendJson_blank by reflexivity. reflexivity.
Qed.


(** *** From the loop to the answer *)

Lemma errorType_cases (code : Z) :
  (code = 429 -> errorType code = "rate_limit_error")
  /\ (code = 401 -> errorType code = "authentication_error")
  /\ (500 <= code -> errorType code = "api_error")
  /\ (code <> 429 -> code <> 401 -> code < 500 ->
      errorType code = "invalid_request_error").
Proof.
  unfold errorType. repeat split.
  - intros ->. reflexivity.
  - intros ->. reflexivity.
  - intros H. destruct (code =? 429) eqn:H1; [apply Z.eqb_eq in H1; lia|].
    destruct (code =? 401) eqn:H2; [apply Z.eqb_eq in H2; lia|].
    destruct (500 <=? code) eqn:H3; [reflexivity|apply Z.leb_gt in H3; lia].
  - intros H1 H2 H3. apply Z.eqb_neq in H1, H2. rewrite H1, H2.
    destruct (500 <=? code) eqn:H4; [apply Z.leb_le in H4; lia|reflexivity].
Qed.


Lemma toolUses_none (message : value) :
  truthy (get_opt message "tool_calls") = false -> toolUses message = Val [].
Proof. intros H. unfold toolUses. now rewrite H. Qed.


Lemma not_ok_not_200 (r : Response) : ok r = false -> status r <> 200.
Proof. unfold ok. intros H Heq. rewrite Heq in H. discriminate. Qed.

Lemma ok_not_429 (r : Response) : ok r = true -> status r <> 429.
Proof. unfold ok. intros H Heq. rewrite Heq in H. discriminate. Qed.

Lemma provider_other :
  targetProvider config <> "chatgpt" ->
  (targetProvider config =? "chatgpt")%string = false.
Proof. apply String.eqb_neq. Qed.

Lemma final_answer_ends (r : Response) :
  final_answer W r -> exists k, ends_at W k r.
Proof.
  intros [[k H]|H]; [exists k; now left|exists 5%nat; right; now split].
Qed.

Lemma ends_at_bound (k : nat) (r : Response) : ends_at W k r -> (k <= 5)%nat.
Proof. intros [[H _]|[-> _]]; lia. Qed.

(** The text of an upstream body: its chunks put together, unless the
    transfer breaks off *)
Lemma text_cut (r : Response) :
  text r = match cut_short r with
           | Some e => Throw e
           | None => Val (String.concat "" (chunks_of r))
           end.
Proof.
  unfold text, cut_short, chunks_of.
  destruct (body r) as [b|]; [|reflexivity]. now destruct (rejected b).
Qed.

Lemma retry_ends url headers payload (k : nat) (r : Response) (s : state) :
  calls s = 0%nat -> ends_at W k r ->
  retry (fetch W url headers payload) s
  = (Val (Some r),
     advance s (backoff_events (Fetch url headers payload) 0 k) (k + 1)).
Proof.
  intros Hc Hend.
  destruct (retry_run W url headers payload s) as [Hstop Hall].
  destruct Hend as [[Hk [Hlim [Hr Hne]]]|[-> [Hlim Hr]]].
  - apply Hstop; try assumption.
    + intros i Hi. rewrite Hc. now apply Hlim.
    + now rewrite Hc.
  - destruct Hall as [r' [Hr' [_ [Hrun _]]]].
    + intros i Hi. rewrite Hc. now apply Hlim.
    + rewrite Hc in Hr'. simpl in Hr'. rewrite Hr in Hr'.
      injection Hr' as <-. exact Hrun.
Qed.

(** Whatever the upstream does, the loop makes between one and six calls
    and then hands on a reply or throws. *)
Lemma retry_outcome url headers payload (s : state) :
  exists k o, (k <= 5)%nat
    /\ retry (fetch W url headers payload) s
       = (o, advance s (backoff_events (Fetch url headers payload) 0 k) (k + 1))
    /\ ((exists e, o = Throw e) \/ (exists r, o = Val (Some r))).
Proof.
  destruct (retryFrom_shape W url headers payload 5 0 None s)
    as [k [o [Hk [Hrun Hout]]]]; [lia|reflexivity|].
  exists k, o. split; [exact Hk|]. split; [exact Hrun|].
  destruct Hout as [[e [He _]]|[r [Hr _]]]; [left; now exists e|right; now exists r].
Qed.

Lemma openai_post_eq (oreq : list (string * value)) (streaming : bool) :
  openai_post config oreq streaming
  = Fetch (opt_or (targetUrl config) DEFAULT_OPENAI_URL)
      (("Content-Type", "application/json")
       :: (if opt_truthy (openaiApiKey config)
           then [("Authorization", bearer (openaiApiKey config))] else []))
      (JSON_stringify
         (Obj (if negb streaming
               then obj_delete "stream_options"
                      (obj_set "stream" (Bool false) oreq)
               else oreq))).
Proof.
  unfold openai_post, opt_or, opt_truthy, bearer, obj_delete,
    DEFAULT_OPENAI_URL.
  destruct streaming; destruct (targetUrl config) as [u|];
    destruct (openaiApiKey config) as [k|];
    try destruct (u =? "")%string; try destruct (k =? "")%string;
    reflexivity.
Qed.

Lemma chatgpt_post_eq (rr : value) :
  chatgpt_post config rr
  = Fetch CHATGPT_API_URL
      [("Content-Type", "application/json");
       ("Authorization", bearer (chatgptAccessToken config));
       ("Chatgpt-Account-Id", opt_or (chatgptAccountId config) "");
       ("User-Agent", "codex-cli/1.0")]
      (JSON_stringify rr).
Proof.
  unfold chatgpt_post, opt_or, bearer, CHATGPT_API_URL.
  destruct (chatgptAccountId config) as [a|]; [|reflexivity].
  destruct (a =? "")%string eqn:Ha; [|reflexivity].
  apply String.eqb_eq in Ha. now subst.
Qed.

Lemma openaiBranch_run (req model : value) oreq (streaming : bool)
  (k : nat) (r : Response) (s : state) :
  calls s = 0%nat ->
  translateRequest req (targetModel config) = Val oreq ->
  ends_at W k r ->
  openaiBranch config W req model streaming s
  = respondOpenAI config W model streaming (Some r)
      (advance s
         (Translate ToChatCompletions
          :: backoff_events (openai_post config oreq streaming) 0 k) (k + 1)).
Proof.
  intros Hc Htr Hend. unfold openaiBranch. cbv zeta.
  rewrite (bind_val _ _ _ _ _ (emit_run _ _)).
  rewrite (lift_val _ _ oreq _ Htr).
  rewrite openai_post_eq.
  assert (Hc' : calls (advance s [Translate ToChatCompletions] 0) = 0%nat)
    by (simpl; lia).
  match goal with
  | |- context [retry (fetch W ?u ?h ?p)] =>
      rewrite (bind_val _ _ _ _ _
                 (retry_ends u h p k r
                    (advance s [Translate ToChatCompletions] 0) Hc' Hend))
  end.
  rewrite advance_advance. reflexivity.
Qed.

Lemma chatgptBranch_run (req model rr : value)
  (k : nat) (r : Response) (s : state) :
  calls s = 0%nat ->
  translateRequestToResponses req (targetModel config) = Val rr ->
  ends_at W k r ->
  chatgptBranch config W req model s
  = respondChatGPT config model (Some r)
      (advance s
         (Translate ToResponses
          :: backoff_events (chatgpt_post config rr) 0 k) (k + 1)).
Proof.
  intros Hc Htr Hend. unfold chatgptBranch.
  rewrite (bind_val _ _ _ _ _ (emit_run _ _)).
  rewrite (lift_val _ _ rr _ Htr).
  rewrite chatgpt_post_eq.
  assert (Hc' : calls (advance s [Translate ToResponses] 0) = 0%nat)
    by (simpl; lia).
  match goal with
  | |- context [retry (fetch W ?u ?h ?p)] =>
      rewrite (bind_val _ _ _ _ _
                 (retry_ends u h p k r
                    (advance s [Translate ToResponses] 0) Hc' Hend))
  end.
  rewrite advance_advance. reflexivity.
Qed.

(** The connection when the loop of the Chat Completions branch has
    ended after [k] answers 429 *)
Lemma openai_messages headers payload lg (req : value) (d : Routing)
  oreq (k : nat) (r : Response) :
  targetProvider config <> "chatgpt" ->
  JSON_parse payload = Val req ->
  route config req = Val d ->
  isPassthrough d = false ->
  printable (get_opt req "model") -> printable (toolCount d) ->
  translateRequest req (targetModel config) = Val oreq ->
  ends_at W k r ->
  messages config W headers payload (fresh lg)
  = try_catch
      (respondOpenAI config W (get_opt req "model") (isStreaming d) (Some r))
      onError
      (advance (routed lg req d)
         (Translate ToChatCompletions
          :: backoff_events (openai_post config oreq (isStreaming d)) 0 k)
         (k + 1)).
Proof.
  intros Hprov Hparse Hroute Hpass Hm Ht Htr Hend.
  rewrite (messages_routed _ _ _ _ _ Hparse Hroute Hm Ht).
  unfold branch_of. rewrite Hpass, (provider_other Hprov).
  unfold try_catch.
  now rewrite (openaiBranch_run req _ oreq (isStreaming d) k r
                 (routed lg req d) eq_refl Htr Hend).
Qed.

Lemma chatgpt_messages headers payload lg (req : value) (d : Routing)
  (rr : value) (k : nat) (r : Response) :
  targetProvider config = "chatgpt" ->
  JSON_parse payload = Val req ->
  route config req = Val d ->
  isPassthrough d = false ->
  printable (get_opt req "model") -> printable (toolCount d) ->
  translateRequestToResponses req (targetModel config) = Val rr ->
  ends_at W k r ->
  messages config W headers payload (fresh lg)
  = try_catch (respondChatGPT config (get_opt req "model") (Some r)) onError
      (advance (routed lg req d)
         (Translate ToResponses
          :: backoff_events (chatgpt_post config rr) 0 k) (k + 1)).
Proof.
  intros Hprov Hparse Hroute Hpass Hm Ht Htr Hend.
  rewrite (messages_routed _ _ _ _ _ Hparse Hroute Hm Ht).
  unfold branch_of. rewrite Hpass, Hprov. cbn [String.eqb Ascii.eqb Bool.eqb].
  unfold try_catch.
  now rewrite (chatgptBranch_run req _ rr k r (routed lg req d)
                 eq_refl Htr Hend).
Qed.

(** Lines 340-351: the answer to an upstream answer that is not ok *)
Lemma respondOpenAI_failed
  (model : value) (streaming : bool) (r : Response) (s : state) :
  res s = blank -> ok r = false -> status r <> 0 -> printable model ->
  respondOpenAI config W model streaming (Some r) s
  = match cut_short r with
    | Some e => (Throw e, s)
    | None =>
        (Val tt,
         with_res (fun _ =>
           json_reply (status r)
             (Obj [("type", Str "error");
                   ("error",
                    Obj [("type", Str (errorType (status r)));
                         ("message",
                          Str (String.concat "" (chunks_of r)))])]))
           (advance s [LogError] 0))
    end.
Proof.
  intros Hres Hok H0 Hp.
  unfold respondOpenAI, failed. rewrite Hok. cbn [negb].
  unfold errText_of. rewrite text_cut.
  destruct (cut_short r) as [e|].
  - now rewrite (lift_throw _ _ e s eq_refl).
  - rewrite (lift_val _ _ _ s eq_refl).
    rewrite (bind_val _ _ _ _ _ (logError_run model s Hp)).
    unfold status_or_500. apply Z.eqb_neq in H0. rewrite H0.
    rewrite sendJson_blank by (now rewrite res_advance).
    now rewrite json_answer_reply.
Qed.

Lemma respondChatGPT_failed (model : value) (r : Response) (s : state) :
  res s = blank -> ok r = false -> status r <> 0 -> printable model ->
  respondChatGPT config model (Some r) s
  = match cut_short r with
    | Some e => (Throw e, s)
    | None =>
        (Val tt,
         with_res (fun _ =>
           json_reply (status r)
             (Obj [("type", Str "error");
                   ("error",
                    Obj [("type", Str "api_error");
                         ("message",
                          Str (String.concat "" (chunks_of r)))])]))
           (advance s [LogError] 0))
    end.
Proof.
  intros Hres Hok H0 Hp.
  unfold respondChatGPT, failed. rewrite Hok. cbn [negb].
  unfold errText_of. rewrite text_cut.
  destruct (cut_short r) as [e|].
  - now rewrite (lift_throw _ _ e s eq_refl).
  - rewrite (lift_val _ _ _ s eq_refl).
    rewrite (bind_val _ _ _ _ _ (logError_run model s Hp)).
    unfold status_or_500. apply Z.eqb_neq in H0. rewrite H0.
    rewrite sendJson_blank by (now rewrite res_advance).
    now rewrite json_answer_reply.
Qed.

(** The catch block on a request that was routed, before anything is
    sent *)
Lemma onError_routed (err : exn) lg (req : value) (d : Routing) evs n :
  printable (get_opt req "model") ->
  onError err (advance (routed lg req d) evs n)
  = (Val tt,
     with_res (fun _ =>
       json_reply 500
         (Obj [("type", Str "error");
               ("error", Obj [("type", Str "api_error");
                              ("message", Str (error_text err))])]))
       (advance (routed lg req d) (evs ++ [LogError]) n)).
Proof.
  intros Hm.
  rewrite onError_blank;
    [|reflexivity|now apply printable_routed].
  rewrite advance_advance. cbn [session advance routed].
  now rewrite Nat.add_0_r.
Qed.

(** C5, as amended.  On the Chat Completions branch, for a request whose
    model and tool count can be printed in the log line: when the answer
    the retry
    loop ends with is not ok and its body can be read, the client
    receives that answer's status and the body
    { type: error, error: { type, message } }, where the message is the
    upstream text and the type is rate_limit_error for 429,
    authentication_error for 401, api_error from 500 up and
    invalid_request_error otherwise.  When reading the body of that
    answer fails, the client receives status 500 and an api_error whose
    message is that of the failure. *)
Theorem openai_error_envelope
  (headers : list (string * string)) (payload : string) (lg : Logger.t)
  (req : value) (d : Routing) oreq (r : Response) :
  targetProvider config <> "chatgpt" ->
  JSON_parse payload = Val req ->
  route config req = Val d ->
  isPassthrough d = false ->
  printable (get_opt req "model") -> printable (toolCount d) ->
  translateRequest req (targetModel config) = Val oreq ->
  final_answer W r -> ok r = false -> status r <> 0 ->
  exists kind s1,
    messages config W headers payload (fresh lg) = (Val tt, s1)
    /\ (cut_short r = None ->
        res s1
        = json_reply (status r)
            (Obj [("type", Str "error");
                  ("error",
                   Obj [("type", Str kind);
                        ("message",
                         Str (String.concat "" (chunks_of r)))])]))
    /\ (forall e, cut_short r = Some e ->
        res s1
        = json_reply 500
            (Obj [("type", Str "error");
                  ("error", Obj [("type", Str "api_error");
                                 ("message", Str (error_text e))])]))
    /\ (status r = 429 -> kind = "rate_limit_error")
    /\ (status r = 401 -> kind = "authentication_error")
    /\ (500 <= status r -> kind = "api_error")
    /\ (status r <> 429 -> status r <> 401 -> status r < 500 ->
        kind = "invalid_request_error").
Proof.
  intros Hprov Hparse Hroute Hpass Hm Ht Htr Hfinal Hok H0.
  destruct (final_answer_ends r Hfinal) as [k Hend].
  rewrite (openai_messages _ _ _ _ _ oreq k r Hprov Hparse Hroute Hpass Hm Ht
             Htr Hend).
  unfold try_catch.
  rewrite respondOpenAI_failed; [|reflexivity|exact Hok|exact H0|exact Hm].
  exists (errorType (status r)).
  destruct (cut_short r) as [e|] eqn:Hcut.
  - rewrite (onError_routed e lg req d _ _ Hm).
    eexists. split; [reflexivity|]. split; [discriminate|].
    split; [|apply errorType_cases].
    intros e' H. injection H as <-. reflexivity.
  - eexists. split; [reflexivity|]. split; [reflexivity|].
    split; [discriminate|apply errorType_cases].
Qed.




(** *** The event stream of the ChatGPT branch *)

Lemma write_all_run (chunks : list string) :
  forall s, writableEnded (res s) = false ->
    write_all chunks s
    = (Val tt, with_res (fun r => {| head := head r; sent := sent r ++ chunks;
                                     writableEnded := false |}) s).
Proof.
  induction chunks as [|c rest IH]; intros s Hs.
  - simpl. unfold ret, with_res. f_equal.
    destruct s as [[h st w] ev c lg se rm].
    simpl in *. subst. now rewrite app_nil_r.
  - simpl. unfold bind at 1. unfold write at 1. rewrite IH.
    + unfold with_res. simpl. rewrite Hs. simpl. now rewrite <- app_assoc.
    + unfold with_res. simpl. now rewrite Hs.
Qed.

(** What the stream translator leaves of a response whose head is
    written: the head stays, the chunks are what the translator wrote. *)
Lemma run_stream_head which (sr : stream_run) (s : state) h :
  head (res s) = Some h -> writableEnded (res s) = false ->
  forall o s1, run_stream which sr s = (o, s1) ->
    head (res s1) = Some h
    /\ sent (res s1) = (sent (res s) ++ written sr)%list.
Proof.
  intros Hh Hw o s1. unfold run_stream.
  rewrite (bind_val _ _ _ _ _ (emit_run _ _)).
  rewrite (bind_val _ _ _ _ _
             (write_all_run _ (advance s [Translate which] 0) Hw)).
  destruct sr as [wr fin fl]. simpl.
  destruct fin; destruct fl as [e|]; unfold bind, end_, ret, lift, with_res;
    simpl; rewrite ?Hh; intros H; injection H as <- <-; simpl;
    repeat split; reflexivity.
Qed.

Lemma respondChatGPT_stream
  (model : value) (r : Response) (b : Body) (s : state) :
  res s = blank -> ok r = true -> body r = Some b ->
  forall o s1, respondChatGPT config model (Some r) s = (o, s1) ->
    head (res s1) = Some (200, event_stream)
    /\ sent (res s1)
       = written (translateResponsesStream b (spoofModel config)).
Proof.
  intros Hres Hok Hbody o s1.
  unfold respondChatGPT, failed. rewrite Hok. cbn [negb].
  destruct r as [code ct b']. simpl in Hbody. subst b'.
  unfold bind at 1, writeHead at 1. rewrite Hres.
  cbn [head blank]. intros H.
  eapply run_stream_head in H;
    [| reflexivity | unfold with_res; simpl; now rewrite Hres].
  destruct H as [Hh Hsent]. split; [exact Hh|].
  rewrite Hsent. unfold with_res. simpl. now rewrite Hres.
Qed.

(** Every way the ChatGPT branch can answer an upstream reply, on a
    response nothing has been written to *)
Lemma respondChatGPT_outcome (model : value) (r : Response) (s : state) :
  res s = blank -> printable model ->
  forall o s1, respondChatGPT config model (Some r) s = (o, s1) ->
    (exists e, o = Throw e /\ res s1 = blank)
    \/ (exists code v, res s1 = json_reply code v /\ code <> 200)
    \/ head (res s1) = Some (200, event_stream).
Proof.
  intros Hres Hp o s1. unfold respondChatGPT, failed.
  destruct (ok r) eqn:Hok; cbn [negb].
  - destruct r as [code ct [b|]].
    + unfold bind at 1, writeHead at 1. rewrite Hres. cbn [head blank].
      intros H.
      eapply run_stream_head in H;
        [| reflexivity | unfold with_res; simpl; now rewrite Hres].
      right. right. apply H.
    + rewrite (bind_val _ _ _ _ _ (logError_run model s Hp)).
      rewrite sendJson_blank by (now rewrite res_advance).
      rewrite json_answer_reply.
      intros H. injection H as <- <-.
      right. left. eexists _, _. split; [reflexivity|discriminate].
  - unfold errText_of. destruct (text r) as [t|e].
    + rewrite (lift_val _ _ t s eq_refl).
      rewrite (bind_val _ _ _ _ _ (logError_run model s Hp)).
      rewrite sendJson_blank by (now rewrite res_advance).
      rewrite json_answer_reply.
      intros H. injection H as <- <-.
      right. left. eexists _, _. split; [reflexivity|].
      unfold status_or_500. destruct (status r =? 0); [discriminate|].
      now apply not_ok_not_200.
    + rewrite (lift_throw _ _ e s eq_refl).
      intros H. injection H as <- <-.
      left. exists e. split; [reflexivity|exact Hres].
Qed.

Lemma chatgptBranch_outcome (req model : value) (s : state) :
  res s = blank -> printable model ->
  forall o s1, chatgptBranch config W req model s = (o, s1) ->
    requestModel s1 = requestModel s
    /\ ((exists e, o = Throw e /\ res s1 = blank)
        \/ (exists code v, res s1 = json_reply code v /\ code <> 200)
        \/ head (res s1) = Some (200, event_stream)).
Proof.
  intros Hres Hp o s1. unfold chatgptBranch.
  rewrite (bind_val _ _ _ _ _ (emit_run _ _)).
  destruct (translateRequestToResponses req (targetModel config))
    as [rr|e] eqn:Htr.
  2:{ rewrite (lift_throw _ _ e _ eq_refl).
      intros H. injection H as <- <-.
      split; [reflexivity|]. left. exists e. split; [reflexivity|exact Hres]. }
  rewrite (lift_val _ _ rr _ eq_refl).
  match goal with
  | |- context [retry (fetch W ?u ?h ?p)] =>
      destruct (retry_outcome u h p (advance s [Translate ToResponses] 0))
        as [k [o1 [_ [Hrun Hout]]]]
  end.
  unfold bind at 1. rewrite Hrun.
  destruct Hout as [[e ->]|[r ->]].
  - intros H. injection H as <- <-.
    split; [reflexivity|]. left. exists e. split; [reflexivity|exact Hres].
  - intros H. split.
    + destruct (Quiet_respondChatGPT _ _ _ _ _ H) as [evs [_ [_ [_ [_ [_ Hrm]]]]]].
      rewrite Hrm. reflexivity.
    + revert H. apply respondChatGPT_outcome; [|exact Hp].
      now rewrite !res_advance.
Qed.

(** C10.  With the chatgpt provider, a request to the main endpoint
    routed to translation whose model and tool count can be printed,
    whatever its [stream] flag: if the request translates and the answer
    the retry loop ends with is ok and has a body, the client is answered
    with status 200 and Content-Type text/event-stream, and receives what
    the Responses stream translator writes.  And however the branch ends,
    the answer is either that event stream or a JSON error with a status
    other than 200: never the JSON message of the non-streaming
    translation. *)
Theorem chatgpt_answers_as_stream
  (headers : list (string * string)) (payload : string) (lg : Logger.t)
  (req : value) (d : Routing) :
  targetProvider config = "chatgpt" ->
  JSON_parse payload = Val req ->
  route config req = Val d ->
  isPassthrough d = false ->
  printable (get_opt req "model") -> printable (toolCount d) ->
  exists s1,
    messages config W headers payload (fresh lg) = (Val tt, s1)
    /\ (forall rr r b,
          translateRequestToResponses req (targetModel config) = Val rr ->
          final_answer W r -> ok r = true -> body r = Some b ->
          head (res s1)
          = Some (200, [("Content-Type", "text/event-stream");
                        ("Cache-Control", "no-cache");
                        ("Connection", "keep-alive")])
          /\ sent (res s1)
             = written (translateResponsesStream b (spoofModel config)))
    /\ (head (res s1)
        = Some (200, [("Content-Type", "text/event-stream");
                      ("Cache-Control", "no-cache");
                      ("Connection", "keep-alive")])
        \/ exists code,
             head (res s1) = Some (code, [("Content-Type", "application/json")])
             /\ code <> 200).
Proof.
  intros Hprov Hparse Hroute Hpass Hm Ht.
  rewrite (messages_routed _ _ _ _ _ Hparse Hroute Hm Ht).
  unfold branch_of. rewrite Hpass, Hprov. cbn [String.eqb Ascii.eqb Bool.eqb].
  unfold try_catch.
  destruct (chatgptBranch config W req (get_opt req "model") (routed lg req d))
    as [o1 s2] eqn:Hrun.
  destruct (chatgptBranch_outcome req _ (routed lg req d) eq_refl Hm _ _ Hrun)
    as [Hrm Hout].
  assert (Hp2 : printable (requestModel s2))
    by (rewrite Hrm; now apply printable_routed).
  assert (Hsucc : forall rr r b,
            translateRequestToResponses req (targetModel config) = Val rr ->
            final_answer W r -> ok r = true -> body r = Some b ->
            head (res s2) = Some (200, event_stream)
            /\ sent (res s2)
               = written (translateResponsesStream b (spoofModel config))).
  { intros rr r b Htr Hfinal Hok Hbody.
    destruct (final_answer_ends r Hfinal) as [k Hend].
    rewrite (chatgptBranch_run req _ rr k r (routed lg req d) eq_refl Htr Hend)
      in Hrun.
    refine (respondChatGPT_stream _ r b _ _ Hok Hbody _ _ Hrun).
    reflexivity. }
  destruct o1 as [[]|e].
  - exists s2. split; [reflexivity|]. split; [exact Hsucc|].
    destruct Hout as [[e [He _]]|[[code [v [Hv Hc]]]|Hh]].
    + discriminate.
    + right. exists code. rewrite Hv. split; [reflexivity|exact Hc].
    + left. exact Hh.
  - destruct (onError_total e s2 Hp2)
      as [s3 [H3 [Hkeep [Hnew [_ [_ [Hsent _]]]]]]].
    rewrite H3. exists s3. split; [reflexivity|]. split.
    + intros rr r b Htr Hfinal Hok Hbody.
      destruct (Hsucc rr r b Htr Hfinal Hok Hbody) as [Hh Hs].
      split; [now apply Hkeep|].
      rewrite Hsent; [exact Hs|]. rewrite Hh. discriminate.
    + destruct Hout as [[e' [_ Hblank]]|[[code [v [Hv Hc]]]|Hh]].
      * right. exists 500. split; [|discriminate].
        apply Hnew; now rewrite Hblank.
      * right. exists code. split; [|exact Hc].
        apply Hkeep. now rewrite Hv.
      * left. now apply Hkeep.
Qed.

(** *** The retry loop within the handler *)

Lemma backoff_posts_of (post : event) (k : nat) (attempt : Z) :
  posts [post] = 1%nat -> posts (backoff_events post attempt k) = S k.
Proof.
  intros Hp. revert attempt.
  induction k as [|k IH]; intros attempt; [exact Hp|].
  change (backoff_events post attempt (S k))
    with ([post; LogRetry (attempt + 1) (waitMs attempt); Wait (waitMs attempt)]
          ++ backoff_events post (attempt + 1) k)%list.
  rewrite posts_app, IH.
  change [post; LogRetry (attempt + 1) (waitMs attempt); Wait (waitMs attempt)]
    with ([post] ++ [LogRetry (attempt + 1) (waitMs attempt);
                     Wait (waitMs attempt)])%list.
  rewrite posts_app, Hp. reflexivity.
Qed.

Lemma backoff_delays_of (post : event) (k : nat) (a : nat) :
  delays [post] = [] ->
  delays (backoff_events post (Z.of_nat a) k)
  = List.map (fun i => Z.min (1000 * 2 ^ Z.of_nat i) 10000) (seq a k).
Proof.
  intros Hp. revert a. induction k as [|k IH]; intros a; [exact Hp|].
  change (backoff_events post (Z.of_nat a) (S k))
    with ([post] ++ [LogRetry (Z.of_nat a + 1) (waitMs (Z.of_nat a));
                     Wait (waitMs (Z.of_nat a))]
          ++ backoff_events post (Z.of_nat a + 1) k)%list.
  rewrite !delays_app, Hp.
  replace (Z.of_nat a + 1) with (Z.of_nat (S a)) by lia.
  rewrite IH. reflexivity.
Qed.

(** The trace of a translated request whose loop ends after [k] answers
    429 with the answer [r] *)
Lemma translated_trace headers payload lg (req : value) (d : Routing)
  (post : event) (which : translator) (k : nat) (r : Response) :
  JSON_parse payload = Val req ->
  route config req = Val d ->
  isPassthrough d = false ->
  printable (get_opt req "model") -> printable (toolCount d) ->
  (targetProvider config = "chatgpt" /\ which = ToResponses
   /\ exists rr,
        translateRequestToResponses req (targetModel config) = Val rr
        /\ post = chatgpt_post config rr)
  \/ (targetProvider config <> "chatgpt" /\ which = ToChatCompletions
      /\ exists oreq,
           translateRequest req (targetModel config) = Val oreq
           /\ post = openai_post config oreq (isStreaming d)) ->
  ends_at W k r ->
  exists rest,
    events (snd (messages config W headers payload (fresh lg)))
    = ([LogRequest false; Translate which]
       ++ backoff_events post 0 k ++ rest)%list
    /\ quiet rest
    /\ calls (snd (messages config W headers payload (fresh lg))) = S k
    /\ posts (backoff_events post 0 k) = S k
    /\ delays (backoff_events post 0 k)
       = List.map (fun i => Z.min (1000 * 2 ^ Z.of_nat i) 10000) (seq 0 k)
    /\ (ok r = false -> status r <> 0 -> cut_short r = None ->
        head (res (snd (messages config W headers payload (fresh lg))))
        = Some (status r, [("Content-Type", "application/json")])).
Proof.
  intros Hparse Hroute Hpass Hm Ht Htrans Hend.
  destruct Htrans as [[Hprov [-> [rr [Htr ->]]]]|[Hprov [-> [oreq [Htr ->]]]]].
  - rewrite (chatgpt_messages _ _ _ _ _ rr k r Hprov Hparse Hroute Hpass Hm Ht
               Htr Hend).
    match goal with
    | |- context [try_catch ?m ?h ?s2] =>
        destruct (try_catch m h s2) as [o s1] eqn:Hrun
    end.
    destruct (Quiet_try_catch _ _ (Quiet_respondChatGPT _ _) Quiet_onError
                _ _ _ Hrun) as [rest [Hev [Hq [Hc _]]]].
    exists rest. cbn [snd].
    split; [rewrite Hev; simpl; rewrite Hpass; reflexivity|].
    split; [exact Hq|].
    split; [rewrite Hc; simpl; lia|].
    split; [now apply backoff_posts_of|].
    split; [now apply (backoff_delays_of _ k 0)|].
    intros Hok H0 Hcut. revert Hrun. unfold try_catch.
    rewrite respondChatGPT_failed; [|reflexivity|exact Hok|exact H0|exact Hm].
    rewrite Hcut. intros H. injection H as _ <-. reflexivity.
  - rewrite (openai_messages _ _ _ _ _ oreq k r Hprov Hparse Hroute Hpass Hm Ht
               Htr Hend).
    match goal with
    | |- context [try_catch ?m ?h ?s2] =>
        destruct (try_catch m h s2) as [o s1] eqn:Hrun
    end.
    destruct (Quiet_try_catch _ _ (Quiet_respondOpenAI _ _ _) Quiet_onError
                _ _ _ Hrun) as [rest [Hev [Hq [Hc _]]]].
    exists rest. cbn [snd].
    split; [rewrite Hev; simpl; rewrite Hpass; reflexivity|].
    split; [exact Hq|].
    split; [rewrite Hc; simpl; lia|].
    split; [now apply backoff_posts_of|].
    split; [now apply (backoff_delays_of _ k 0)|].
    intros Hok H0 Hcut. revert Hrun. unfold try_catch.
    rewrite respondOpenAI_failed; [|reflexivity|exact Hok|exact H0|exact Hm].
    rewrite Hcut. intros H. injection H as _ <-. reflexivity.
Qed.

(** C2.  For a request to the main endpoint that is routed to
    translation, can be translated, and whose model and tool count can be
    printed in the log line, on either provider branch.  The trace of the
    handler is the logged request, the translation, then the calls of the
    retry loop with a logged retry and a wait after each answer 429, and
    after the loop no further call and no wait.  If the upstream answers
    429 to the first [k <= 5] calls and then something else, there are
    [k + 1] calls and the waits are min(1000 * 2^i, 10000) ms for
    [i < k]; an upstream that always answers 429 receives 6 calls with
    waits 1000, 2000, 4000, 8000, 10000 ms.  The answer the loop ends
    with is the one handed on: when it is not ok and its body can be
    read, its status is the status the client receives. *)
Theorem retry_policy
  (headers : list (string * string)) (payload : string) (lg : Logger.t)
  (req : value) (d : Routing) (post : event) (which : translator) :
  JSON_parse payload = Val req ->
  route config req = Val d ->
  isPassthrough d = false ->
  printable (get_opt req "model") -> printable (toolCount d) ->
  (targetProvider config = "chatgpt" /\ which = ToResponses
   /\ exists rr,
        translateRequestToResponses req (targetModel config) = Val rr
        /\ post = chatgpt_post config rr)
  \/ (targetProvider config <> "chatgpt" /\ which = ToChatCompletions
      /\ exists oreq,
           translateRequest req (targetModel config) = Val oreq
           /\ post = openai_post config oreq (isStreaming d)) ->
  let s1 := snd (messages config W headers payload (fresh lg)) in
  (forall k r,
     (k <= 5)%nat ->
     (forall i, (i < k)%nat -> rate_limited W i) ->
     reply W k = Val r -> status r <> 429 ->
     exists rest,
       events s1
       = ([LogRequest false; Translate which]
          ++ backoff_events post 0 k ++ rest)%list
       /\ quiet rest
       /\ calls s1 = S k
       /\ posts (backoff_events post 0 k) = S k
       /\ delays (backoff_events post 0 k)
          = List.map (fun i => Z.min (1000 * 2 ^ Z.of_nat i) 10000) (seq 0 k)
       /\ (ok r = false -> status r <> 0 -> cut_short r = None ->
           head (res s1)
           = Some (status r, [("Content-Type", "application/json")])))
  /\ ((forall i, (i <= 5)%nat -> rate_limited W i) ->
      exists rest,
        events s1
        = ([LogRequest false; Translate which]
           ++ backoff_events post 0 5 ++ rest)%list
        /\ quiet rest
        /\ calls s1 = 6%nat
        /\ posts (backoff_events post 0 5) = 6%nat
        /\ delays (backoff_events post 0 5)
           = [1000; 2000; 4000; 8000; 10000]
        /\ (forall r, reply W 5 = Val r -> cut_short r = None ->
            head (res s1)
            = Some (429, [("Content-Type", "application/json")]))).
Proof.
  intros Hparse Hroute Hpass Hm Ht Htrans s1. subst s1. split.
  - intros k r Hk Hlim Hr Hne.
    apply (translated_trace headers payload lg req d post which k r
             Hparse Hroute Hpass Hm Ht Htrans).
    left. repeat split; assumption.
  - intros Hlim.
    destruct (Hlim 5%nat) as [r [Hr Hs]]; [lia|].
    destruct (translated_trace headers payload lg req d post which 5 r
                Hparse Hroute Hpass Hm Ht Htrans)
      as [rest [Hev [Hq [Hc [Hposts [Hdelays Hhead]]]]]].
    { right. repeat split; assumption. }
    exists rest. split; [exact Hev|]. split; [exact Hq|].
    split; [exact Hc|]. split; [exact Hposts|].
    split; [exact Hdelays|].
    intros r' Hr' Hcut. rewrite Hr in Hr'. injection Hr' as <-.
    rewrite <- Hs. apply Hhead; [|lia|exact Hcut].
    unfold ok. now rewrite Hs.
Qed.
End Answers.

(** *** The theorems above at concrete inputs *)

Section AnswerWitnesses.
Import JS Conv Proxy.

Lemma retry_policy_witness :
  exists rest,
    events
      (snd (messages (E := Sample.engine [Sample.buffered])
              (T := Sample.translators) (Sample.config "openai" [])
              (Sample.world [Sample.answer 429 [];
                             Sample.answer 404 ["no such model"]])
              [] (Sample.stringify Sample.buffered) (fresh Logger.create)))
    = ([LogRequest false; Translate ToChatCompletions]
       ++ backoff_events
            (openai_post (E := Sample.engine [Sample.buffered])
               (Sample.config "openai" [])
               [("model", Str "gpt-x"); ("stream", Bool true)] false) 0 1
       ++ rest)%list
    /\ quiet rest
    /\ calls
         (snd (messages (E := Sample.engine [Sample.buffered])
                 (T := Sample.translators) (Sample.config "openai" [])
                 (Sample.world [Sample.answer 429 [];
                                Sample.answer 404 ["no such model"]])
                 [] (Sample.stringify Sample.buffered) (fresh Logger.create)))
       = 2%nat
    /\ delays
         (backoff_events
            (openai_post (E := Sample.engine [Sample.buffered])
               (Sample.config "openai" [])
               [("model", Str "gpt-x"); ("stream", Bool true)] false) 0 1)
       = [1000]
    /\ head
         (res
            (snd (messages (E := Sample.engine [Sample.buffered])
                    (T := Sample.translators) (Sample.config "openai" [])
                    (Sample.world [Sample.answer 429 [];
                                   Sample.answer 404 ["no such model"]])
                    [] (Sample.stringify Sample.buffered)
                    (fresh Logger.create))))
       = Some (404, [("Content-Type", "application/json")]).
Proof.
  pose proof (fun d =>
                retry_policy (E := Sample.engine [Sample.buffered])
                  (T := Sample.translators) (Sample.config "openai" [])
                  (Sample.world [Sample.answer 429 [];
                                 Sample.answer 404 ["no such model"]])
                  [] (Sample.stringify Sample.buffered) Logger.create
                  Sample.buffered d
                  (openai_post (E := Sample.engine [Sample.buffered])
                     (Sample.config "openai" [])
                     [("model", Str "gpt-x"); ("stream", Bool true)] false)
                  ToChatCompletions) as H.
  edestruct H as [Hstop _].
  - reflexivity.
  - reflexivity.
  - reflexivity.
  - now exists "claude-sonnet".
  - now exists "0".
  - right. split; [discriminate|]. split; [reflexivity|].
    exists [("model", Str "gpt-x"); ("stream", Bool true)].
    split; reflexivity.
  - destruct (Hstop 1%nat (Sample.answer 404 ["no such model"]))
      as [rest [Hev [Hq [Hc [_ [Hd Hh]]]]]].
    + lia.
    + intros i Hi. exists (Sample.answer 429 []).
      destruct i; [split; reflexivity|lia].
    + reflexivity.
    + discriminate.
    + exists rest. split; [exact Hev|]. split; [exact Hq|].
      split; [exact Hc|]. split; [exact Hd|].
      apply Hh; [reflexivity|discriminate|reflexivity].
Defined.

Lemma openai_error_envelope_witness :
  exists s1,
    messages (E := Sample.engine [Sample.buffered]) (T := Sample.translators)
      (Sample.config "openai" [])
      (Sample.world [Sample.answer 404 ["no such model"]])
      [] (Sample.stringify Sample.buffered) (fresh Logger.create)
    = (Val tt, s1)
    /\ res s1
       = json_reply (E := Sample.engine [Sample.buffered]) 404
           (Obj [("type", Str "error");
                 ("error", Obj [("type", Str "invalid_request_error");
                                ("message", Str "no such model")])]).
Proof.
  pose proof (fun d oreq =>
                openai_error_envelope (E := Sample.engine [Sample.buffered])
                  (T := Sample.translators) (Sample.config "openai" [])
                  (Sample.world [Sample.answer 404 ["no such model"]])
                  [] (Sample.stringify Sample.buffered) Logger.create
                  Sample.buffered d oreq (Sample.answer 404 ["no such model"]))
    as H.
  edestruct H as [kind [s1 [Hrun [Hres [_ [_ [_ [_ Hkind]]]]]]]].
  - discriminate.
  - reflexivity.
  - reflexivity.
  - reflexivity.
  - now exists "claude-sonnet".
  - now exists "0".
  - reflexivity.
  - left. exists 0%nat. split; [lia|]. split; [intros i Hi; lia|].
    split; [reflexivity|discriminate].
  - reflexivity.
  - discriminate.
  - exists s1. split; [exact Hrun|].
    rewrite Hkind in Hres; [exact (Hres eq_refl)| | |]; simpl; lia.
Defined.

(** C5 as stated fails when the body of the upstream's answer cannot be
    read.  The upstream answers 404, the answer the retry loop ends with,
    and the transfer of its body breaks off: the client receives status
    500 and an api_error, not status 404 and an invalid_request_error. *)
Lemma openai_error_unreadable :
  ok (Sample.cut_off 404 ["no such"]) = false
  /\ status (Sample.cut_off 404 ["no such"]) = 404
  /\ final_answer (Sample.world [Sample.cut_off 404 ["no such"]])
       (Sample.cut_off 404 ["no such"])
  /\ fst (messages (E := Sample.engine [Sample.buffered])
            (T := Sample.translators) (Sample.config "openai" [])
            (Sample.world [Sample.cut_off 404 ["no such"]])
            [] (Sample.stringify Sample.buffered) (fresh Logger.create))
     = Val tt
  /\ res (snd (messages (E := Sample.engine [Sample.buffered])
                 (T := Sample.translators) (Sample.config "openai" [])
                 (Sample.world [Sample.cut_off 404 ["no such"]])
                 [] (Sample.stringify Sample.buffered) (fresh Logger.create)))
     = {| head := Some (500, [("Content-Type", "application/json")]);
          sent :=
            [Sample.stringify
               (Obj [("type", Str "error");
                     ("error", Obj [("type", Str "api_error");
                                    ("message", Str "terminated")])])];
          writableEnded := true |}.
Proof.
  split; [reflexivity|]. split; [reflexivity|]. split.
  - left. exists 0%nat. split; [lia|]. split; [intros i Hi; lia|].
    split; [reflexivity|discriminate].
  - split; vm_compute; reflexivity.
Qed.



Lemma malformed_body_witness :
  listener (E := Sample.engine []) (T := Sample.translators)
    (Sample.config "openai" []) (Sample.world []) "POST"
    (Some "/v1/messages/count_tokens?beta=true") [] "{" (fresh Logger.create)
  = (Val tt,
     {| res :=
          {| head := Some (200, [("Content-Type", "application/json")]);
             sent := [Sample.stringify (Obj [("input_tokens", Num 1000)])];
             writableEnded := true |};
        events := []; calls := 0; logger := Logger.create; session := None;
        requestModel := Str "unknown" |})
  /\ listener (E := Sample.engine []) (T := Sample.translators)
       (Sample.config "openai" []) (Sample.world []) "POST"
       (Some "/v1/messages") [] "{" (fresh Logger.create)
     = (Val tt,
        {| res :=
             {| head := Some (500, [("Content-Type", "application/json")]);
                sent :=
                  [Sample.stringify
                     (Obj [("type", Str "error");
                           ("error",
                            Obj [("type", Str "api_error");
                                 ("message", Str "Unexpected token")])])];
                writableEnded := true |};
           events := [ConsoleError]; calls := 0; logger := Logger.create;
           session := None; requestModel := Str "unknown" |}).
Proof.
  exact (malformed_body (E := Sample.engine []) (T := Sample.translators)
           (Sample.config "openai" []) (Sample.world [])
           "/v1/messages/count_tokens?beta=true" "/v1/messages" [] "{"
           Logger.create (Error "Unexpected token") eq_refl eq_refl eq_refl).
Defined.

Lemma count_tokens_estimate_witness :
  listener (E := Sample.engine [Sample.counted]) (T := Sample.translators)
    (Sample.config "openai" ["lead"]) (Sample.world []) "POST"
    (Some "/v1/messages/count_tokens") [] (Sample.stringify Sample.counted)
    (fresh Logger.create)
  = (Val tt,
     {| res :=
          {| head := Some (200, [("Content-Type", "application/json")]);
             sent := [Sample.stringify (Obj [("input_tokens", Num 100)])];
             writableEnded := true |};
        events := []; calls := 0; logger := Logger.create; session := None;
        requestModel := Str "unknown" |}).
Proof.
  destruct (count_tokens_estimate (E := Sample.engine [Sample.counted])
              (T := Sample.translators) (Sample.config "openai" ["lead"])
              (Sample.world []) "/v1/messages/count_tokens" []
              (Sample.stringify Sample.counted) Logger.create Sample.counted
              eq_refl eq_refl) as [Hest _].
  destruct (Hest eq_refl) as [msgs [n [Hm [Hrun [_ [_ [_ H400]]]]]]].
  injection Hm as <-.
  rewrite (H400 eq_refl) in Hrun. exact Hrun.
Defined.

(** C9 as stated fails when the guard of line 160 throws.  A
    count_tokens request with the matcher [*] whose model is a number and
    whose messages serialize to 400 characters: the body parses, no
    upstream call is made, and the answer is 1000, not 100. *)
Lemma count_tokens_guard_throws :
  JSON_parse (Engine := Sample.engine [Sample.miscounted])
    (Sample.stringify Sample.miscounted) = Val Sample.miscounted
  /\ strlen (Sample.stringify (get_opt Sample.miscounted "messages")) = 400
  /\ listener (E := Sample.engine [Sample.miscounted])
       (T := Sample.translators) (Sample.config "openai" ["*"])
       (Sample.world []) "POST" (Some "/v1/messages/count_tokens") []
       (Sample.stringify Sample.miscounted) (fresh Logger.create)
     = (Val tt,
        {| res :=
             {| head := Some (200, [("Content-Type", "application/json")]);
                sent := [Sample.stringify (Obj [("input_tokens", Num 1000)])];
                writableEnded := true |};
           events := []; calls := 0; logger := Logger.create;
           session := None; requestModel := Str "unknown" |}).
Proof.
  split; [reflexivity|]. split; vm_compute; reflexivity.
Qed.

Lemma chatgpt_answers_as_stream_witness :
  exists s1,
    messages (E := Sample.engine [Sample.buffered]) (T := Sample.translators)
      (Sample.config "chatgpt" [])
      (Sample.world [Sample.answer 429 []; Sample.answer 200 ["data: {}"]])
      [] (Sample.stringify Sample.buffered) (fresh Logger.create)
    = (Val tt, s1)
    /\ head (res s1)
       = Some (200, [("Content-Type", "text/event-stream");
                     ("Cache-Control", "no-cache");
                     ("Connection", "keep-alive")])
    /\ sent (res s1) = ["data: {}"].
Proof.
  destruct (chatgpt_answers_as_stream (E := Sample.engine [Sample.buffered])
              (T := Sample.translators) (Sample.config "chatgpt" [])
              (Sample.world [Sample.answer 429 []; Sample.answer 200 ["data: {}"]])
              [] (Sample.stringify Sample.buffered) Logger.create
              Sample.buffered _ eq_refl eq_refl eq_refl eq_refl
              (ex_intro _ "claude-sonnet" eq_refl) (ex_intro _ "0" eq_refl))
    as [s1 [Hrun [Hok _]]].
  exists s1. split; [exact Hrun|].
  apply (Hok (Obj [("model", Str "gpt-x")])
           (Sample.answer 200 ["data: {}"])
           {| yielded := ["data: {}"]; rejected := None |}).
  - reflexivity.
  - left. exists 1%nat. split; [lia|]. split.
    + intros i Hi. exists (Sample.answer 429 []).
      destruct i; [split; reflexivity|lia].
    + split; [reflexivity|discriminate].
  - reflexivity.
  - reflexivity.
Defined.

End AnswerWitnesses.

(* ================================================================== *)
(** ** The session correlator *)

Section Correlator.
Import Logger.

(** *** Keys *)

Lemma decimal_inj (a b : nat) : decimal a = decimal b -> a = b.
Proof.
  unfold decimal. intros H.
  assert (Hu : Nat.to_uint a = Nat.to_uint b).
  { apply (f_equal NilEmpty.uint_of_string) in H.
    rewrite !NilEmpty.usu in H. now injection H. }
  apply (f_equal Nat.of_uint) in Hu.
  now rewrite !DecimalNat.Unsigned.of_to in Hu.
Qed.

Lemma map_get_none (k : string) (m : list (string * AgentSession)) :
  map_get k m = None <-> ~ In k (List.map fst m).
Proof.
  induction m as [|[k' s] m IH]; simpl.
  - tauto.
  - destruct (k =? k')%string eqn:Hk.
    + apply String.eqb_eq in Hk. subst. split; [discriminate|].
      intros H. exfalso. apply H. now left.
    + apply String.eqb_neq in Hk. rewrite IH. split.
      * intros H [Heq|Hin]; [congruence|contradiction].
      * intros H Hin. apply H. now right.
Qed.

Lemma map_get_in (k : string) (m : list (string * AgentSession)) s :
  map_get k m = Some s -> In (k, s) m.
Proof.
  induction m as [|[k' s'] m IH]; simpl; [discriminate|].
  destruct (k =? k')%string eqn:Hk.
  - apply String.eqb_eq in Hk. subst. intros [= ->]. now left.
  - intros H. right. now apply IH.
Qed.

Lemma in_map_get (k : string) (m : list (string * AgentSession)) s :
  NoDup (List.map fst m) -> In (k, s) m -> map_get k m = Some s.
Proof.
  induction m as [|[k' s'] m IH]; simpl; [contradiction|].
  intros Hnd [Heq|Hin].
  - injection Heq as -> ->. now rewrite String.eqb_refl.
  - inversion Hnd as [|? ? Hnotin Hnd']; subst.
    destruct (k =? k')%string eqn:Hk.
    + apply String.eqb_eq in Hk. subst. exfalso. apply Hnotin.
      change k' with (fst (k', s)). now apply in_map.
    + now apply IH.
Qed.

Lemma map_update_keys (k : string) s (m : list (string * AgentSession)) :
  List.map fst (map_update k s m) = List.map fst m.
Proof.
  induction m as [|[k' s'] m IH]; simpl; [reflexivity|].
  destruct (k =? k')%string; simpl; [reflexivity|now rewrite IH].
Qed.

Lemma map_update_in (k : string) s (m : list (string * AgentSession)) k1 s1 :
  In (k1, s1) (map_update k s m) ->
  In (k1, s1) m \/ (k1 = k /\ s1 = s /\ In k (List.map fst m)).
Proof.
  induction m as [|[k' s'] m IH]; simpl; [tauto|].
  destruct (k =? k')%string eqn:Hk.
  - apply String.eqb_eq in Hk. subst k'. simpl.
    intros [Heq|Hin]; [|tauto]. injection Heq as <- <-. right. tauto.
  - simpl. intros [Heq|Hin]; [tauto|].
    destruct (IH Hin) as [H|[H1 [H2 H3]]]; tauto.
Qed.

Lemma map_update_get (k : string) s (m : list (string * AgentSession)) :
  In k (List.map fst m) -> map_get k (map_update k s m) = Some s.
Proof.
  induction m as [|[k' s'] m IH]; simpl; [contradiction|].
  destruct (k =? k')%string eqn:Hk; simpl; rewrite Hk; [reflexivity|].
  intros [Heq|Hin]; [|now apply IH].
  apply String.eqb_neq in Hk. congruence.
Qed.

Lemma map_update_length (k : string) s (m : list (string * AgentSession)) :
  List.length (map_update k s m) = List.length m.
Proof.
  induction m as [|[k' s'] m IH]; simpl; [reflexivity|].
  destruct (k =? k')%string; simpl; [reflexivity|now rewrite IH].
Qed.

(** *** The scan for the nearest session *)

Lemma is_teammate_iff (t : session_type) :
  is_teammate t = true <-> t = teammate.
Proof. destruct t; simpl; split; congruence. Qed.

Lemma scan_snoc (count : Z) (m : list (string * AgentSession)) x :
  scan count (m ++ [x]) = scan_step count (scan count m) x.
Proof. unfold scan. now rewrite fold_left_app. Qed.

Lemma scan_step_best (count : Z) (m : list (string * AgentSession)) acc x :
  best_of count m acc -> best_of count (m ++ [x]) (scan_step count acc x).
Proof.
  destruct x as [kx sx]. unfold scan_step. simpl snd.
  destruct (is_teammate (type sx)) eqn:Ht; simpl negb; cbv iota.
  - apply is_teammate_iff in Ht.
    destruct ((0 <=? count - lastMsgCount sx)
              && (count - lastMsgCount sx <=? 8)
              && below (count - lastMsgCount sx) (snd acc))%bool eqn:Hc.
    + apply andb_true_iff in Hc. destruct Hc as [Hc Hb].
      apply andb_true_iff in Hc. destruct Hc as [H0 H8].
      apply Z.leb_le in H0, H8.
      intros Hacc. simpl. split; [|split; [|split]].
      * exists kx. apply in_or_app. right. now left.
      * split; [exact Ht|lia].
      * reflexivity.
      * intros k s Hin He. apply in_app_or in Hin.
        destruct Hin as [Hin|[Heq|[]]].
        -- destruct acc as [[s0|] [g|]]; simpl in Hacc, Hb; try contradiction.
           ++ destruct Hacc as [_ [_ [Hg Hmin]]].
              apply Z.ltb_lt in Hb. specialize (Hmin k s Hin He). lia.
           ++ exfalso. exact (Hacc k s Hin He).
        -- injection Heq as <- <-. lia.
    + intros Hacc.
      destruct acc as [[s0|] [g|]]; simpl in Hacc |- *; try contradiction.
      * destruct Hacc as [[k0 Hin0] [He0 [Hg Hmin]]].
        split; [|split; [|split]]; try assumption.
        -- exists k0. apply in_or_app. now left.
        -- intros k s Hin He. apply in_app_or in Hin.
           destruct Hin as [Hin|[Heq|[]]]; [now apply (Hmin k s)|].
           injection Heq as <- <-. destruct He as [_ [H0 H8]].
           simpl in Hc.
           apply andb_false_iff in Hc. destruct Hc as [Hc|Hc].
           ++ apply andb_false_iff in Hc. destruct Hc as [Hc|Hc];
                [apply Z.leb_gt in Hc|apply Z.leb_gt in Hc]; lia.
           ++ apply Z.ltb_ge in Hc. lia.
      * intros k s Hin He. apply in_app_or in Hin.
        destruct Hin as [Hin|[Heq|[]]]; [exact (Hacc k s Hin He)|].
        injection Heq as <- <-. destruct He as [_ [H0 H8]].
        simpl in Hc. rewrite andb_true_r in Hc.
        apply andb_false_iff in Hc. destruct Hc as [Hc|Hc];
          apply Z.leb_gt in Hc; lia.
  - intros Hacc.
    assert (Hnot : ~ eligible count sx).
    { intros [Hty _]. apply is_teammate_iff in Hty. congruence. }
    destruct acc as [[s0|] [g|]]; simpl in Hacc |- *; try contradiction.
    + destruct Hacc as [[k0 Hin0] [He0 [Hg Hmin]]].
      split; [|split; [|split]]; try assumption.
      * exists k0. apply in_or_app. now left.
      * intros k s Hin He. apply in_app_or in Hin.
        destruct Hin as [Hin|[Heq|[]]]; [now apply (Hmin k s)|].
        injection Heq as <- <-. contradiction.
    + intros k s Hin He. apply in_app_or in Hin.
      destruct Hin as [Hin|[Heq|[]]]; [exact (Hacc k s Hin He)|].
      injection Heq as <- <-. contradiction.
Qed.

Lemma scan_best (count : Z) (m : list (string * AgentSession)) :
  best_of count m (scan count m).
Proof.
  induction m as [|x m IH] using rev_ind.
  - simpl. intros k s [].
  - rewrite scan_snoc. now apply scan_step_best.
Qed.

(** *** The table stays a map keyed WARM, LEAD, T1, T2, ... *)

Lemma well_keyed_create : well_keyed create.
Proof. split; [constructor|intros k s []]. Qed.

Lemma well_keyed_getOrCreate (lg : t) (k : string) (ty : session_type)
  (count : Z) (lbl : option string) :
  well_keyed lg ->
  (ty = teammate ->
   exists j, (1 <= j <= teammateIndex lg)%nat /\ k = "T" ++ decimal j) ->
  (ty <> teammate -> k = "WARM" \/ k = "LEAD") ->
  well_keyed (snd (getOrCreate lg k ty count lbl)).
Proof.
  intros [Hnd Hent] Hteam Hother. unfold getOrCreate.
  destruct (map_get k (sessions lg)) as [s|] eqn:Hget; simpl.
  - apply map_get_in in Hget. destruct (Hent k s Hget) as [Hk [Ht Ho]].
    split; simpl.
    + now rewrite map_update_keys.
    + intros k1 s1 Hin. apply map_update_in in Hin.
      destruct Hin as [Hin|[-> [-> _]]]; [now apply Hent|].
      simpl. repeat split; assumption.
  - split; simpl.
    + rewrite map_app. apply NoDup_app; [exact Hnd|repeat constructor; intros []|].
      intros a Ha [<-|[]]. now apply map_get_none in Hget.
    + intros k1 s1 Hin. apply in_app_or in Hin.
      destruct Hin as [Hin|[Heq|[]]]; [now apply Hent|].
      injection Heq as <- <-. simpl. repeat split; assumption.
Qed.

Lemma well_keyed_index (m : list (string * AgentSession)) (n a b : nat) :
  well_keyed {| sessions := m; teammateIndex := n; totalRequests := a |} ->
  well_keyed {| sessions := m; teammateIndex := S n; totalRequests := b |}.
Proof.
  intros [Hnd Hent]. split; [exact Hnd|]. simpl in *.
  intros k s Hin. destruct (Hent k s Hin) as [Hk [Ht Ho]].
  repeat split; try assumption.
  intros Hty. destruct (Ht Hty) as [j [Hj Hkj]]. exists j. split; [lia|exact Hkj].
Qed.

Lemma well_keyed_identify (lg : t) (i : info) :
  well_keyed lg -> well_keyed (snd (identify lg i)).
Proof.
  intros Hwk. unfold identify.
  destruct (is_zero (toolCount i)).
  - apply well_keyed_getOrCreate; [exact Hwk|discriminate|now left].
  - destruct (isTeammate i); simpl negb; cbv iota.
    + pose proof (scan_best (msgCount i) (sessions lg)) as Hbest.
      destruct (scan (msgCount i) (sessions lg)) as [[s0|] [g|]];
        simpl in Hbest; try contradiction; simpl fst; cbv iota.
      * destruct Hbest as [[k0 Hin0] _]. destruct Hwk as [Hnd Hent].
        destruct (Hent k0 s0 Hin0) as [Hk [Ht Ho]].
        split; simpl.
        -- now rewrite map_update_keys.
        -- intros k1 s1 Hin. apply map_update_in in Hin.
           destruct Hin as [Hin|[-> [-> _]]]; [now apply Hent|].
           simpl. rewrite Hk. repeat split; assumption.
      * apply well_keyed_getOrCreate.
        -- destruct lg as [m n a]. exact (well_keyed_index m n a a Hwk).
        -- intros _. exists (S (teammateIndex lg)). simpl. split; [lia|reflexivity].
        -- congruence.
    + apply well_keyed_getOrCreate; [exact Hwk|discriminate|now right].
Qed.

Lemma reachable_well_keyed (lg : t) : reachable lg -> well_keyed lg.
Proof.
  induction 1 as [|lg i _ IH|lg _ IH].
  - exact well_keyed_create.
  - now apply well_keyed_identify.
  - destruct IH as [Hnd Hent]. split; assumption.
Qed.

(** The key of the next teammate is not in the table. *)
Lemma next_key_fresh (lg : t) :
  well_keyed lg ->
  map_get ("T" ++ decimal (S (teammateIndex lg))) (sessions lg) = None.
Proof.
  intros [_ Hent]. apply map_get_none. intros Hin.
  apply in_map_iff in Hin. destruct Hin as [[k s] [Hk Hin]]. simpl in Hk. subst k.
  destruct (Hent _ s Hin) as [_ [Ht Ho]].
  destruct (type s) eqn:Hty.
  - destruct Ho as [H|H]; [congruence| |]; discriminate.
  - destruct (Ht eq_refl) as [j [Hj Heq]]. injection Heq as Heq.
    apply decimal_inj in Heq. lia.
  - destruct Ho as [H|H]; [congruence| |]; discriminate.
Qed.

(** *** Names *)

Lemma word_at_nonempty (s n : string) : word_at s = Some n -> n <> "".
Proof.
  unfold word_at. destruct s as [|c r]; [discriminate|].
  destruct (is_word c); [|discriminate]. intros [= <-]. discriminate.
Qed.

Lemma name_at_nonempty quotes (s n : string) :
  name_at quotes s = Some n -> n <> "".
Proof.
  unfold name_at. destruct s as [|c r]; [discriminate|].
  destruct (quotes c).
  - destruct (word_at r) eqn:Hw.
    + intros [= <-]. now apply word_at_nonempty in Hw.
    + apply word_at_nonempty.
  - apply word_at_nonempty.
Qed.

Lemma and_then_some {A B} (a : option A) (k : A -> option B) (b : B) :
  and_then a k = Some b -> exists x, a = Some x /\ k x = Some b.
Proof. destruct a as [x|]; simpl; [|discriminate]. intros H. now exists x. Qed.

Lemma or_try_some {A} (a b : option A) (x : A) :
  or_try a b = Some x -> a = Some x \/ b = Some x.
Proof. destruct a; simpl; intros H; [left|right]; assumption. Qed.

Lemma leftmost_some (at_head : string -> option string) (s n : string) :
  leftmost at_head s = Some n -> exists x, at_head x = Some n.
Proof.
  induction s as [|c r IH]; simpl.
  - destruct (at_head "") eqn:H; [|discriminate]. intros [= <-]. now exists "".
  - destruct (at_head (String c r)) eqn:H.
    + intros [= <-]. now exists (String c r).
    + exact IH.
Qed.

Lemma named_at_nonempty (s n : string) : named_at s = Some n -> n <> "".
Proof.
  unfold named_at. intros H.
  apply and_then_some in H. destruct H as [r [_ H]].
  apply or_try_some in H. destruct H as [H|H].
  - apply and_then_some in H. destruct H as [r1 [_ H]].
    apply and_then_some in H. destruct H as [r2 [_ H]].
    now apply name_at_nonempty in H.
  - apply and_then_some in H. destruct H as [r2 [_ H]].
    now apply name_at_nonempty in H.
Qed.

Lemma lazy_named_unfold (s : string) :
  lazy_named s
  = match named_at s with
    | Some n => Some n
    | None =>
        match s with
        | String c r => if is_line_terminator c then None else lazy_named r
        | "" => None
        end
    end.
Proof. destruct s; reflexivity. Qed.

Lemma lazy_named_nonempty (s n : string) : lazy_named s = Some n -> n <> "".
Proof.
  induction s as [|c r IH]; rewrite lazy_named_unfold.
  - destruct (named_at "") eqn:H; [|discriminate].
    intros [= <-]. now apply named_at_nonempty in H.
  - destruct (named_at (String c r)) eqn:H.
    + intros [= <-]. now apply named_at_nonempty in H.
    + destruct (is_line_terminator c); [discriminate|exact IH].
Qed.

Lemma extractName_nonempty (s n : string) : extractName s = Some n -> n <> "".
Proof.
  unfold extractName, pattern1, pattern2, pattern3. intros H.
  apply or_try_some in H. destruct H as [H|H].
  - apply leftmost_some in H. destruct H as [x H].
    apply and_then_some in H. destruct H as [r [_ H]].
    now apply lazy_named_nonempty in H.
  - apply or_try_some in H. destruct H as [H|H];
      apply leftmost_some in H; destruct H as [x H];
      apply and_then_some in H; destruct H as [r [_ H]].
    + apply or_try_some in H. destruct H as [H|H].
      * apply and_then_some in H. destruct H as [r1 [_ H]].
        apply and_then_some in H. destruct H as [r2 [_ H]].
        now apply name_at_nonempty in H.
      * apply and_then_some in H. destruct H as [r2 [_ H]].
        now apply name_at_nonempty in H.
    + now apply name_at_nonempty in H.
Qed.

(** *** Teammate requests *)

(** C8, as amended.  A teammate request (some tools, teammate phrase)
    that finds teammate sessions whose last message count is below its
    own by 0 to 8 joins one of them with the smallest such gap: that
    session gets the new count and one more request, and nothing else in
    the table changes.  If it finds none, a session is created at the end
    of the table under the next sequential key T(n+1); its label is the
    name extracted from the system text when there is one, and that key
    otherwise.  Starting from a new logger, teammate requests with 4, 6
    and 30 messages get the sessions T1, T1 and T2. *)
Theorem teammate_correlation :
  (forall lg i,
     reachable lg ->
     is_zero (toolCount i) = false ->
     isTeammate i = true ->
     let count := msgCount i in
     let found := fst (identify lg i) in
     let lg' := snd (identify lg i) in
     ((exists k s, In (k, s) (sessions lg) /\ eligible count s) ->
      exists k0 s0,
        In (k0, s0) (sessions lg) /\ eligible count s0
        /\ (forall k s, In (k, s) (sessions lg) -> eligible count s ->
            count - lastMsgCount s0 <= count - lastMsgCount s)
        /\ found = touch s0 count
        /\ sessions lg' = map_update k0 found (sessions lg)
        /\ map_get k0 (sessions lg') = Some found
        /\ List.length (sessions lg') = List.length (sessions lg)
        /\ teammateIndex lg' = teammateIndex lg)
     /\ ((forall k s, In (k, s) (sessions lg) -> ~ eligible count s) ->
         let k := "T" ++ decimal (S (teammateIndex lg)) in
         map_get k (sessions lg) = None
         /\ key found = k
         /\ type found = teammate
         /\ lastMsgCount found = count
         /\ requestCount found = 1
         /\ label found = match extractName (systemText i) with
                          | Some name => name
                          | None => k
                          end
         /\ sessions lg' = (sessions lg ++ [(k, found)])%list
         /\ teammateIndex lg' = S (teammateIndex lg)))
  /\ (forall i1 i2 i3,
        is_zero (toolCount i1) = false -> isTeammate i1 = true ->
        is_zero (toolCount i2) = false -> isTeammate i2 = true ->
        is_zero (toolCount i3) = false -> isTeammate i3 = true ->
        msgCount i1 = 4 -> msgCount i2 = 6 -> msgCount i3 = 30 ->
        let r1 := identify create i1 in
        let r2 := identify (snd r1) i2 in
        let r3 := identify (snd r2) i3 in
        key (fst r1) = "T1" /\ key (fst r2) = "T1" /\ key (fst r3) = "T2"
        /\ fst r2 = touch (fst r1) 6
        /\ List.map fst (sessions (snd r3)) = ["T1"; "T2"]).
Proof.
  split.
  - intros lg i Hreach Htools Hteam count found lg'.
    pose proof (reachable_well_keyed lg Hreach) as Hwk.
    pose proof (scan_best count (sessions lg)) as Hbest.
    subst found lg'. unfold identify. rewrite Htools, Hteam.
    simpl negb. cbv iota. fold count.
    destruct (scan count (sessions lg)) as [[s0|] [g|]];
      simpl in Hbest; try contradiction; simpl fst; cbv iota.
    + destruct Hbest as [[k0 Hin0] [He0 [Hg Hmin]]].
      destruct Hwk as [Hnd Hent].
      destruct (Hent k0 s0 Hin0) as [Hk _].
      split.
      * intros _. exists k0, s0. simpl. rewrite Hk.
        split; [exact Hin0|]. split; [exact He0|].
        split; [intros k s Hin He; rewrite <- Hg; now apply (Hmin k s)|].
        split; [reflexivity|]. split; [reflexivity|].
        split; [|split; [apply map_update_length|reflexivity]].
        apply map_update_get. change k0 with (fst (k0, s0)). now apply in_map.
      * intros Hnone. exfalso. exact (Hnone k0 s0 Hin0 He0).
    + split.
      * intros [k [s [Hin He]]]. exfalso. exact (Hbest k s Hin He).
      * intros _. cbv zeta.
        pose proof (next_key_fresh lg Hwk) as Hfresh.
        unfold getOrCreate. simpl sessions. simpl teammateIndex.
        simpl in Hfresh. simpl. rewrite Hfresh. simpl.
        repeat split.
        destruct (extractName (systemText i)) as [name|] eqn:Hname;
          [|reflexivity].
        apply extractName_nonempty in Hname. apply String.eqb_neq in Hname.
        now rewrite Hname.
  - intros [t1 c1 b1 y1] [t2 c2 b2 y2] [t3 c3 b3 y3]. simpl.
    intros H1 -> H2 -> H3 -> -> -> ->.
    unfold identify. simpl. rewrite H1, H2, H3. simpl.
    repeat split.
Qed.

End Correlator.

Lemma teammate_correlation_witness :
  reachable Logger.create
  /\ Logger.key (fst (Logger.identify Logger.create
                        (Sample.teammate_info 4 "You help the team lead.")))
     = "T1"
  /\ exists k0 s0,
       In (k0, s0)
         (Logger.sessions
            (snd (Logger.identify Logger.create
                    (Sample.teammate_info 4 "You help the team lead."))))
       /\ fst (Logger.identify
                 (snd (Logger.identify Logger.create
                         (Sample.teammate_info 4 "You help the team lead.")))
                 (Sample.teammate_info 6 "You help the team lead."))
          = Logger.touch s0 6.
Proof.
  split; [exact reach_create|]. split.
  - exact (proj1 (proj2
             (proj2 (proj1 teammate_correlation Logger.create
                       (Sample.teammate_info 4 "You help the team lead.")
                       reach_create eq_refl eq_refl)
                (fun k s (H : In (k, s) []) => match H with end)))).
  - destruct (proj1 (proj1 teammate_correlation
                       (snd (Logger.identify Logger.create
                               (Sample.teammate_info 4 "You help the team lead.")))
                       (Sample.teammate_info 6 "You help the team lead.")
                       (reach_identify _ _ reach_create) eq_refl eq_refl))
      as [k0 [s0 [Hin [_ [_ [Hfound _]]]]]].
    + eexists _, _. split; [left; reflexivity|].
      split; [reflexivity|simpl; lia].
    + exists k0, s0. split; [exact Hin|exact Hfound].
Defined.

(** C8 as stated fails in two places.  A new teammate whose system text
    names it is labelled with that name, not with the sequential key.
    And requests with 4 then 6 messages need not share a session: after
    teammate requests with 5 and 3 messages have opened T1 and T2, the
    one with 4 messages joins T2 (gap 1) and the one with 6 joins T1
    (gap 1, against 2 for T2). *)
Lemma teammate_label_and_sharing :
  (Logger.key
     (fst (Logger.identify Logger.create
             (Sample.teammate_info 4
                "The user interacts primarily with the team lead. Your name is alice.")))
   = "T1"
   /\ Logger.label
        (fst (Logger.identify Logger.create
                (Sample.teammate_info 4
                   "The user interacts primarily with the team lead. Your name is alice.")))
      = "alice")
  /\ (let after5 := snd (Logger.identify Logger.create (Sample.teammate_info 5 "")) in
      let after3 := snd (Logger.identify after5 (Sample.teammate_info 3 "")) in
      let with4 := Logger.identify after3 (Sample.teammate_info 4 "") in
      let with6 := Logger.identify (snd with4) (Sample.teammate_info 6 "") in
      Logger.key (fst with4) = "T2" /\ Logger.key (fst with6) = "T1").
Proof. repeat split. Qed.

(* ================================================================== *)
(** ** Upstream addresses and relayed headers *)

Section Addresses.
Import JS Proxy.

Lemma append_assoc (a b c : string) : (a ++ b) ++ c = a ++ (b ++ c).
Proof. induction a as [|x a IH]; simpl; [reflexivity|now rewrite IH]. Qed.

Lemma append_nil_r (a : string) : a ++ "" = a.
Proof. induction a as [|x a IH]; simpl; [reflexivity|now rewrite IH]. Qed.

Lemma endsWith_unfold (s p : string) :
  endsWith s p
  = if (s =? p)%string then true
    else match s with
         | "" => false
         | String _ r => endsWith r p
         end.
Proof. destruct s; reflexivity. Qed.

Lemma endsWith_iff (s p : string) : endsWith s p = true <-> suffix_of p s.
Proof.
  induction s as [|c s IH]; rewrite endsWith_unfold.
  - destruct ("" =? p)%string eqn:H.
    + apply String.eqb_eq in H. subst. split; [|reflexivity].
      intros _. now exists "".
    + split; [discriminate|]. intros [a Ha].
      destruct a; simpl in Ha; [|discriminate].
      subst. now rewrite String.eqb_refl in H.
  - destruct (String c s =? p)%string eqn:H.
    + apply String.eqb_eq in H. subst. split; [|reflexivity].
      intros _. now exists "".
    + rewrite IH. split.
      * intros [a Ha]. exists (String c a). simpl. now rewrite Ha.
      * intros [a Ha]. destruct a as [|c' a]; simpl in Ha.
        -- subst. now rewrite String.eqb_refl in H.
        -- injection Ha as _ Ha. now exists a.
Qed.

Lemma strip_slashes_unfold (c : ascii) (r : string) :
  strip_slashes (String c r)
  = if ((strip_slashes r =? "")%string && (c =? "/")%char)%bool then ""
    else String c (strip_slashes r).
Proof. reflexivity. Qed.

Lemma strip_slashes_slash (s : string) :
  strip_slashes (s ++ "/") = strip_slashes s.
Proof.
  induction s as [|c s IH]; [reflexivity|].
  change (String c s ++ "/") with (String c (s ++ "/")).
  now rewrite !strip_slashes_unfold, IH.
Qed.

Lemma append_slashes (s : string) (k : nat) :
  s ++ slashes (S k) = (s ++ "/") ++ slashes k.
Proof. now rewrite append_assoc. Qed.

Lemma strip_slashes_slashes (s : string) (k : nat) :
  strip_slashes (s ++ slashes k) = strip_slashes s.
Proof.
  revert s. induction k as [|k IH]; intros s.
  - simpl. now rewrite append_nil_r.
  - now rewrite append_slashes, IH, strip_slashes_slash.
Qed.

Lemma no_slash_suffix_nil : ~ suffix_of "/" "".
Proof. intros [a Ha]. destruct a; discriminate. Qed.

Lemma suffix_cons (c : ascii) (r p : string) :
  r <> "" -> suffix_of p (String c r) -> p = String c r \/ suffix_of p r.
Proof.
  intros Hr [a Ha]. destruct a as [|c' a]; simpl in Ha.
  - now left.
  - right. injection Ha as _ Ha. now exists a.
Qed.

Lemma strip_slashes_run (s : string) :
  (exists k, s = strip_slashes s ++ slashes k)
  /\ ~ suffix_of "/" (strip_slashes s).
Proof.
  induction s as [|c s [[k Hk] Hno]].
  - split; [now exists 0%nat|exact no_slash_suffix_nil].
  - rewrite strip_slashes_unfold.
    destruct (strip_slashes s =? "")%string eqn:He.
    + apply String.eqb_eq in He. rewrite He in *. simpl in Hk.
      destruct (c =? "/")%char eqn:Hc; simpl andb; cbv iota.
      * apply Ascii.eqb_eq in Hc. subst c. split.
        -- exists (S k). simpl. now rewrite <- Hk.
        -- exact no_slash_suffix_nil.
      * split.
        -- exists k. simpl. now rewrite <- Hk.
        -- intros [a Ha]. destruct a as [|c' a]; simpl in Ha.
           ++ injection Ha as Ha. subst. now rewrite Ascii.eqb_refl in Hc.
           ++ injection Ha as _ Ha. destruct a; discriminate.
    + simpl andb. cbv iota. split.
      * exists k. simpl. now rewrite <- Hk.
      * intros Hsuf. apply suffix_cons in Hsuf.
        -- destruct Hsuf as [Heq|Hsuf]; [|contradiction].
           injection Heq as _ Heq. rewrite <- Heq in He. discriminate.
        -- intros Heq. rewrite Heq in He. discriminate.
Qed.

Lemma slashes_snoc (k : nat) : slashes (S k) = slashes k ++ "/".
Proof. induction k as [|k IH]; [reflexivity|]. simpl in *. now rewrite <- IH. Qed.

Lemma strip_slashes_fixed (s : string) :
  ~ suffix_of "/" s -> strip_slashes s = s.
Proof.
  intros Hno. destruct (strip_slashes_run s) as [[k Hk] _].
  destruct k as [|k]; [simpl in Hk; now rewrite append_nil_r in Hk|].
  exfalso. apply Hno. exists (strip_slashes s ++ slashes k).
  now rewrite append_assoc, <- slashes_snoc.
Qed.

(** X1.  [strip_slashes] removes exactly the run of slashes the address
    ends with: the address is the result followed by slashes only, and the
    result does not end with a slash; so an address that does not end
    with a slash is returned as it is, and the result does not depend on
    how many slashes the address ends with. *)
Theorem strip_slashes_spec (s : string) :
  (exists k, s = strip_slashes s ++ slashes k)
  /\ ~ suffix_of "/" (strip_slashes s)
  /\ (~ suffix_of "/" s -> strip_slashes s = s)
  /\ (forall k, strip_slashes (s ++ slashes k) = strip_slashes s).
Proof.
  destruct (strip_slashes_run s) as [Hrun Hno].
  split; [exact Hrun|]. split; [exact Hno|].
  split; [apply strip_slashes_fixed|apply strip_slashes_slashes].
Qed.

Lemma length_app (a b : string) :
  String.length (a ++ b) = (String.length a + String.length b)%nat.
Proof. induction a as [|c a IH]; simpl; [reflexivity|now rewrite IH]. Qed.

Lemma same_tail (a b x y : string) :
  a ++ x = b ++ y -> String.length x = String.length y -> x = y.
Proof.
  revert b. induction a as [|c a IH]; intros b H Hlen.
  - destruct b as [|d b]; [exact H|]. simpl in H.
    apply (f_equal String.length) in H. simpl in H. rewrite length_app in H. lia.
  - destruct b as [|d b]; simpl in H.
    + apply (f_equal String.length) in H. simpl in H. rewrite length_app in H. lia.
    + injection H as _ H. now apply (IH b).
Qed.

Lemma messages_no_slash (m : string) :
  suffix_of "/v1/messages" m -> ~ suffix_of "/" m.
Proof.
  intros [a Ha] [b Hb]. rewrite Ha in Hb.
  change "/v1/messages" with ("/v1/message" ++ "s") in Hb.
  rewrite <- append_assoc in Hb.
  apply same_tail in Hb; [discriminate|reflexivity].
Qed.

(** X2.  The address [normalizeAnthropicMessagesUrl] builds from a base
    URL always ends with /v1/messages (followed by /count_tokens when
    asked); a base that already ends with /v1/messages is not extended a
    second time; slashes at the end of the base make no difference; and
    normalizing an address already normalized returns it unchanged. *)
Theorem normalized_address (baseUrl : string) :
  suffix_of "/v1/messages" (normalizeAnthropicMessagesUrl baseUrl false)
  /\ normalizeAnthropicMessagesUrl baseUrl true
     = normalizeAnthropicMessagesUrl baseUrl false ++ "/count_tokens"
  /\ (suffix_of "/v1/messages" (strip_slashes baseUrl) ->
      normalizeAnthropicMessagesUrl baseUrl false = strip_slashes baseUrl)
  /\ (~ suffix_of "/v1/messages" (strip_slashes baseUrl) ->
      normalizeAnthropicMessagesUrl baseUrl false
      = strip_slashes baseUrl ++ "/v1/messages")
  /\ (forall k c,
        normalizeAnthropicMessagesUrl (baseUrl ++ slashes k) c
        = normalizeAnthropicMessagesUrl baseUrl c)
  /\ normalizeAnthropicMessagesUrl
       (normalizeAnthropicMessagesUrl baseUrl false) false
     = normalizeAnthropicMessagesUrl baseUrl false.
Proof.
  assert (Hend : suffix_of "/v1/messages"
                   (normalizeAnthropicMessagesUrl baseUrl false)).
  { unfold normalizeAnthropicMessagesUrl. cbv zeta.
    destruct (endsWith (strip_slashes baseUrl) "/v1/messages") eqn:H.
    - now apply endsWith_iff.
    - now exists (strip_slashes baseUrl). }
  split; [exact Hend|]. split; [reflexivity|]. split; [|split; [|split]].
  - intros H. apply endsWith_iff in H.
    unfold normalizeAnthropicMessagesUrl. cbv zeta. now rewrite H.
  - intros H. unfold normalizeAnthropicMessagesUrl. cbv zeta.
    destruct (endsWith (strip_slashes baseUrl) "/v1/messages") eqn:He;
      [|reflexivity].
    apply endsWith_iff in He. contradiction.
  - intros k c. unfold normalizeAnthropicMessagesUrl.
    now rewrite strip_slashes_slashes.
  - set (m := normalizeAnthropicMessagesUrl baseUrl false) in *.
    unfold normalizeAnthropicMessagesUrl at 1. cbv zeta.
    rewrite (strip_slashes_fixed m (messages_no_slash m Hend)).
    apply endsWith_iff in Hend. now rewrite Hend.
Qed.


End Addresses.

(* ================================================================== *)
(** ** Bounds of the retry loop *)

Section RetryBounds.
Import JS Proxy.
Variable W : World.
Variables (url : string) (headers : list (string * string)) (payload : string).

Lemma retryFrom_trace (turns : nat) :
  forall attempt upstream s,
    0 <= attempt -> attempt + Z.of_nat turns = MAX_RETRIES ->
    exists k, (k <= turns)%nat
      /\ snd (retryFrom (fetch W url headers payload) (S turns) attempt
                upstream s)
         = advance s (backoff_events (Fetch url headers payload) attempt k)
             (k + 1).
Proof.
  induction turns as [|turns IH]; intros attempt upstream s H0 Hsum;
    destruct (reply W (calls s)) as [r|e] eqn:Hr.
  - exists 0%nat. split; [lia|].
    destruct (Z.eq_dec (status r) 429) as [Hs|Hs].
    + rewrite retryFrom_last with (r := r) (s1 := advance s [Fetch url headers payload] 1);
        [reflexivity|now rewrite fetch_run, Hr|exact Hs|lia].
    + rewrite retryFrom_break with (r := r) (s1 := advance s [Fetch url headers payload] 1);
        [reflexivity|now rewrite fetch_run, Hr|exact Hs].
  - exists 0%nat. split; [lia|].
    rewrite retryFrom_throw with (e := e) (s1 := advance s [Fetch url headers payload] 1);
      [reflexivity|now rewrite fetch_run, Hr].
  - destruct (Z.eq_dec (status r) 429) as [Hs|Hs].
    + rewrite retryFrom_wait with (r := r) (s1 := advance s [Fetch url headers payload] 1);
        [|now rewrite fetch_run, Hr|exact Hs|lia].
      destruct (IH (attempt + 1) (Some r)
                  (advance (advance s [Fetch url headers payload] 1)
                     [LogRetry (attempt + 1) (waitMs attempt);
                      Wait (waitMs attempt)] 0)) as [k [Hk Hrun]]; [lia|lia|].
      exists (S k). split; [lia|]. rewrite Hrun, !advance_advance.
      apply advance_eq; [reflexivity|lia].
    + exists 0%nat. split; [lia|].
      rewrite retryFrom_break with (r := r) (s1 := advance s [Fetch url headers payload] 1);
        [reflexivity|now rewrite fetch_run, Hr|exact Hs].
  - exists 0%nat. split; [lia|].
    rewrite retryFrom_throw with (e := e) (s1 := advance s [Fetch url headers payload] 1);
      [reflexivity|now rewrite fetch_run, Hr].
Qed.

(** X4.  Whatever the upstream answers, and whether its calls resolve or
    reject, one run of the retry loop makes at least one and at most six
    calls, waits after each call but the last, never more than 10000 ms
    at a time and 25000 ms in all, and touches nothing but the trace and
    the call counter. *)
Theorem retry_is_bounded (s : state) :
  exists k, (k <= 5)%nat
    /\ snd (retry (fetch W url headers payload) s)
       = advance s (backoff_events (Fetch url headers payload) 0 k) (k + 1)
    /\ posts (backoff_events (Fetch url headers payload) 0 k) = S k
    /\ List.length (delays (backoff_events (Fetch url headers payload) 0 k))
       = k
    /\ Forall (fun ms => 1000 <= ms <= 10000)
         (delays (backoff_events (Fetch url headers payload) 0 k))
    /\ total_wait (delays (backoff_events (Fetch url headers payload) 0 k))
       <= 25000.
Proof.
  destruct (retryFrom_trace 5 0 None s) as [k [Hk Hrun]]; [lia|reflexivity|].
  exists k. split; [exact Hk|]. split; [exact Hrun|].
  split; [apply (backoff_posts url headers payload)|].
  change 0 with (Z.of_nat 0).
  rewrite (backoff_delays url headers payload k 0).
  do 6 (destruct k as [|k]; [vm_compute; repeat split;
                             repeat constructor; discriminate|]).
  lia.
Qed.

End RetryBounds.

(* ================================================================== *)
(** ** The handler as a whole *)

Section Whole.
Import JS Conv Proxy.
Context {E : Engine} {T : Translators}.
Variable config : ProxyConfig.
Variable W : World.

(** *** The first upstream call of the Chat Completions branch *)

Lemma lookup_obj_set_same k v o : lookup k (obj_set k v o) = v.
Proof.
  induction o as [|[k' v'] o IH]; simpl.
  - now rewrite String.eqb_refl.
  - destruct (k =? k')%string eqn:H; simpl; now rewrite H.
Qed.

Lemma lookup_obj_set_other k k1 v o :
  k1 <> k -> lookup k1 (obj_set k v o) = lookup k1 o.
Proof.
  intros Hne. induction o as [|[k' v'] o IH]; simpl.
  - apply String.eqb_neq in Hne. now rewrite Hne.
  - destruct (k =? k')%string eqn:H; simpl.
    + apply String.eqb_eq in H. subst k'.
      apply String.eqb_neq in Hne. now rewrite Hne.
    + now rewrite IH.
Qed.

Lemma lookup_obj_delete_same k o : lookup k (obj_delete k o) = Undefined.
Proof.
  unfold obj_delete. induction o as [|[k' v'] o IH]; simpl; [reflexivity|].
  destruct (k =? k')%string eqn:H; simpl; [exact IH|now rewrite H].
Qed.

Lemma lookup_obj_delete_other k k1 o :
  k1 <> k -> lookup k1 (obj_delete k o) = lookup k1 o.
Proof.
  intros Hne. unfold obj_delete.
  induction o as [|[k' v'] o IH]; simpl; [reflexivity|].
  destruct (k =? k')%string eqn:H; simpl.
  - apply String.eqb_eq in H. subst k'.
    apply String.eqb_neq in Hne. now rewrite Hne.
  - now rewrite IH.
Qed.

Lemma backoff_head (post : event) (a : Z) (k : nat) :
  exists tl, backoff_events post a k = post :: tl.
Proof. destruct k; simpl; eexists; reflexivity. Qed.

(** The trace of the Chat Completions branch, whatever the upstream
    does *)
Lemma openai_trace headers payload lg (req : value) (d : Routing)
  (oreq : list (string * value)) :
  targetProvider config <> "chatgpt" ->
  JSON_parse payload = Val req ->
  route config req = Val d ->
  isPassthrough d = false ->
  printable (get_opt req "model") -> printable (toolCount d) ->
  translateRequest req (targetModel config) = Val oreq ->
  exists k rest,
    (k <= 5)%nat
    /\ events (snd (messages config W headers payload (fresh lg)))
       = ([LogRequest false; Translate ToChatCompletions]
          ++ backoff_events (openai_post config oreq (isStreaming d)) 0 k
          ++ rest)%list
    /\ quiet rest
    /\ calls (snd (messages config W headers payload (fresh lg))) = S k.
Proof.
  intros Hprov Hparse Hroute Hpass Hm Ht Htr.
  remember (messages config W headers payload (fresh lg)) as out eqn:Hout.
  rewrite (messages_routed config W _ _ _ _ _ Hparse Hroute Hm Ht) in Hout.
  unfold branch_of in Hout.
  rewrite Hpass, (provider_other config Hprov) in Hout.
  unfold try_catch, openaiBranch in Hout. cbv zeta in Hout.
  rewrite (bind_val _ _ _ _ _ (emit_run _ _)) in Hout.
  rewrite (lift_val _ _ oreq _ Htr) in Hout.
  rewrite openai_post_eq.
  match type of Hout with
  | context [retry (fetch W ?u ?h ?p)] =>
      destruct (retry_outcome W u h p
                  (advance (routed lg req d) [Translate ToChatCompletions] 0))
        as [k [o1 [Hk [Hrun Hres]]]]
  end.
  unfold bind at 1 in Hout. rewrite Hrun, advance_advance in Hout.
  exists k.
  destruct Hres as [[e ->]|[r ->]]; cbv beta iota in Hout.
  - destruct out as [o4 s4]. symmetry in Hout.
    destruct (Quiet_onError _ _ _ _ Hout) as [rest [Hev [Hq [Hc _]]]].
    exists rest. cbn [snd]. split; [exact Hk|].
    split; [rewrite Hev; simpl; rewrite Hpass; reflexivity|].
    split; [exact Hq|]. rewrite Hc. simpl. lia.
  - destruct out as [o4 s4]. symmetry in Hout.
    destruct (Quiet_try_catch _ _ (Quiet_respondOpenAI config W _ _ _)
                Quiet_onError _ _ _ Hout) as [rest [Hev [Hq [Hc _]]]].
    exists rest. cbn [snd]. split; [exact Hk|].
    split; [rewrite Hev; simpl; rewrite Hpass; reflexivity|].
    split; [exact Hq|]. rewrite Hc. simpl. lia.
Qed.

(** X5.  On the Chat Completions branch, for a request whose model and
    tool count can be printed, the first thing the handler does after
    logging the request is to translate it and POST the result to the
    configured target URL (https://api.openai.com/v1/chat/completions
    when none is set), with an Authorization header only when an API key
    is configured.  For a streaming request the body is the translated
    request as it is; for a request with [stream: false] it is the
    translated request with [stream] set to false and [stream_options]
    removed, every other field unchanged. *)
Theorem openai_first_call
  (headers : list (string * string)) (payload : string) (lg : Logger.t)
  (req : value) (d : Routing) (oreq : list (string * value)) :
  targetProvider config <> "chatgpt" ->
  JSON_parse payload = Val req ->
  route config req = Val d ->
  isPassthrough d = false ->
  printable (get_opt req "model") -> printable (toolCount d) ->
  translateRequest req (targetModel config) = Val oreq ->
  exists posted rest,
    events (snd (messages config W headers payload (fresh lg)))
    = ([LogRequest false; Translate ToChatCompletions;
        Fetch
          match targetUrl config with
          | Some u =>
              if (u =? "")%string
              then "https://api.openai.com/v1/chat/completions" else u
          | None => "https://api.openai.com/v1/chat/completions"
          end
          (("Content-Type", "application/json")
           :: match openaiApiKey config with
              | Some k =>
                  if (k =? "")%string then []
                  else [("Authorization", ("Bearer " ++ k)%string)]
              | None => []
              end)
          (JSON_stringify (Obj posted))] ++ rest)%list
    /\ (isStreaming d = true -> posted = oreq)
    /\ (isStreaming d = false ->
        lookup "stream" posted = Bool false
        /\ lookup "stream_options" posted = Undefined
        /\ forall k, k <> "stream" -> k <> "stream_options" ->
             lookup k posted = lookup k oreq).
Proof.
  intros Hprov Hparse Hroute Hpass Hm Ht Htr.
  destruct (openai_trace headers payload lg req d oreq Hprov Hparse Hroute
              Hpass Hm Ht Htr) as [k [rest [_ [Hev _]]]].
  destruct (backoff_head (openai_post config oreq (isStreaming d)) 0 k)
    as [tl Htl].
  exists (if isStreaming d then oreq
          else obj_delete "stream_options"
                 (obj_set "stream" (Bool false) oreq)),
    (tl ++ rest)%list.
  split; [|split].
  - rewrite Hev, Htl. unfold openai_post, obj_delete. reflexivity.
  - intros ->. reflexivity.
  - intros ->. split; [|split].
    + rewrite lookup_obj_delete_other by discriminate.
      apply lookup_obj_set_same.
    + apply lookup_obj_delete_same.
    + intros k' H1 H2. rewrite lookup_obj_delete_other by exact H2.
      now apply lookup_obj_set_other.
Qed.

(** *** Passthrough *)

Lemma relay_run (chunks : list string) (rejected : option exn) :
  forall s, writableEnded (res s) = false ->
    relay chunks rejected s
    = (match rejected with
       | Some e => Throw e
       | None => Val tt
       end,
       with_res (fun r => {| head := head r; sent := sent r ++ chunks;
                             writableEnded := false |}) s).
Proof.
  induction chunks as [|c rest IH]; intros s Hs.
  - simpl.
    assert (Hsame : with_res (fun r => {| head := head r; sent := sent r ++ [];
                                          writableEnded := false |}) s = s).
    { destruct s as [[h st w] ev c lg se rm]. unfold with_res.
      simpl in *. subst. now rewrite app_nil_r. }
    rewrite Hsame. now destruct rejected.
  - simpl. rewrite read_res_bind, Hs.
    unfold bind at 1. unfold write at 1. rewrite IH.
    + unfold with_res. simpl. rewrite Hs. simpl. now rewrite <- app_assoc.
    + unfold with_res. simpl. now rewrite Hs.
Qed.

(** An upstream reply relayed: the status line and headers, the chunks
    of the body, and the response ended whether or not the body broke
    off; the error of a broken body is thrown on. *)
Lemma handlePassthrough_ok payload headers url onStatus (s : state)
  (up : Response) (evs : list event) :
  res s = blank ->
  reply W (calls s) = Val up ->
  (forall s', onStatus (status up) s' = (Val tt, advance s' evs 0)) ->
  handlePassthrough W payload headers url onStatus s
  = (match cut_short up with
     | Some e => Throw e
     | None => Val tt
     end,
     with_res (fun _ => {| head := Some (status up, relayed_headers up);
                           sent := chunks_of up;
                           writableEnded := true |})
       (advance s (Fetch url (forwardHeaders headers) payload :: evs) 1)).
Proof.
  intros Hres Hreply Hon. unfold handlePassthrough.
  unfold bind at 1. rewrite fetch_run, Hreply.
  rewrite (bind_val _ _ _ tt _ (Hon _)). rewrite advance_advance.
  unfold bind at 1, writeHead at 1. rewrite res_advance, Hres.
  cbn [head blank]. unfold chunks_of, cut_short.
  destruct (body up) as [b|].
  - unfold try_finally.
    match goal with
    | |- context [relay ?c ?rj ?st] =>
        assert (Hw : writableEnded (res st) = false)
          by (simpl; now rewrite Hres);
        rewrite (relay_run c rj st Hw)
    end.
    unfold safeEnd, bind, read_res, end_, with_res, relayed_headers, opt_or.
    simpl. rewrite Hres. simpl. now destruct (rejected b).
  - unfold safeEnd, bind, read_res, end_, with_res, relayed_headers, opt_or.
    simpl. rewrite Hres. reflexivity.
Qed.

Lemma handlePassthrough_fail payload headers url onStatus (s : state) (e : exn) :
  reply W (calls s) = Throw e ->
  handlePassthrough W payload headers url onStatus s
  = (Throw e, advance s [Fetch url (forwardHeaders headers) payload] 1).
Proof.
  intros Hreply. unfold handlePassthrough.
  unfold bind at 1. now rewrite fetch_run, Hreply.
Qed.

Lemma opt_or_truthy (o : option string) (dflt : string) :
  (if opt_truthy o then opt_or o dflt else dflt) = opt_or o dflt.
Proof.
  destruct o as [x|]; simpl; [|reflexivity]. now destruct (x =? "")%string.
Qed.

Lemma Val_inj {A} (a b : A) : Val a = Val b -> a = b.
Proof. now intros [= ->]. Qed.

Lemma route_base (req : value) (d : Routing) :
  route config req = Val d ->
  passthroughBaseUrl d = relay_base config (fullText d).
Proof.
  unfold route. intros H.
  repeat match type of H with
  | rbind ?r _ = Val _ =>
      let e := fresh "e" in destruct r eqn:e; cbn [rbind] in H;
      [|discriminate]
  end.
  apply Val_inj in H. rewrite <- H.
  cbn [passthroughBaseUrl fullText]. unfold relay_base.
  change "hydra:lead" with LEAD_MARKER.
  destruct (list_includes (passthroughModels config) (Str "lead")
            && includes _ LEAD_MARKER); cbn [andb]; [|reflexivity].
  apply opt_or_truthy.
Qed.

(** What the passthrough branch logs for the upstream's status *)
Lemma onStatus_run (model : value) (code : Z) (s : state) :
  printable model ->
  (if 400 <=? code then logError model else ret tt) s
  = (Val tt, advance s (if 400 <=? code then [LogError] else []) 0).
Proof.
  intros Hp. destruct (400 <=? code).
  - now apply logError_run.
  - unfold ret. now rewrite advance_nil.
Qed.

(** X6.  A request to the main endpoint that is routed to passthrough,
    whose model and tool count can be printed, and that the upstream
    answers: exactly one upstream call is made, whatever the status (a
    429 is relayed, not retried), to the messages URL of the selected
    base, with the relayed headers and the request body as it was
    received; the client gets the upstream's status, its content type
    (text/event-stream when it has none) and the chunks of its body in
    order, and the response is ended; a status of 400 or more is logged
    as an error.  When the transfer of the body breaks off, the chunks
    read so far have been sent, the response is ended all the same, and
    the failure is logged as a further error. *)
Theorem passthrough_relays_once
  (headers : list (string * string)) (payload : string) (lg : Logger.t)
  (req : value) (d : Routing) (up : Response) :
  JSON_parse payload = Val req ->
  route config req = Val d ->
  isPassthrough d = true ->
  printable (get_opt req "model") -> printable (toolCount d) ->
  reply W 0 = Val up ->
  exists s1,
    messages config W headers payload (fresh lg) = (Val tt, s1)
    /\ res s1 = {| head := Some (status up, relayed_headers up);
                   sent := chunks_of up;
                   writableEnded := true |}
    /\ events s1
       = ([LogRequest true;
           Fetch (normalizeAnthropicMessagesUrl
                    (relay_base config (fullText d)) false)
             (forwardHeaders headers) payload]
          ++ (if 400 <=? status up then [LogError] else [])
          ++ match cut_short up with
             | Some _ => [LogError]
             | None => []
             end)%list
    /\ calls s1 = 1%nat.
Proof.
  intros Hparse Hroute Hpass Hm Ht Hreply.
  rewrite (messages_routed config W _ _ _ _ _ Hparse Hroute Hm Ht).
  unfold branch_of. rewrite Hpass. unfold try_catch.
  rewrite (handlePassthrough_ok _ _ _ _ _ up
             (if 400 <=? status up then [LogError] else []));
    [| reflexivity | exact Hreply
     | intros s'; now apply onStatus_run].
  destruct (cut_short up) as [e|].
  - match goal with
    | |- context [onError e ?s2] =>
        destruct (onError_logs e s2) as [ev [_ [Hsome [_ Hrun]]]];
          [now apply (printable_routed lg req d)|]
    end.
    rewrite Hrun, (Hsome _ eq_refl).
    eexists. split; [reflexivity|].
    split; [reflexivity|]. split; [|reflexivity].
    simpl. rewrite Hpass, (route_base _ _ Hroute).
    rewrite <- ?app_assoc. reflexivity.
  - eexists. split; [reflexivity|].
    split; [reflexivity|]. split; [|reflexivity].
    simpl. rewrite Hpass, (route_base _ _ Hroute), app_nil_r. reflexivity.
Qed.

(** X7.  A request to the main endpoint that is routed to passthrough,
    whose model and tool count can be printed, while the upstream cannot
    be reached ([fetch] rejects): the call is not repeated, the error is
    logged, and the client gets status 500 with the body
    { type: error, error: { type: api_error, message } } carrying the
    error's message. *)
Theorem passthrough_unreachable
  (headers : list (string * string)) (payload : string) (lg : Logger.t)
  (req : value) (d : Routing) (e : exn) :
  JSON_parse payload = Val req ->
  route config req = Val d ->
  isPassthrough d = true ->
  printable (get_opt req "model") -> printable (toolCount d) ->
  reply W 0 = Throw e ->
  exists s1,
    messages config W headers payload (fresh lg) = (Val tt, s1)
    /\ res s1
       = {| head := Some (500, [("Content-Type", "application/json")]);
            sent :=
              [JSON_stringify
                 (Obj [("type", Str "error");
                       ("error",
                        Obj [("type", Str "api_error");
                             ("message",
                              Str match e with
                                  | TypeError site => typeErrorMessage site
                                  | Error m => m
                                  | Thrown => "Internal proxy error"
                                  end)])])];
            writableEnded := true |}
    /\ events s1
       = [LogRequest true;
          Fetch (normalizeAnthropicMessagesUrl
                   (relay_base config (fullText d)) false)
            (forwardHeaders headers) payload;
          LogError]
    /\ calls s1 = 1%nat.
Proof.
  intros Hparse Hroute Hpass Hm Ht Hreply.
  rewrite (messages_routed config W _ _ _ _ _ Hparse Hroute Hm Ht).
  unfold branch_of. rewrite Hpass. unfold try_catch.
  rewrite (handlePassthrough_fail _ _ _ _ _ e) by exact Hreply.
  rewrite (onError_routed e lg req d _ _ Hm).
  eexists. split; [reflexivity|].
  split; [reflexivity|]. split; [|reflexivity].
  simpl. rewrite Hpass, (route_base _ _ Hroute). reflexivity.
Qed.

(** *** count_tokens *)

Lemma countTokens_relayed headers payload (s : state) parsed system st :
  JSON_parse payload = Val parsed ->
  countTokensPassthrough config parsed = Val true ->
  get parsed "system" = Val system ->
  extractSystemText system = Val st ->
  countTokens config W headers payload s
  = try_catch
      (handlePassthrough W payload headers
         (normalizeAnthropicMessagesUrl (relay_base config st) true)
         (fun _ => ret tt))
      (fun _ => sendJson 200 (Obj [("input_tokens", Num 1000)])) s.
Proof.
  intros Hparse Hpass Hsys Hext. unfold countTokens, try_catch.
  rewrite (lift_val _ _ parsed s Hparse).
  rewrite (lift_val _ _ true s Hpass).
  cbv iota.
  rewrite (lift_val _ _ system s Hsys).
  rewrite (lift_val _ _ st s Hext).
  cbv zeta. unfold relay_base.
  change "hydra:lead" with LEAD_MARKER.
  destruct (list_includes (passthroughModels config) (Str "lead")
            && includes st LEAD_MARKER); simpl andb; cbv iota;
    [rewrite opt_or_truthy|]; reflexivity.
Qed.

Lemma countTokensPassthrough_system parsed :
  countTokensPassthrough config parsed = Val true ->
  get parsed "system" = Val (get_opt parsed "system").
Proof.
  unfold countTokensPassthrough.
  destruct (get parsed "model") as [model|e] eqn:Hm; simpl; [|discriminate].
  intros _. destruct (get_total _ _ _ Hm "system") as [y Hy].
  rewrite Hy. f_equal. symmetry. now apply get_get_opt.
Qed.

(** The catch block of count_tokens once the relayed status line is
    out *)
Lemma default_after_head (s : state) h :
  head (res s) = Some h ->
  sendJson 200 (Obj [("input_tokens", Num 1000)]) s
  = (Throw (Error "Cannot write headers after they are sent to the client"),
     s).
Proof.
  intros Hh. unfold sendJson, bind, writeHead. now rewrite Hh.
Qed.

Lemma count_tokens_relayed_run
  (headers : list (string * string)) (payload : string) (lg : Logger.t)
  (parsed : value) (st : string) :
  JSON_parse payload = Val parsed ->
  countTokensPassthrough config parsed = Val true ->
  extractSystemText (get_opt parsed "system") = Val st ->
  countTokens config W headers payload (fresh lg)
  = match reply W 0 with
    | Throw _ =>
        (Val tt,
         {| res := json_reply 200 (Obj [("input_tokens", Num 1000)]);
            events :=
              [Fetch (normalizeAnthropicMessagesUrl (relay_base config st) true)
                 (forwardHeaders headers) payload];
            calls := 1; logger := lg; session := None;
            requestModel := Str "unknown" |})
    | Val up =>
        (match cut_short up with
         | Some _ =>
             Throw (Error
                      "Cannot write headers after they are sent to the client")
         | None => Val tt
         end,
         {| res := {| head := Some (status up, relayed_headers up);
                      sent := chunks_of up;
                      writableEnded := true |};
            events :=
              [Fetch (normalizeAnthropicMessagesUrl (relay_base config st) true)
                 (forwardHeaders headers) payload];
            calls := 1; logger := lg; session := None;
            requestModel := Str "unknown" |})
    end.
Proof.
  intros Hparse Hpass Hext.
  rewrite (countTokens_relayed headers payload (fresh lg) parsed _ st
             Hparse Hpass (countTokensPassthrough_system _ Hpass) Hext).
  unfold try_catch.
  destruct (reply W 0) as [up|e] eqn:Hreply.
  - rewrite (handlePassthrough_ok _ _ _ _ _ up []);
      [| reflexivity | exact Hreply
       | intros s'; unfold ret; now rewrite advance_nil].
    destruct (cut_short up) as [e|]; [|reflexivity].
    now rewrite (default_after_head _ (status up, relayed_headers up)).
  - rewrite (handlePassthrough_fail _ _ _ _ _ e) by exact Hreply.
    rewrite sendJson_blank by reflexivity. reflexivity.
Qed.

(** X8.  A count_tokens request whose guard sends it to passthrough.
    When the system text cannot be extracted (a null block, or a text
    that cannot be joined), no call is made and the answer is status 200
    with input_tokens 1000.  Otherwise exactly one upstream call is made,
    to the count_tokens URL of the base selected from the system text
    alone, with the relayed headers and the body as received, and
    nothing is logged: when the upstream cannot be reached the client
    still gets status 200 with input_tokens 1000; when it answers, its
    answer is relayed with its status and the response ended, and if the
    transfer of its body breaks off the handler throws once that is
    done, because its catch block writes the status line again. *)
Theorem count_tokens_passthrough
  (headers : list (string * string)) (payload : string) (lg : Logger.t)
  (parsed : value) :
  JSON_parse payload = Val parsed ->
  countTokensPassthrough config parsed = Val true ->
  (forall e, extractSystemText (get_opt parsed "system") = Throw e ->
     countTokens config W headers payload (fresh lg)
     = (Val tt,
        {| res :=
             {| head := Some (200, [("Content-Type", "application/json")]);
                sent := [JSON_stringify (Obj [("input_tokens", Num 1000)])];
                writableEnded := true |};
           events := []; calls := 0; logger := lg; session := None;
           requestModel := Str "unknown" |}))
  /\ (forall st, extractSystemText (get_opt parsed "system") = Val st ->
        (forall e, reply W 0 = Throw e ->
           countTokens config W headers payload (fresh lg)
           = (Val tt,
              {| res :=
                   {| head := Some (200, [("Content-Type", "application/json")]);
                      sent :=
                        [JSON_stringify (Obj [("input_tokens", Num 1000)])];
                      writableEnded := true |};
                 events :=
                   [Fetch (normalizeAnthropicMessagesUrl
                             (relay_base config st) true)
                      (forwardHeaders headers) payload];
                 calls := 1; logger := lg; session := None;
                 requestModel := Str "unknown" |}))
        /\ (forall up, reply W 0 = Val up ->
              countTokens config W headers payload (fresh lg)
              = (match cut_short up with
                 | Some _ =>
                     Throw
                       (Error
                          "Cannot write headers after they are sent to the client")
                 | None => Val tt
                 end,
                 {| res := {| head := Some (status up, relayed_headers up);
                              sent := chunks_of up;
                              writableEnded := true |};
                    events :=
                      [Fetch (normalizeAnthropicMessagesUrl
                                (relay_base config st) true)
                         (forwardHeaders headers) payload];
                    calls := 1; logger := lg; session := None;
                    requestModel := Str "unknown" |}))).
Proof.
  intros Hparse Hpass. split.
  - intros e Hext. unfold countTokens, try_catch.
    rewrite (lift_val _ _ parsed (fresh lg) Hparse).
    rewrite (lift_val _ _ true (fresh lg) Hpass).
    cbv iota.
    rewrite (lift_val _ _ _ (fresh lg) (countTokensPassthrough_system _ Hpass)).
    rewrite (lift_throw _ _ e (fresh lg) Hext).
    rewrite sendJson_blank by reflexivity. reflexivity.
  - intros st Hext.
    pose proof (count_tokens_relayed_run headers payload lg parsed st
                  Hparse Hpass Hext) as Hrun.
    split.
    + intros e Hreply. now rewrite Hreply in Hrun.
    + intros up Hreply. now rewrite Hreply in Hrun.
Qed.

Lemma countTokens_total
  (headers : list (string * string)) (payload : string) (lg : Logger.t) :
  exists o s1,
    countTokens config W headers payload (fresh lg) = (o, s1)
    /\ logger s1 = lg /\ session s1 = None /\ (calls s1 <= 1)%nat
    /\ ((o = Val tt
         /\ exists n, res s1 = json_reply 200 (Obj [("input_tokens", Num n)]))
        \/ (exists up,
              reply W 0 = Val up
              /\ res s1 = {| head := Some (status up, relayed_headers up);
                             sent := chunks_of up;
                             writableEnded := true |}
              /\ calls s1 = 1%nat
              /\ o = match cut_short up with
                     | Some _ =>
                         Throw
                           (Error
                              "Cannot write headers after they are sent to the client")
                     | None => Val tt
                     end)).
Proof.
  assert (Hdefault :
            exists o s1,
              sendJson 200 (Obj [("input_tokens", Num 1000)]) (fresh lg)
              = (o, s1)
              /\ logger s1 = lg /\ session s1 = None /\ (calls s1 <= 1)%nat
              /\ ((o = Val tt
                   /\ exists n,
                        res s1 = json_reply 200 (Obj [("input_tokens", Num n)]))
                  \/ (exists up,
                        reply W 0 = Val up
                        /\ res s1
                           = {| head := Some (status up, relayed_headers up);
                                sent := chunks_of up;
                                writableEnded := true |}
                        /\ calls s1 = 1%nat
                        /\ o = match cut_short up with
                               | Some _ =>
                                   Throw
                                     (Error
                                        "Cannot write headers after they are sent to the client")
                               | None => Val tt
                               end))).
  { rewrite sendJson_blank by reflexivity.
    eexists _, _. split; [reflexivity|]. simpl.
    repeat split; auto. left. split; [reflexivity|]. now exists 1000. }
  destruct (JSON_parse payload) as [parsed|e] eqn:Hparse.
  2:{ unfold countTokens, try_catch.
      rewrite (lift_throw _ _ e (fresh lg) Hparse). exact Hdefault. }
  destruct (countTokensPassthrough config parsed) as [[|]|e] eqn:Hpass.
  - pose proof (countTokensPassthrough_system _ Hpass) as Hsys.
    destruct (extractSystemText (get_opt parsed "system")) as [st|e] eqn:Hext.
    + rewrite (count_tokens_relayed_run headers payload lg parsed st
                 Hparse Hpass Hext).
      destruct (reply W 0) as [up|e] eqn:Hreply.
      * eexists _, _. split; [reflexivity|]. simpl.
        repeat split; auto. right. exists up. repeat split.
      * eexists _, _. split; [reflexivity|]. simpl.
        repeat split; auto. left. split; [reflexivity|]. now exists 1000.
    + unfold countTokens, try_catch.
      rewrite (lift_val _ _ parsed (fresh lg) Hparse).
      rewrite (lift_val _ _ true (fresh lg) Hpass).
      cbv iota.
      rewrite (lift_val _ _ _ (fresh lg) Hsys).
      rewrite (lift_throw _ _ e (fresh lg) Hext). exact Hdefault.
  - unfold countTokens, try_catch.
    rewrite (lift_val _ _ parsed (fresh lg) Hparse).
    rewrite (lift_val _ _ false (fresh lg) Hpass).
    cbv iota.
    destruct (get parsed "messages") as [msgs|e] eqn:Hm.
    + rewrite (lift_val _ _ msgs (fresh lg) eq_refl).
      cbv zeta. rewrite sendJson_blank by reflexivity.
      eexists _, _. split; [reflexivity|]. simpl.
      repeat split; auto. left. split; [reflexivity|].
      eexists. reflexivity.
    + rewrite (lift_throw _ _ e (fresh lg) eq_refl). exact Hdefault.
  - unfold countTokens, try_catch.
    rewrite (lift_val _ _ parsed (fresh lg) Hparse).
    rewrite (lift_throw _ _ e (fresh lg) Hpass). exact Hdefault.
Qed.

(** X9.  The count_tokens endpoint sends an answer to every request,
    whatever its body, and ends the response; it never touches the
    session table or the logger and makes at most one upstream call.
    The answer is either status 200 with an input_tokens number, and then
    the handler returns, or the relayed answer of the upstream's first
    reply; in that case the handler returns when the upstream's body was
    read to its end, and throws, after the part read has been sent and
    the response ended, when the transfer of the body broke off. *)
Theorem count_tokens_always_answers
  (headers : list (string * string)) (payload : string) (lg : Logger.t) :
  exists o s1,
    countTokens config W headers payload (fresh lg) = (o, s1)
    /\ logger s1 = lg /\ session s1 = None /\ (calls s1 <= 1)%nat
    /\ writableEnded (res s1) = true
    /\ ((o = Val tt
         /\ exists n,
              res s1
              = {| head := Some (200, [("Content-Type", "application/json")]);
                   sent := [JSON_stringify (Obj [("input_tokens", Num n)])];
                   writableEnded := true |})
        \/ (exists up,
              reply W 0 = Val up
              /\ res s1 = {| head := Some (status up, relayed_headers up);
                             sent := chunks_of up;
                             writableEnded := true |}
              /\ calls s1 = 1%nat
              /\ (cut_short up = None -> o = Val tt)
              /\ (forall e, cut_short up = Some e ->
                    o = Throw
                          (Error
                             "Cannot write headers after they are sent to the client")))).
Proof.
  destruct (countTokens_total headers payload lg)
    as [o [s1 [Hrun [Hlg [Hse [Hc Hres]]]]]].
  exists o, s1. split; [exact Hrun|]. split; [exact Hlg|].
  split; [exact Hse|]. split; [exact Hc|].
  destruct Hres as [[Ho [n Hn]]|[up [Hreply [Hres [Hc1 Ho]]]]].
  - split; [now rewrite Hn|]. left. split; [exact Ho|]. now exists n.
  - split; [now rewrite Hres|]. right. exists up.
    split; [exact Hreply|]. split; [exact Hres|]. split; [exact Hc1|].
    split; [intros Hcut|intros e Hcut]; now rewrite Hcut in Ho.
Qed.

(** *** Requests that cannot be routed *)

Lemma get_throws (v : value) (p : string) (e : exn) :
  get v p = Throw e -> get_opt v p = Undefined /\ e = TypeError p.
Proof.
  destruct v; simpl; intros H; try discriminate; now injection H as <-.
Qed.

Lemma route_model_throws (req : value) (e : exn) :
  get req "model" = Throw e -> route config req = Throw e.
Proof. intros H. unfold route. now rewrite H. Qed.

(** X11.  A body that parses but from which the routing fields cannot
    be read (lines 198 to 217 throw).  When the request's model can be
    printed, the answer is status 500 with the body
    { type: error, error: { type: api_error, message } } carrying the
    error's message, and nothing else happens: no session is identified
    or created, no request is logged, no translator runs, no upstream
    call is made; the error goes to the console.  When the model cannot
    be printed, the console line of the catch block throws in its turn:
    the handler throws and nothing is sent. *)
Theorem unroutable_request
  (headers : list (string * string)) (payload : string) (lg : Logger.t)
  (req : value) (e : exn) :
  JSON_parse payload = Val req ->
  route config req = Throw e ->
  (printable (get_opt req "model") ->
   messages config W headers payload (fresh lg)
   = (Val tt,
      {| res :=
           {| head := Some (500, [("Content-Type", "application/json")]);
              sent :=
                [JSON_stringify
                   (Obj [("type", Str "error");
                         ("error",
                          Obj [("type", Str "api_error");
                               ("message",
                                Str match e with
                                    | TypeError site => typeErrorMessage site
                                    | Error m => m
                                    | Thrown => "Internal proxy error"
                                    end)])])];
              writableEnded := true |};
         events := [ConsoleError]; calls := 0; logger := lg;
         session := None;
         requestModel :=
           if truthy (get_opt req "model") then get_opt req "model"
           else Str "unknown" |}))
  /\ (forall e', to_str (get_opt req "model") = Throw e' ->
      messages config W headers payload (fresh lg)
      = (Throw e',
         {| res := {| head := None; sent := []; writableEnded := false |};
            events := []; calls := 0; logger := lg; session := None;
            requestModel := get_opt req "model" |})).
Proof.
  intros Hparse Hroute.
  destruct (get req "model") as [m|e0] eqn:Hget.
  - pose proof (get_get_opt _ _ _ Hget) as Hm. rewrite <- Hm in Hget.
    rewrite (messages_begun config W _ _ _ _ Hparse Hget).
    unfold try_catch. rewrite (lift_throw _ _ e (noted lg req) Hroute).
    split.
    + intros Hp.
      rewrite onError_blank;
        [reflexivity|reflexivity|now apply printable_unknown].
    + intros e' He'.
      rewrite (onError_unprintable e (noted lg req) e')
        by (simpl; now rewrite (unprintable_truthy _ _ He')).
      unfold noted. now rewrite (unprintable_truthy _ _ He').
  - destruct (get_throws _ _ _ Hget) as [Hundef _].
    rewrite (route_model_throws _ _ Hget) in Hroute.
    injection Hroute as <-.
    unfold messages, try_catch.
    rewrite (lift_val _ _ req (fresh lg) Hparse).
    rewrite (lift_throw _ _ e0 (fresh lg) Hget).
    rewrite Hundef. split.
    + intros _.
      rewrite onError_blank; [reflexivity|reflexivity|now exists "unknown"].
    + intros e' He'. discriminate.
Qed.

(** *** The ChatGPT branch: errors *)

(** X12.  With the chatgpt provider, for a request whose model and tool
    count can be printed, the error type is always api_error: when the
    answer the retry loop ends with is not ok and its body can be read,
    the client gets that answer's status and the body
    { type: error, error: { type: api_error, message } } with the
    upstream text as the message, whatever the status (429 and 401
    included); when reading that body fails, the client gets 500 and the
    message of the failure; when the answer is ok but has no body, the
    client gets 500 and the message No response body.  In each case the
    error is logged. *)
Theorem chatgpt_error_envelope
  (headers : list (string * string)) (payload : string) (lg : Logger.t)
  (req rr : value) (d : Routing) (r : Response) :
  targetProvider config = "chatgpt" ->
  JSON_parse payload = Val req ->
  route config req = Val d ->
  isPassthrough d = false ->
  printable (get_opt req "model") -> printable (toolCount d) ->
  translateRequestToResponses req (targetModel config) = Val rr ->
  final_answer W r ->
  (ok r = false \/ body r = None) ->
  exists s1 pre code message,
    messages config W headers payload (fresh lg) = (Val tt, s1)
    /\ events s1 = (pre ++ [LogError])%list
    /\ res s1
       = {| head := Some (code, [("Content-Type", "application/json")]);
            sent :=
              [JSON_stringify
                 (Obj [("type", Str "error");
                       ("error", Obj [("type", Str "api_error");
                                      ("message", Str message)])])];
            writableEnded := true |}
    /\ (ok r = true -> code = 500 /\ message = "No response body")
    /\ (ok r = false -> cut_short r = None ->
        code = (if status r =? 0 then 500 else status r)
        /\ message = String.concat "" (chunks_of r))
    /\ (ok r = false -> forall e, cut_short r = Some e ->
        code = 500
        /\ message = match e with
                     | TypeError site => typeErrorMessage site
                     | Error m => m
                     | Thrown => "Internal proxy error"
                     end).
Proof.
  intros Hprov Hparse Hroute Hpass Hm Ht Htr Hfinal Hbad.
  destruct (final_answer_ends W r Hfinal) as [k Hend].
  rewrite (chatgpt_messages config W _ _ _ _ _ rr k r Hprov Hparse Hroute
             Hpass Hm Ht Htr Hend).
  unfold try_catch, respondChatGPT, failed.
  destruct (ok r) eqn:Hok; cbn [negb].
  - destruct Hbad as [Habs|Hbody]; [discriminate|].
    destruct r as [code ct b]. simpl in Hbody. subst b.
    rewrite (bind_val _ _ _ _ _ (logError_run _ _ Hm)).
    rewrite sendJson_blank by (now rewrite !res_advance).
    eexists _, _, 500, "No response body".
    split; [reflexivity|]. split; [reflexivity|].
    split; [reflexivity|]. split; [now split|].
    split; intros; discriminate.
  - unfold errText_of. rewrite text_cut.
    destruct (cut_short r) as [e|] eqn:Hcut.
    + rewrite (lift_throw _ _ e _ eq_refl).
      rewrite (onError_routed e lg req d _ _ Hm).
      eexists _, _, 500, _.
      split; [reflexivity|].
      split; [unfold with_res, advance; cbn [events];
              rewrite app_assoc; reflexivity|].
      split; [reflexivity|]. split; [discriminate|].
      split; [discriminate|].
      intros _ e' H. injection H as <-. now split.
    + rewrite (lift_val _ _ _ _ eq_refl).
      rewrite (bind_val _ _ _ _ _ (logError_run _ _ Hm)).
      rewrite sendJson_blank by (now rewrite !res_advance).
      eexists _, _, _, _.
      split; [reflexivity|]. split; [reflexivity|].
      split; [reflexivity|]. split; [discriminate|].
      split; [intros _ _; now split|discriminate].
Qed.

(** *** The Chat Completions branch: streams *)

Lemma stream_settles which (sr : stream_run) (s : state) x :
  res s = blank -> session s = Some x -> printable (requestModel s) ->
  exists s1,
    try_catch (writeHead 200 SSE_HEADERS ;; run_stream which sr) onError s
    = (Val tt, s1)
    /\ res s1 = {| head := Some (200, event_stream); sent := written sr;
                   writableEnded := finished sr || broke sr |}
    /\ events s1
       = (events s ++ Translate which
            :: (if broke sr then [LogError] else []))%list.
Proof.
  intros Hres Hse [t Hp]. unfold try_catch.
  unfold bind at 1, writeHead at 1. rewrite Hres. cbn [head blank].
  unfold run_stream.
  rewrite (bind_val _ _ _ _ _ (emit_run _ _)).
  match goal with
  | |- context [bind (write_all ?c) ?k ?st] =>
      assert (Hw : writableEnded (res st) = false)
        by (simpl; now rewrite Hres);
      rewrite (bind_val (write_all c) k st tt _ (write_all_run c st Hw))
  end.
  destruct sr as [wr fin fl]. unfold broke. cbn [written finished failure].
  destruct fin; destruct fl as [e|];
    unfold bind, end_, ret, lift, with_res, onError, bind, emit, read_res,
      read_requestModel, lift, safeEnd, bind, read_res, end_, ret, with_res;
    simpl; rewrite ?Hp, ?Hse, ?Hres; simpl;
    eexists; (split; [reflexivity|]); simpl; split; try reflexivity;
    rewrite <- ?app_assoc; reflexivity.
Qed.

(** X13.  On the Chat Completions branch, for a request that does not
    say [stream: false] and whose model and tool count can be printed,
    when the answer the retry loop ends with is ok: with a body the
    client gets status 200, the headers Content-Type: text/event-stream,
    Cache-Control: no-cache and Connection: keep-alive, and exactly the
    chunks the stream translator wrote; if the translator throws midway
    the error is logged and the response is ended as it stands, nothing
    is appended to the stream; without a body the client gets 500 and
    the api_error body saying No response body. *)
Theorem openai_streaming
  (headers : list (string * string)) (payload : string) (lg : Logger.t)
  (req : value) (d : Routing) oreq (r : Response) :
  targetProvider config <> "chatgpt" ->
  JSON_parse payload = Val req ->
  route config req = Val d ->
  isPassthrough d = false -> isStreaming d = true ->
  printable (get_opt req "model") -> printable (toolCount d) ->
  translateRequest req (targetModel config) = Val oreq ->
  final_answer W r -> ok r = true ->
  exists s1 pre,
    messages config W headers payload (fresh lg) = (Val tt, s1)
    /\ match body r with
       | Some b =>
           let sr := translateStream b (spoofModel config) in
           res s1
           = {| head := Some (200, [("Content-Type", "text/event-stream");
                                    ("Cache-Control", "no-cache");
                                    ("Connection", "keep-alive")]);
                sent := written sr;
                writableEnded := finished sr || broke sr |}
           /\ events s1
              = (pre ++ Translate FromChatStream
                   :: (if broke sr then [LogError] else []))%list
       | None =>
           res s1
           = {| head := Some (500, [("Content-Type", "application/json")]);
                sent :=
                  [JSON_stringify
                     (Obj [("type", Str "error");
                           ("error",
                            Obj [("type", Str "api_error");
                                 ("message", Str "No response body")])])];
                writableEnded := true |}
           /\ events s1 = (pre ++ [LogError])%list
       end.
Proof.
  intros Hprov Hparse Hroute Hpass Hstream Hm Ht Htr Hfinal Hok.
  destruct (final_answer_ends W r Hfinal) as [k Hend].
  rewrite (openai_messages config W _ _ _ _ _ oreq k r Hprov Hparse Hroute
             Hpass Hm Ht Htr Hend).
  rewrite Hstream.
  unfold respondOpenAI, failed. rewrite Hok. cbn [negb].
  destruct (body r) as [b|].
  - match goal with
    | |- context [try_catch _ onError ?s2] =>
        destruct (stream_settles FromChatStream
                    (translateStream b (spoofModel config)) s2
                    (fst (Logger.identify lg
                            {| Logger.toolCount := toolCount d;
                               Logger.msgCount := as_number (msgCount d);
                               Logger.isTeammate := isTeammate d;
                               Logger.systemText := systemText d |})))
          as [s1 [Hrun1 [Hres1 Hev1]]];
          [reflexivity|reflexivity
          |now apply (printable_routed lg req d)|]
    end.
    rewrite Hrun1.
    eexists s1, _. split; [reflexivity|]. split; [exact Hres1|exact Hev1].
  - unfold try_catch.
    rewrite (bind_val _ _ _ _ _ (logError_run _ _ Hm)).
    rewrite sendJson_blank by (now rewrite !res_advance).
    eexists _, _. split; [reflexivity|]. split; reflexivity.
Qed.

(** *** Every request is answered, but for two cases *)

Lemma get_unprintable (v : value) (p : string) (e : exn) :
  to_str (get_opt v p) = Throw e -> get v p = Val (get_opt v p).
Proof.
  destruct v; simpl; try discriminate; try reflexivity;
    destruct (p =? "length")%string; simpl; try discriminate; reflexivity.
Qed.

(** A tool count that cannot be printed stops [logRequest] as well. *)
Lemma logRequest_stops (p : bool) (model mc tc : value) (s : state) (e : exn) :
  to_str tc = Throw e ->
  exists e' s1,
    logRequest p model mc tc s = (Throw e', s1)
    /\ res s1 = res s /\ requestModel s1 = requestModel s
    /\ calls s1 = calls s.
Proof.
  intros Htc.
  destruct (logRequest p model mc tc s) as [[[]|e'] s1] eqn:Hrun.
  - exfalso. revert Hrun. unfold logRequest.
    unfold bind at 1. unfold countRequest at 1.
    assert (Hstop : forall (k : M unit) s0,
              (_ <- lift (to_str mc) ;; _ <- lift (to_str tc) ;; k) s0
              <> (Val tt, s1)).
    { intros k s0. destruct (to_str mc) as [t2|e2].
      - rewrite (lift_val _ _ t2 _ eq_refl), (lift_throw _ _ e _ Htc).
        discriminate.
      - rewrite (lift_throw _ _ e2 _ eq_refl). discriminate. }
    destruct p.
    + unfold bind at 1. unfold bind at 1.
      destruct (to_str model) as [t1|e1].
      * unfold lift at 1, ret at 1. apply Hstop.
      * unfold lift at 1. discriminate.
    + unfold bind at 1, ret at 1. apply Hstop.
  - destruct (logRequest_outcome p model mc tc s _ _ Hrun)
      as [Hr [_ [Hm [Hc _]]]].
    exists e', s1. repeat split; assumption.
Qed.

(** Every way the Chat Completions branch can answer an upstream reply,
    on a response nothing has been written to *)
Lemma respondOpenAI_outcome
  (model : value) (streaming : bool) (r : Response) (s : state) :
  res s = blank -> printable model ->
  forall o s1, respondOpenAI config W model streaming (Some r) s = (o, s1) ->
    (exists e, o = Throw e /\ res s1 = blank)
    \/ (exists code v, res s1 = json_reply code v)
    \/ head (res s1) = Some (200, event_stream).
Proof.
  intros Hres Hp o s1. unfold respondOpenAI, failed.
  destruct (ok r) eqn:Hok; cbn [negb].
  - destruct streaming; cbn [negb].
    + destruct (body r) as [b|].
      * unfold bind at 1, writeHead at 1. rewrite Hres. cbn [head blank].
        intros H.
        eapply run_stream_head in H;
          [| reflexivity | unfold with_res; simpl; now rewrite Hres].
        right. right. apply H.
      * rewrite (bind_val _ _ _ _ _ (logError_run model s Hp)).
        rewrite sendJson_blank by (now rewrite res_advance).
        rewrite json_answer_reply.
        intros H. injection H as <- <-.
        right. left. eexists _, _. reflexivity.
    + destruct (rbind (text r) JSON_parse) as [v|e].
      2:{ rewrite (lift_throw _ _ e s eq_refl).
          intros H. injection H as <- <-.
          left. exists e. split; [reflexivity|exact Hres]. }
      rewrite (lift_val _ _ v s eq_refl).
      destruct (translateMessage config W v) as [msg|e].
      2:{ rewrite (lift_throw _ _ e s eq_refl).
          intros H. injection H as <- <-.
          left. exists e. split; [reflexivity|exact Hres]. }
      rewrite (lift_val _ _ msg s eq_refl).
      rewrite sendJson_blank by exact Hres. rewrite json_answer_reply.
      intros H. injection H as <- <-.
      right. left. eexists _, _. reflexivity.
  - unfold errText_of. destruct (text r) as [t|e].
    + rewrite (lift_val _ _ t s eq_refl).
      rewrite (bind_val _ _ _ _ _ (logError_run model s Hp)).
      rewrite sendJson_blank by (now rewrite res_advance).
      rewrite json_answer_reply.
      intros H. injection H as <- <-.
      right. left. eexists _, _. reflexivity.
    + rewrite (lift_throw _ _ e s eq_refl).
      intros H. injection H as <- <-.
      left. exists e. split; [reflexivity|exact Hres].
Qed.

Lemma openaiBranch_outcome (req model : value) (streaming : bool) (s : state) :
  res s = blank -> printable model ->
  forall o s1, openaiBranch config W req model streaming s = (o, s1) ->
    requestModel s1 = requestModel s
    /\ ((exists e, o = Throw e /\ res s1 = blank)
        \/ (exists code v, res s1 = json_reply code v)
        \/ head (res s1) = Some (200, event_stream)).
Proof.
  intros Hres Hp o s1. unfold openaiBranch. cbv zeta.
  rewrite (bind_val _ _ _ _ _ (emit_run _ _)).
  destruct (translateRequest req (targetModel config)) as [oreq|e] eqn:Htr.
  2:{ rewrite (lift_throw _ _ e _ eq_refl).
      intros H. injection H as <- <-.
      split; [reflexivity|]. left. exists e. split; [reflexivity|exact Hres]. }
  rewrite (lift_val _ _ oreq _ eq_refl).
  match goal with
  | |- context [retry (fetch W ?u ?h ?p)] =>
      destruct (retry_outcome W u h p
                  (advance s [Translate ToChatCompletions] 0))
        as [k [o1 [_ [Hrun Hout]]]]
  end.
  unfold bind at 1. rewrite Hrun.
  destruct Hout as [[e ->]|[r ->]].
  - intros H. injection H as <- <-.
    split; [reflexivity|]. left. exists e. split; [reflexivity|exact Hres].
  - intros H. split.
    + destruct (Quiet_respondOpenAI _ _ _ _ _ _ _ _ H)
        as [evs [_ [_ [_ [_ [_ Hrm]]]]]].
      rewrite Hrm. reflexivity.
    + revert H. apply respondOpenAI_outcome; [|exact Hp].
      now rewrite !res_advance.
Qed.

Lemma settled_ended code hs chunks :
  settled {| head := Some (code, hs); sent := chunks; writableEnded := true |}.
Proof. eexists. split; [reflexivity|]. discriminate. Qed.

Lemma settled_catch (m : M unit) (s : state) :
  (forall o s1, m s = (o, s1) ->
     printable (requestModel s1)
     /\ ((exists e, o = Throw e /\ res s1 = blank)
         \/ (exists code hs chunks,
               res s1 = {| head := Some (code, hs); sent := chunks;
                           writableEnded := true |})
         \/ head (res s1) = Some (200, event_stream))) ->
  exists s1, try_catch m onError s = (Val tt, s1) /\ settled (res s1).
Proof.
  intros Hm. unfold try_catch.
  destruct (m s) as [o s0] eqn:Hrun.
  destruct (Hm _ _ eq_refl)
    as [Hp [[e [-> Hblank]]|[[code [hs [chunks Hj]]]|Hh]]].
  - destruct (onError_total e s0 Hp) as [s1 [Hrun1 [_ [Hnone [Hend _]]]]].
    exists s1. split; [exact Hrun1|].
    rewrite Hblank in Hnone, Hend.
    exists (500, [("Content-Type", "application/json")]).
    split; [now apply Hnone|].
    intros Hopen. rewrite Hend in Hopen by reflexivity. discriminate.
  - destruct o as [[]|e].
    + exists s0. split; [reflexivity|]. rewrite Hj. apply settled_ended.
    + destruct (onError_total e s0 Hp) as [s1 [Hrun1 [_ [_ [_ [Hsame _]]]]]].
      exists s1. split; [exact Hrun1|].
      rewrite Hsame by (now rewrite Hj). rewrite Hj. apply settled_ended.
  - destruct o as [[]|e].
    + exists s0. split; [reflexivity|].
      exists (200, event_stream). split; [exact Hh|reflexivity].
    + destruct (onError_total e s0 Hp) as [s1 [Hrun1 [Hkeep _]]].
      exists s1. split; [exact Hrun1|].
      exists (200, event_stream). split; [now apply Hkeep|reflexivity].
Qed.

(** The main endpoint on a request whose model can be printed, or whose
    body does not parse *)
Lemma messages_settles headers payload lg :
  ~ opaque_model payload ->
  exists s1,
    messages config W headers payload (fresh lg) = (Val tt, s1)
    /\ settled (res s1).
Proof.
  intros Hclear.
  assert (Hfail : forall e s, res s = blank -> printable (requestModel s) ->
            exists s1, onError e s = (Val tt, s1) /\ settled (res s1)).
  { intros e s Hres Hp. rewrite (onError_blank e s Hres Hp).
    eexists. split; [reflexivity|]. apply settled_ended. }
  destruct (JSON_parse payload) as [req|e] eqn:Hparse.
  2:{ unfold messages, try_catch.
      rewrite (lift_throw _ _ e (fresh lg) Hparse).
      apply Hfail; [reflexivity|now exists "unknown"]. }
  assert (Hm : printable (get_opt req "model")).
  { destruct (to_str_cases (get_opt req "model")) as [H|[e H]]; [exact H|].
    exfalso. apply Hclear. now exists req, e. }
  destruct (get req "model") as [m|e] eqn:Hget.
  2:{ unfold messages, try_catch.
      rewrite (lift_val _ _ req (fresh lg) Hparse).
      rewrite (lift_throw _ _ e (fresh lg) Hget).
      apply Hfail; [reflexivity|now exists "unknown"]. }
  pose proof (get_get_opt _ _ _ Hget) as Heq. rewrite <- Heq in Hget.
  destruct (route config req) as [d|e] eqn:Hroute.
  2:{ rewrite (messages_begun config W _ _ _ _ Hparse Hget).
      unfold try_catch. rewrite (lift_throw _ _ e _ Hroute).
      apply Hfail; [reflexivity|now apply printable_unknown]. }
  destruct (to_str_cases (toolCount d)) as [Ht|[e Ht]].
  2:{ rewrite (messages_identified config W _ _ _ _ _ Hparse Hroute).
      unfold try_catch.
      destruct (logRequest_stops (isPassthrough d) (get_opt req "model")
                  (msgCount d) (toolCount d) (identified lg req d) e Ht)
        as [e' [s1 [Hrun [Hres [Hrm _]]]]].
      rewrite (bind_throw _ _ _ e' s1 Hrun).
      apply Hfail.
      - rewrite Hres. unfold identified.
        now destruct (Logger.identify lg _).
      - rewrite Hrm. unfold identified.
        destruct (Logger.identify lg _). now apply printable_unknown. }
  rewrite (messages_routed config W _ _ _ _ _ Hparse Hroute Hm Ht).
  apply settled_catch. intros o s1. unfold branch_of.
  destruct (isPassthrough d).
  - destruct (reply W 0) as [up|e] eqn:Hreply.
    + rewrite (handlePassthrough_ok _ _ _ _ _ up
                 (if 400 <=? status up then [LogError] else []));
        [| reflexivity | exact Hreply
         | intros s'; now apply onStatus_run].
      intros H. injection H as <- <-.
      split; [now apply (printable_routed lg req d)|].
      right. left. eexists _, _, _. reflexivity.
    + rewrite (handlePassthrough_fail _ _ _ _ _ e) by exact Hreply.
      intros H. injection H as <- <-.
      split; [now apply (printable_routed lg req d)|].
      left. exists e. split; reflexivity.
  - destruct (targetProvider config =? "chatgpt")%string.
    + intros H.
      destruct (chatgptBranch_outcome config W req _ (routed lg req d)
                  eq_refl Hm _ _ H) as [Hrm [Hthrow|[[code [v [Hj _]]]|Hh]]];
        (split; [rewrite Hrm; now apply (printable_routed lg req d)|]).
      * left. exact Hthrow.
      * right. left. eexists _, _, _. exact Hj.
      * right. right. exact Hh.
    + intros H.
      destruct (openaiBranch_outcome req _ _ (routed lg req d)
                  eq_refl Hm _ _ H) as [Hrm [Hthrow|[[code [v Hj]]|Hh]]];
        (split; [rewrite Hrm; now apply (printable_routed lg req d)|]).
      * left. exact Hthrow.
      * right. left. eexists _, _, _. exact Hj.
      * right. right. exact Hh.
Qed.

(** The main endpoint on a request whose model cannot be printed *)
Lemma messages_unanswered headers payload lg :
  opaque_model payload ->
  exists e s1,
    messages config W headers payload (fresh lg) = (Throw e, s1)
    /\ res s1 = blank /\ calls s1 = 0%nat.
Proof.
  intros [req [e [Hparse He]]].
  pose proof (get_unprintable _ _ _ He) as Hget.
  rewrite (messages_begun config W _ _ _ _ Hparse Hget).
  unfold try_catch.
  destruct (route config req) as [d|e1] eqn:Hroute.
  - rewrite (lift_val _ _ d _ eq_refl).
    unfold bind at 1. unfold identify at 1.
    destruct (Logger.identify (logger (noted lg req)) _) as [found lg1].
    match goal with
    | |- context [bind (logRequest ?p ?m ?mc ?tc) ?k ?s] =>
        destruct (logRequest_unprintable p m mc tc s e He)
          as [e' [s1 [Hrun [Hres [_ [Hrm Hc]]]]]];
        rewrite (bind_throw _ k s e' s1 Hrun)
    end.
    rewrite (onError_unprintable e' s1 e)
      by (rewrite Hrm; simpl; now rewrite (unprintable_truthy _ _ He)).
    exists e, s1. split; [reflexivity|]. split; [exact Hres|exact Hc].
  - rewrite (lift_throw _ _ e1 _ eq_refl).
    rewrite (onError_unprintable e1 (noted lg req) e)
      by (simpl; now rewrite (unprintable_truthy _ _ He)).
    exists e, (noted lg req). split; [reflexivity|]. split; reflexivity.
Qed.

(** X10.  Every request gets an answer, with two exceptions.  Whatever
    the method, the URL, the headers, the body, the configuration and
    the upstream's replies (rejected calls and bodies that break off
    included), the listener returns without throwing, the status line
    and headers have been sent, and the response is ended, except
    possibly when it is a 200 event stream handed to a stream
    translator.  The exceptions: a POST to the main endpoint whose body
    parses to a request whose model cannot be printed (an object with a
    property of its own called toString) is not answered at all: the
    handler throws, nothing is sent and no upstream call is made; and a
    count_tokens request relayed to an upstream whose body breaks off is
    answered and ended, but the handler then throws. *)
Theorem listener_always_answers
  (method : string) (url : option string)
  (headers : list (string * string)) (payload : string) (lg : Logger.t) :
  exists o s1,
    listener config W method url headers payload (fresh lg) = (o, s1)
    /\ (method = "POST" /\ before_query (opt_or url "") = "/v1/messages"
        /\ opaque_model payload ->
        (exists e, o = Throw e)
        /\ res s1 = {| head := None; sent := []; writableEnded := false |}
        /\ calls s1 = 0%nat)
    /\ (~ (method = "POST" /\ before_query (opt_or url "") = "/v1/messages"
           /\ opaque_model payload) ->
        (exists h, head (res s1) = Some h
                   /\ (writableEnded (res s1) = false ->
                       h = (200, [("Content-Type", "text/event-stream");
                                  ("Cache-Control", "no-cache");
                                  ("Connection", "keep-alive")])))
        /\ (o = Val tt
            \/ (method = "POST"
                /\ before_query (opt_or url "") = "/v1/messages/count_tokens"
                /\ writableEnded (res s1) = true
                /\ exists up e,
                     reply W 0 = Val up /\ cut_short up = Some e
                     /\ o = Throw
                              (Error
                                 "Cannot write headers after they are sent to the client")))).
Proof.
  unfold listener. cbv zeta.
  destruct (method =? "GET")%string eqn:Hget.
  { apply String.eqb_eq in Hget. subst method. cbn [andb negb orb].
    destruct ((before_query (opt_or url "") =? "/")
              || (before_query (opt_or url "") =? "/health"))%string.
    - rewrite sendJson_blank by reflexivity.
      eexists _, _. split; [reflexivity|]. split.
      + intros [Habs _]. discriminate.
      + intros _. split; [|now left]. apply settled_ended.
    - change ("GET" =? "POST")%string with false. cbn [andb negb orb].
      rewrite sendJson_blank by reflexivity.
      eexists _, _. split; [reflexivity|]. split.
      + intros [Habs _]. discriminate.
      + intros _. split; [|now left]. apply settled_ended. }
  cbn [andb].
  destruct (method =? "POST")%string eqn:Hpost.
  2:{ cbn [andb negb orb].
      rewrite sendJson_blank by reflexivity.
      eexists _, _. split; [reflexivity|]. split.
      + intros [Habs _]. apply String.eqb_neq in Hpost. contradiction.
      + intros _. split; [|now left]. apply settled_ended. }
  apply String.eqb_eq in Hpost. cbn [andb negb orb].
  destruct (before_query (opt_or url "") =? "/v1/messages/count_tokens")%string
    eqn:Hcount.
  { apply String.eqb_eq in Hcount.
    destruct (countTokens_total headers payload lg)
      as [o [s1 [Hrun [_ [_ [_ Hres]]]]]].
    exists o, s1. split; [exact Hrun|]. split.
    - intros [_ [Habs _]]. rewrite Hcount in Habs. discriminate.
    - intros _.
      destruct Hres as [[Ho [n Hn]]|[up [Hreply [Hres [_ Ho]]]]].
      + split; [|now left]. rewrite Hn. apply settled_ended.
      + split; [rewrite Hres; apply settled_ended|].
        destruct (cut_short up) as [e|] eqn:Hcut; [|now left].
        right. split; [exact Hpost|]. split; [exact Hcount|].
        split; [now rewrite Hres|]. now exists up, e. }
  destruct (before_query (opt_or url "") =? "/v1/messages")%string eqn:Hmain.
  2:{ cbn [negb]. rewrite sendJson_blank by reflexivity.
      eexists _, _. split; [reflexivity|]. split.
      + intros [_ [Habs _]]. apply String.eqb_neq in Hmain. contradiction.
      + intros _. split; [|now left]. apply settled_ended. }
  apply String.eqb_eq in Hmain. cbn [negb].
  assert (Hcases : opaque_model payload \/ ~ opaque_model payload).
  { destruct (JSON_parse payload) as [req|e] eqn:Hparse.
    - destruct (to_str_cases (get_opt req "model")) as [[t Hp]|[e Hp]].
      + right. intros [req' [e [Hparse' He]]].
        rewrite Hparse in Hparse'. injection Hparse' as <-.
        rewrite Hp in He. discriminate.
      + left. now exists req, e.
    - right. intros [req [e' [Hparse' _]]].
      rewrite Hparse in Hparse'. discriminate. }
  destruct Hcases as [Hop|Hclear].
  - destruct (messages_unanswered headers payload lg Hop)
      as [e [s1 [Hrun [Hres Hc]]]].
    exists (Throw e), s1. split; [exact Hrun|]. split.
    + intros _. split; [now exists e|]. split; [exact Hres|exact Hc].
    + intros Habs. exfalso. apply Habs. repeat split; assumption.
  - destruct (messages_settles headers payload lg Hclear)
      as [s1 [Hrun Hset]].
    exists (Val tt), s1. split; [exact Hrun|]. split.
    + intros [_ [_ Hop]]. contradiction.
    + intros _. split; [exact Hset|now left].
Qed.
End Whole.

(* ================================================================== *)
(** ** The session table *)

Section SessionTable.
Import Logger.

Lemma entry_ok_touch n k s c : entry_ok n k s -> entry_ok n k (touch s c).
Proof.
  intros [Hk [Hc Hcase]]. split; [exact Hk|]. split; [simpl; lia|exact Hcase].
Qed.

Lemma entry_ok_mono n k s : entry_ok n k s -> entry_ok (S n) k s.
Proof.
  intros [Hk [Hc Hcase]]. split; [exact Hk|]. split; [exact Hc|].
  destruct Hcase as [H|[H|[j [Hj H]]]]; [now left|right; now left|].
  right. right. exists j. split; [lia|exact H].
Qed.

Lemma map_update_other (k k1 : string) s (m : list (string * AgentSession)) :
  k1 <> k -> map_get k1 (map_update k s m) = map_get k1 m.
Proof.
  intros Hne. induction m as [|[k' s'] m IH]; simpl; [reflexivity|].
  destruct (k =? k')%string eqn:Hk; simpl.
  - apply String.eqb_eq in Hk. subst k'.
    apply String.eqb_neq in Hne. now rewrite Hne.
  - now rewrite IH.
Qed.

Lemma map_get_snoc (k k1 : string) s (m : list (string * AgentSession)) :
  map_get k1 (m ++ [(k, s)])
  = match map_get k1 m with
    | Some x => Some x
    | None => if (k1 =? k)%string then Some s else None
    end.
Proof.
  induction m as [|[k' s'] m IH]; simpl; [reflexivity|].
  destruct (k1 =? k')%string; [reflexivity|exact IH].
Qed.

(** Looking a key up after [getOrCreate]: the key asked for holds the
    session returned, every other key what it held. *)
Lemma getOrCreate_get (lg : t) k ty c lbl k1 :
  map_get k1 (sessions (snd (getOrCreate lg k ty c lbl)))
  = if (k1 =? k)%string then Some (fst (getOrCreate lg k ty c lbl))
    else map_get k1 (sessions lg).
Proof.
  unfold getOrCreate.
  destruct (map_get k (sessions lg)) as [s|] eqn:Hget; cbn [fst snd sessions].
  - destruct (k1 =? k)%string eqn:Hk.
    + apply String.eqb_eq in Hk. subst k1. apply map_update_get.
      apply map_get_in in Hget. change k with (fst (k, s)). now apply in_map.
    + apply String.eqb_neq in Hk. now apply map_update_other.
  - rewrite map_get_snoc.
    destruct (k1 =? k)%string eqn:Hk.
    + apply String.eqb_eq in Hk. subst k1. now rewrite Hget.
    + now destruct (map_get k1 (sessions lg)).
Qed.

Lemma getOrCreate_found (lg : t) k ty c lbl :
  fst (getOrCreate lg k ty c lbl)
  = match map_get k (sessions lg) with
    | Some old => touch old c
    | None =>
        {| key := k;
           label := match lbl with
                    | Some l => if (l =? "")%string then k else l
                    | None => k
                    end;
           color := match ty with
                    | lead => C_cyan
                    | warmup => C_dim
                    | teammate =>
                        nth ((teammateIndex lg - 1) mod 4)%nat
                          TEAMMATE_COLORS C_yellow
                    end;
           type := ty; lastMsgCount := c; requestCount := 1 |}
    end.
Proof.
  unfold getOrCreate. destruct (map_get k (sessions lg)); reflexivity.
Qed.

Lemma getOrCreate_shape (lg : t) k ty c lbl :
  NoDup (List.map fst (sessions lg)) ->
  (forall k0 s, In (k0, s) (sessions lg) -> entry_ok (teammateIndex lg) k0 s) ->
  admissible (teammateIndex lg) k ty ->
  let lg' := snd (getOrCreate lg k ty c lbl) in
  NoDup (List.map fst (sessions lg'))
  /\ (forall k0 s, In (k0, s) (sessions lg') -> entry_ok (teammateIndex lg) k0 s)
  /\ (forall k0, In k0 (List.map fst (sessions lg)) ->
        In k0 (List.map fst (sessions lg')))
  /\ In k (List.map fst (sessions lg'))
  /\ teammateIndex lg' = teammateIndex lg.
Proof.
  intros Hnd Hent Hadm. unfold getOrCreate.
  destruct (map_get k (sessions lg)) as [s|] eqn:Hget; cbn [snd sessions teammateIndex].
  - pose proof (map_get_in _ _ _ Hget) as Hin.
    split; [now rewrite map_update_keys|].
    split.
    { intros k0 s0 H0. apply map_update_in in H0.
      destruct H0 as [H0|[-> [-> _]]]; [now apply Hent|].
      apply entry_ok_touch. now apply Hent. }
    split; [intros k0 H0; now rewrite map_update_keys|].
    split; [|reflexivity].
    rewrite map_update_keys. change k with (fst (k, s)). now apply in_map.
  - apply map_get_none in Hget.
    split.
    { rewrite map_app. simpl. apply NoDup_app; [exact Hnd|repeat constructor; intros []|].
      intros x Hx [<-|[]]. contradiction. }
    split.
    { intros k0 s0 H0. apply in_app_or in H0.
      destruct H0 as [H0|[H0|[]]]; [now apply Hent|].
      injection H0 as <- <-. split; [reflexivity|]. split; [simpl; lia|].
      destruct Hadm as [[-> ->]|[[-> ->]|[-> [-> Hn]]]].
      - left. repeat split.
      - right. left. repeat split.
      - right. right. exists (teammateIndex lg). split; [lia|]. repeat split. }
    split; [intros k0 H0; rewrite map_app; apply in_or_app; now left|].
    split; [|reflexivity].
    rewrite map_app. apply in_or_app. right. now left.
Qed.

Lemma shaped_create : shaped create.
Proof.
  split; [constructor|]. split; [intros k s []|]. simpl. intros j Hj. lia.
Qed.

Lemma shaped_identify (lg : t) (i : info) :
  shaped lg -> shaped (snd (identify lg i)).
Proof.
  intros [Hnd [Hent Hall]]. unfold identify.
  destruct (is_zero (toolCount i)).
  { destruct (getOrCreate_shape lg "WARM" warmup (msgCount i) None Hnd Hent)
      as [Hnd' [Hent' [Hkeep [_ Hidx]]]]; [left; now split|].
    split; [exact Hnd'|]. split.
    - intros k s H. rewrite Hidx. now apply Hent'.
    - intros j Hj. rewrite Hidx in Hj. apply Hkeep. now apply Hall. }
  destruct (isTeammate i); cbn [negb].
  2:{ destruct (getOrCreate_shape lg "LEAD" lead (msgCount i) None Hnd Hent)
        as [Hnd' [Hent' [Hkeep [_ Hidx]]]]; [right; left; now split|].
      split; [exact Hnd'|]. split.
      - intros k s H. rewrite Hidx. now apply Hent'.
      - intros j Hj. rewrite Hidx in Hj. apply Hkeep. now apply Hall. }
  pose proof (scan_best (msgCount i) (sessions lg)) as Hbest.
  destruct (scan (msgCount i) (sessions lg)) as [[s0|] [g|]];
    simpl in Hbest; try contradiction; cbn [fst].
  - destruct Hbest as [[k0 Hin0] _].
    destruct (Hent k0 s0 Hin0) as [Hk _].
    cbn [snd]. split; [cbn [sessions]; now rewrite map_update_keys|].
    split.
    + cbn [sessions teammateIndex]. intros k s H. apply map_update_in in H.
      destruct H as [H|[-> [-> _]]]; [now apply Hent|].
      apply entry_ok_touch. rewrite Hk. now apply Hent.
    + cbn [sessions teammateIndex]. intros j Hj. rewrite map_update_keys.
      now apply Hall.
  - cbv zeta. cbn [teammateIndex].
    match goal with
    | |- shaped (snd (getOrCreate ?lg1 ?k ?ty ?c ?lbl)) =>
        destruct (getOrCreate_shape lg1 k ty c lbl)
          as [Hnd' [Hent' [Hkeep [Hnew Hidx]]]]
    end.
    + exact Hnd.
    + cbn [sessions teammateIndex]. intros k s H. apply entry_ok_mono.
      now apply Hent.
    + right. right. cbn [teammateIndex]. repeat split. lia.
    + cbn [sessions teammateIndex] in *.
      split; [exact Hnd'|]. split.
      * intros k s H. rewrite Hidx. now apply Hent'.
      * intros j Hj. rewrite Hidx in Hj.
        destruct (Nat.eq_dec j (S (teammateIndex lg))) as [->|Hne].
        -- exact Hnew.
        -- apply Hkeep. apply Hall. lia.
Qed.

Lemma reachable_shaped (lg : t) : reachable lg -> shaped lg.
Proof.
  induction 1 as [|lg i _ IH|lg _ IH].
  - exact shaped_create.
  - now apply shaped_identify.
  - exact IH.
Qed.

(** X14.  In every state of the logger a run can reach, the session
    table is a map in which each session sits under its own key and has
    served at least one request; the warm-up session and no other is
    under WARM, the lead session and no other under LEAD, and the
    teammate sessions are exactly those under T1 ... Tn, n being the
    teammate counter: none of these numbers is missing, and teammate j
    has the colour (j - 1) mod 4 of the four teammate colours. *)
Theorem session_table_shape (lg : t) :
  reachable lg ->
  NoDup (List.map fst (sessions lg))
  /\ (forall k s, In (k, s) (sessions lg) ->
        key s = k /\ 1 <= requestCount s
        /\ (type s = warmup <-> k = "WARM")
        /\ (type s = lead <-> k = "LEAD")
        /\ (type s = teammate <->
            exists j, (1 <= j <= teammateIndex lg)%nat
                      /\ k = "T" ++ decimal j))
  /\ (forall j, (1 <= j <= teammateIndex lg)%nat ->
        exists s, map_get ("T" ++ decimal j) (sessions lg) = Some s
                  /\ type s = teammate
                  /\ color s = nth ((j - 1) mod 4) TEAMMATE_COLORS C_yellow).
Proof.
  intros Hreach. destruct (reachable_shaped lg Hreach) as [Hnd [Hent Hall]].
  split; [exact Hnd|]. split.
  - intros k s Hin. destruct (Hent k s Hin) as [Hk [Hc Hcase]].
    split; [exact Hk|]. split; [exact Hc|].
    destruct Hcase as [[-> [Hty _]]|[[-> [Hty _]]|[j [Hj [-> [Hty _]]]]]];
      rewrite Hty; (split; [|split]); split; intros H;
      try reflexivity; try discriminate;
      try match type of H with
          | exists _, _ => destruct H as [j' [_ H]]; discriminate
          end.
    exists j. split; [exact Hj|reflexivity].
  - intros j Hj. pose proof (Hall j Hj) as Hkey.
    apply in_map_iff in Hkey. destruct Hkey as [[k s] [Hk Hin]].
    simpl in Hk. subst k. exists s.
    split; [now apply in_map_get|].
    destruct (Hent _ s Hin) as [_ [_ [[H _]|[[H _]|[j' [_ [Hjj [Hty Hcol]]]]]]]];
      try discriminate.
    injection Hjj as Hjj. apply decimal_inj in Hjj. subst j'.
    split; [exact Hty|exact Hcol].
Qed.

Lemma shaped_key (lg : t) k s :
  shaped lg -> map_get k (sessions lg) = Some s -> key s = k.
Proof.
  intros [_ [Hent _]] H. apply map_get_in in H. now destruct (Hent k s H).
Qed.

Lemma shaped_next_fresh (lg : t) :
  shaped lg ->
  map_get ("T" ++ decimal (S (teammateIndex lg))) (sessions lg) = None.
Proof.
  intros [_ [Hent _]]. apply map_get_none. intros Hin.
  apply in_map_iff in Hin. destruct Hin as [[k s] [Hk Hin]]. simpl in Hk. subst k.
  destruct (Hent _ s Hin) as [_ [_ [[H _]|[[H _]|[j [Hj [H _]]]]]]];
    try discriminate.
  injection H as H. apply decimal_inj in H. lia.
Qed.

(** X15.  [identify] touches exactly one session: the one it returns,
    which afterwards is what the table holds under its key, with the
    request's message count as its last count.  If that key was in the
    table the session is the old one with one more request; if not it is
    a new one with one request, added at the end.  Every other key holds
    what it held. *)
Theorem identify_touches_one (lg : t) (i : info) :
  reachable lg ->
  let found := fst (identify lg i) in
  let lg' := snd (identify lg i) in
  (forall k, map_get k (sessions lg')
             = if (k =? key found)%string then Some found
               else map_get k (sessions lg))
  /\ lastMsgCount found = msgCount i
  /\ match map_get (key found) (sessions lg) with
     | Some old => found = touch old (msgCount i)
     | None =>
         requestCount found = 1
         /\ sessions lg' = (sessions lg ++ [(key found, found)])%list
     end.
Proof.
  intros Hreach found lg'. subst found lg'.
  pose proof (reachable_shaped lg Hreach) as Hsh.
  assert (Hgoc : forall (lg1 : t) k ty lbl,
            sessions lg1 = sessions lg ->
            (forall old, map_get k (sessions lg) = Some old -> key old = k) ->
            let found := fst (getOrCreate lg1 k ty (msgCount i) lbl) in
            let lg' := snd (getOrCreate lg1 k ty (msgCount i) lbl) in
            (forall k1, map_get k1 (sessions lg')
                        = if (k1 =? key found)%string then Some found
                          else map_get k1 (sessions lg))
            /\ lastMsgCount found = msgCount i
            /\ match map_get (key found) (sessions lg) with
               | Some old => found = touch old (msgCount i)
               | None =>
                   requestCount found = 1
                   /\ sessions lg' = (sessions lg ++ [(key found, found)])%list
               end).
  { intros lg1 k ty lbl Hsame Hkey found lg'.
    assert (Hk : key found = k).
    { subst found. rewrite getOrCreate_found, Hsame.
      destruct (map_get k (sessions lg)) as [old|] eqn:Hget; [|reflexivity].
      simpl. now apply Hkey. }
    rewrite Hk. split.
    { intros k1. subst found lg'. rewrite getOrCreate_get, Hsame. reflexivity. }
    subst found lg'. rewrite getOrCreate_found. unfold getOrCreate.
    rewrite Hsame.
    destruct (map_get k (sessions lg)) as [old|] eqn:Hget.
    - split; reflexivity.
    - cbn [snd sessions lastMsgCount requestCount]. repeat split. }
  unfold identify.
  destruct (is_zero (toolCount i)).
  { apply Hgoc; [reflexivity|]. intros old. now apply shaped_key. }
  destruct (isTeammate i); cbn [negb].
  2:{ apply Hgoc; [reflexivity|]. intros old. now apply shaped_key. }
  pose proof (scan_best (msgCount i) (sessions lg)) as Hbest.
  destruct (scan (msgCount i) (sessions lg)) as [[s0|] [g|]];
    simpl in Hbest; try contradiction; cbn [fst].
  - destruct Hbest as [[k0 Hin0] _].
    destruct Hsh as [Hnd [Hent _]].
    destruct (Hent k0 s0 Hin0) as [Hk _].
    cbn [fst snd sessions]. cbn [key touch]. rewrite Hk.
    rewrite (in_map_get _ _ _ Hnd Hin0).
    split; [|split; reflexivity].
    intros k. destruct (k =? k0)%string eqn:Hkk.
    + apply String.eqb_eq in Hkk. subst k. apply map_update_get.
      change k0 with (fst (k0, s0)). now apply in_map.
    + apply String.eqb_neq in Hkk. now apply map_update_other.
  - cbv zeta. apply Hgoc; [reflexivity|].
    cbn [teammateIndex]. intros old Hold.
    rewrite (shaped_next_fresh lg Hsh) in Hold. discriminate.
Qed.

(** X16.  A request without tools is counted in the warm-up session and
    one with tools but without the teammate phrase in the lead session,
    whatever else it says: there is one session of each kind, it is the
    one returned, and such a request neither numbers a new teammate nor
    changes a teammate session.  In particular a teammate's request
    without tools is a warm-up request. *)
Theorem warmup_and_lead_sessions (lg : t) (i : info) :
  reachable lg ->
  is_zero (toolCount i) = true \/ isTeammate i = false ->
  let found := fst (identify lg i) in
  let lg' := snd (identify lg i) in
  key found = (if is_zero (toolCount i) then "WARM" else "LEAD")
  /\ type found = (if is_zero (toolCount i) then warmup else lead)
  /\ teammateIndex lg' = teammateIndex lg
  /\ (forall k s, type s = teammate ->
        In (k, s) (sessions lg') <-> In (k, s) (sessions lg)).
Proof.
  intros Hreach Hcase found lg'. subst found lg'.
  pose proof (reachable_shaped lg Hreach) as Hsh.
  assert (Hgoc : forall k ty,
            (k = "WARM" /\ ty = warmup) \/ (k = "LEAD" /\ ty = lead) ->
            let found := fst (getOrCreate lg k ty (msgCount i) None) in
            let lg' := snd (getOrCreate lg k ty (msgCount i) None) in
            key found = k /\ type found = ty
            /\ teammateIndex lg' = teammateIndex lg
            /\ (forall k0 s, type s = teammate ->
                  In (k0, s) (sessions lg') <-> In (k0, s) (sessions lg))).
  { intros k ty Hk found lg'.
    destruct Hsh as [Hnd [Hent _]].
    assert (Hold : forall old, map_get k (sessions lg) = Some old ->
                     key old = k /\ type old = ty).
    { intros old Hget. apply map_get_in in Hget.
      destruct (Hent k old Hget) as [Hkey [_ Hc]]. split; [exact Hkey|].
      destruct Hk as [[-> ->]|[-> ->]];
        destruct Hc as [[H [Hty _]]|[[H [Hty _]]|[j [_ [H _]]]]];
        try discriminate; exact Hty. }
    subst found lg'. rewrite getOrCreate_found. unfold getOrCreate.
    destruct (map_get k (sessions lg)) as [old|] eqn:Hget;
      cbn [snd sessions teammateIndex key type touch].
    - destruct (Hold old eq_refl) as [Hkey Hty].
      split; [exact Hkey|]. split; [exact Hty|]. split; [reflexivity|].
      intros k0 s Hs. split.
      + intros Hin. apply map_update_in in Hin.
        destruct Hin as [Hin|[_ [-> _]]]; [exact Hin|].
        simpl in Hs. rewrite Hty in Hs.
        destruct Hk as [[_ ->]|[_ ->]]; discriminate.
      + intros Hin.
        assert (Hne : k0 <> k).
        { intros ->. rewrite (in_map_get _ _ _ Hnd Hin) in Hget.
          injection Hget as ->. rewrite Hty in Hs.
          destruct Hk as [[_ ->]|[_ ->]]; discriminate. }
        apply map_get_in.
        rewrite map_update_other by exact Hne. now apply in_map_get.
    - split; [reflexivity|]. split; [reflexivity|]. split; [reflexivity|].
      intros k0 s Hs. split.
      + intros Hin. apply in_app_or in Hin.
        destruct Hin as [Hin|[Hin|[]]]; [exact Hin|].
        injection Hin as _ <-. simpl in Hs.
        destruct Hk as [[_ ->]|[_ ->]]; discriminate.
      + intros Hin. apply in_or_app. now left. }
  unfold identify.
  destruct (is_zero (toolCount i)).
  - apply Hgoc. left. now split.
  - destruct Hcase as [Habs| ->]; [discriminate|]. cbn [negb].
    apply Hgoc. right. now split.
Qed.

End SessionTable.

(* ================================================================== *)
(** ** Names and labels *)

Section Names.
Import Logger.

Lemma occurs_in_suffix (n r s : string) :
  suffix_of r s -> occurs_in n r -> occurs_in n s.
Proof.
  intros [a ->] [x [y ->]]. exists (a ++ x), y.
  now rewrite append_assoc.
Qed.

Lemma suffix_of_refl (s : string) : suffix_of s s.
Proof. now exists "". Qed.

Lemma suffix_of_trans (a b c : string) :
  suffix_of a b -> suffix_of b c -> suffix_of a c.
Proof.
  intros [x ->] [y ->]. exists (y ++ x). now rewrite append_assoc.
Qed.

Lemma suffix_of_cons (c : ascii) (r : string) : suffix_of r (String c r).
Proof. now exists (String c ""). Qed.

Lemma lit_suffix (ci : bool) (p : string) :
  forall s r, lit ci p s = Some r -> suffix_of r s.
Proof.
  induction p as [|a p IH]; intros s r; simpl.
  - intros [= ->]. apply suffix_of_refl.
  - destruct s as [|b s]; [discriminate|].
    destruct (if ci then _ else _); [|discriminate].
    intros H. apply IH in H.
    eapply suffix_of_trans; [exact H|apply suffix_of_cons].
Qed.

Lemma word_tail_spec (s : string) :
  forallb is_word_or_dash (list_ascii_of_string (word_tail s)) = true
  /\ prefix_of (word_tail s) s.
Proof.
  induction s as [|c r [IH1 [b IH2]]]; simpl.
  - split; [reflexivity|now exists ""].
  - destruct (is_word_or_dash c) eqn:Hc; simpl.
    + rewrite Hc, IH1. split; [reflexivity|].
      exists b. simpl. now f_equal.
    + split; [reflexivity|]. now exists (String c r).
Qed.

Lemma word_at_spec (s n : string) :
  word_at s = Some n -> is_name n = true /\ prefix_of n s.
Proof.
  unfold word_at. destruct s as [|c r]; [discriminate|].
  destruct (is_word c) eqn:Hc; [|discriminate]. intros [= <-].
  destruct (word_tail_spec r) as [H1 [b H2]]. simpl. rewrite Hc, H1.
  split; [reflexivity|]. exists b. simpl. now f_equal.
Qed.

Lemma prefix_occurs (n s : string) : prefix_of n s -> occurs_in n s.
Proof. intros [b ->]. now exists "", b. Qed.

Lemma name_at_spec quotes (s n : string) :
  name_at quotes s = Some n -> is_name n = true /\ occurs_in n s.
Proof.
  unfold name_at. destruct s as [|c r]; [discriminate|].
  assert (Hhere : word_at (String c r) = Some n ->
                  is_name n = true /\ occurs_in n (String c r)).
  { intros H. apply word_at_spec in H. destruct H as [H1 H2].
    split; [exact H1|now apply prefix_occurs]. }
  destruct (quotes c); [|exact Hhere].
  destruct (word_at r) eqn:Hw; [|exact Hhere].
  intros [= ->]. apply word_at_spec in Hw. destruct Hw as [H1 H2].
  split; [exact H1|].
  eapply occurs_in_suffix; [apply suffix_of_cons|now apply prefix_occurs].
Qed.

Lemma skip_spaces_suffix (s : string) : suffix_of (skip_spaces s) s.
Proof.
  induction s as [|c r IH]; simpl; [apply suffix_of_refl|].
  destruct (is_space c); [|apply suffix_of_refl].
  eapply suffix_of_trans; [exact IH|apply suffix_of_cons].
Qed.

(** After literals, the capture *)
Ltac through_literals H :=
  repeat match type of H with
  | and_then (lit _ _ _) _ = Some _ =>
      let r := fresh "r" in
      let Hl := fresh "Hl" in
      apply and_then_some in H; destruct H as [r [Hl H]];
      apply lit_suffix in Hl
  | or_try _ _ = Some _ =>
      apply or_try_some in H; destruct H as [H|H]
  end.

Ltac chain_suffix :=
  repeat match goal with
  | H : suffix_of ?r ?s |- suffix_of _ ?s =>
      apply (suffix_of_trans _ r s); [clear H|exact H]
  end;
  try apply suffix_of_refl.

Lemma named_at_spec (s n : string) :
  named_at s = Some n -> is_name n = true /\ occurs_in n s.
Proof.
  unfold named_at. intros H. through_literals H;
    apply name_at_spec in H; destruct H as [H1 H2];
    (split; [exact H1|]);
    (eapply occurs_in_suffix; [|exact H2]); chain_suffix.
Qed.

Lemma lazy_named_spec (s n : string) :
  lazy_named s = Some n -> is_name n = true /\ occurs_in n s.
Proof.
  induction s as [|c r IH]; rewrite lazy_named_unfold.
  - destruct (named_at "") eqn:H; [|discriminate].
    intros [= <-]. now apply named_at_spec.
  - destruct (named_at (String c r)) eqn:H.
    + intros [= <-]. now apply named_at_spec.
    + destruct (is_line_terminator c); [discriminate|].
      intros Hr. destruct (IH Hr) as [H1 H2]. split; [exact H1|].
      eapply occurs_in_suffix; [apply suffix_of_cons|exact H2].
Qed.

Lemma leftmost_spec (at_head : string -> option string) (s n : string) :
  leftmost at_head s = Some n ->
  exists x, suffix_of x s /\ at_head x = Some n.
Proof.
  induction s as [|c r IH]; simpl.
  - destruct (at_head "") eqn:H; [|discriminate]. intros [= <-].
    exists "". split; [apply suffix_of_refl|exact H].
  - destruct (at_head (String c r)) eqn:H.
    + intros [= <-]. exists (String c r). split; [apply suffix_of_refl|exact H].
    + intros Hr. destruct (IH Hr) as [x [Hx Hn]]. exists x.
      split; [|exact Hn].
      eapply suffix_of_trans; [exact Hx|apply suffix_of_cons].
Qed.

(** X17.  Whatever [extractName] finds in a system text is a name: it
    starts with a letter, a digit or an underscore, goes on with such
    characters and dashes only (no space, quote or control character),
    and it stands in the text as it is returned. *)
Theorem extractName_is_name (systemText n : string) :
  extractName systemText = Some n ->
  is_name n = true /\ occurs_in n systemText.
Proof.
  unfold extractName, pattern1, pattern2, pattern3. intros H.
  apply or_try_some in H. destruct H as [H|H];
    [|apply or_try_some in H; destruct H as [H|H]];
    apply leftmost_spec in H; destruct H as [x [Hx H]].
  - through_literals H. apply lazy_named_spec in H. destruct H as [H1 H2].
    split; [exact H1|].
    eapply occurs_in_suffix; [|exact H2]. chain_suffix.
  - through_literals H;
      apply name_at_spec in H; destruct H as [H1 H2];
      (split; [exact H1|]);
      (eapply occurs_in_suffix; [|exact H2]); chain_suffix.
  - through_literals H.
    apply name_at_spec in H; destruct H as [H1 H2].
    split; [exact H1|].
    eapply occurs_in_suffix; [|exact H2].
    pose proof (skip_spaces_suffix r) as Hs. chain_suffix.
Qed.

Lemma length_spaces (n : nat) : String.length (spaces n) = n.
Proof. induction n; simpl; congruence. Qed.

Lemma take_spec (n : nat) :
  forall s, (n <= String.length s)%nat ->
    String.length (take n s) = n /\ prefix_of (take n s) s.
Proof.
  induction n as [|n IH]; intros s Hn; simpl.
  - split; [reflexivity|now exists s].
  - destruct s as [|c r]; simpl in Hn; [lia|].
    destruct (IH r ltac:(lia)) as [H1 [b H2]]. simpl.
    split; [now rewrite H1|]. exists b. simpl. now f_equal.
Qed.

(** X18.  [pad(s, n)] always has length [n]: a longer [s] is cut to its
    first [n] characters, a shorter one is kept and followed by spaces
    only. *)
Theorem pad_fits (s : string) (n : nat) :
  String.length (pad s n) = n
  /\ ((n <= String.length s)%nat -> prefix_of (pad s n) s)
  /\ ((String.length s <= n)%nat ->
      pad s n = s ++ spaces (n - String.length s)).
Proof.
  unfold pad. destruct (n <=? String.length s)%nat eqn:Hn.
  - apply Nat.leb_le in Hn. destruct (take_spec n s Hn) as [H1 H2].
    split; [exact H1|]. split; [intros _; exact H2|].
    intros Hle. assert (n = String.length s) by lia. subst n.
    rewrite Nat.sub_diag. simpl. rewrite append_nil_r.
    destruct H2 as [b Hb].
    assert (Hlen : String.length b = 0%nat).
    { apply (f_equal String.length) in Hb. rewrite length_app, H1 in Hb. lia. }
    destruct b; [|discriminate]. rewrite append_nil_r in Hb. now symmetry.
  - apply Nat.leb_gt in Hn. split; [|split].
    + rewrite length_app, length_spaces. lia.
    + intros Hle. lia.
    + intros _. reflexivity.
Qed.

End Names.

(* ================================================================== *)
(** ** The routes of the listener and what routing reads *)

Section Dispatch.
Import JS Conv Proxy.
Context {E : Engine} {T : Translators}.
Variable config : ProxyConfig.
Variable W : World.

Lemma before_query_app (p q : string) :
  before_query (p ++ "?" ++ q) = before_query p.
Proof.
  induction p as [|c r IH]; simpl in *; [reflexivity|].
  destruct (c =? "?")%char; [reflexivity|now rewrite IH].
Qed.

(** X19.  The query string of the request URL plays no part: a request
    to a path followed by a question mark and anything is handled as the
    request to that path. *)
Theorem query_string_ignored
  (method p q : string) (headers : list (string * string)) (payload : string) :
  listener config W method (Some (p ++ "?" ++ q)) headers payload
  = listener config W method (Some p) headers payload.
Proof.
  unfold listener. now rewrite !before_query_opt, before_query_app.
Qed.



(** *** Routing reads three messages *)

Lemma firstMessagesText_firstn (l l' : list value) :
  firstn 3 l' = firstn 3 l ->
  firstMessagesText (Arr l') = firstMessagesText (Arr l).
Proof. unfold firstMessagesText, or_else. simpl. now intros ->. Qed.

(** X21.  Routing reads the text of the first three messages only:
    replacing the message list of a request by one with the same first
    three messages changes neither the search text, nor the teammate
    test, nor the decision between passthrough and translation, nor the
    base URL relayed to.  A lead marker that first appears in the fourth
    message is not seen. *)
Theorem routing_reads_three_messages
  (props : list (string * value)) (l l' : list value) (d : Routing) :
  lookup "messages" props = Arr l ->
  firstn 3 l' = firstn 3 l ->
  route config (Obj props) = Val d ->
  exists d',
    route config (Obj (obj_set "messages" (Arr l') props)) = Val d'
    /\ fullText d' = fullText d
    /\ hasMarker d' = hasMarker d
    /\ isTeammate d' = isTeammate d
    /\ isPassthrough d' = isPassthrough d
    /\ passthroughBaseUrl d' = passthroughBaseUrl d
    /\ isStreaming d' = isStreaming d
    /\ toolCount d' = toolCount d.
Proof.
  intros Hm Hfirst Hd.
  assert (Hnew :
            route config (Obj (obj_set "messages" (Arr l') props))
            = rbind (route config (Obj props)) (fun d0 =>
                Val {| systemText := systemText d0; fullText := fullText d0;
                       hasMarker := hasMarker d0; isTeammate := isTeammate d0;
                       isStreaming := isStreaming d0;
                       msgCount := or_else (get_opt (Arr l') "length") (Num 0);
                       toolCount := toolCount d0;
                       isPassthrough := isPassthrough d0;
                       isLeadPassthrough := isLeadPassthrough d0;
                       passthroughBaseUrl := passthroughBaseUrl d0 |})).
  { unfold route. cbn [get rbind].
    rewrite lookup_obj_set_same, Hm.
    rewrite !lookup_obj_set_other by discriminate.
    rewrite (firstMessagesText_firstn l l' Hfirst).
    destruct (extractSystemText (lookup "system" props)) as [st|e];
      cbn [rbind]; [|reflexivity].
    destruct (firstMessagesText (Arr l)) as [mt|e]; cbn [rbind]; [|reflexivity].
    match goal with
    | |- rbind ?r _ = _ => destruct r as [pass|e]; cbn [rbind]; reflexivity
    end. }
  rewrite Hnew, Hd. cbn [rbind].
  eexists. split; [reflexivity|]. cbn. repeat split.
Qed.

End Dispatch.

(* ================================================================== *)
(** ** Tool calls *)

Section ToolCalls.
Import JS Conv Proxy.
Context {E : Engine}.

Lemma rmap_Val {A B} (f : A -> result B) (l : list A) (ys : list B) :
  rmap f l = Val ys <-> Forall2 (fun x y => f x = Val y) l ys.
Proof.
  revert ys. induction l as [|x l IH]; intros ys; simpl.
  - split.
    + intros [= <-]. constructor.
    + intros H. inversion H. reflexivity.
  - destruct (f x) as [y|e] eqn:Hx; simpl.
    + destruct (rmap f l) as [zs|e] eqn:Hl; simpl.
      * split.
        -- intros [= <-]. constructor; [exact Hx|]. now apply IH.
        -- intros H. inversion H as [|? y' ? zs' Hy Hrest]; subst.
           rewrite Hx in Hy. injection Hy as <-.
           apply IH in Hrest. now injection Hrest as <-.
      * split; [discriminate|].
        intros H. inversion H as [|? y' ? zs' Hy Hrest]; subst.
        apply IH in Hrest. discriminate.
    + split; [discriminate|].
      intros H. inversion H as [|? y' ? zs' Hy Hrest]; subst.
      rewrite Hx in Hy. discriminate.
Qed.

Lemma rmap_Throw {A B} (f : A -> result B) (l : list A) :
  (exists x e, In x l /\ f x = Throw e) <-> exists e, rmap f l = Throw e.
Proof.
  induction l as [|x l IH]; simpl.
  - split; [intros [x [e [[] _]]]|intros [e H]; discriminate].
  - destruct (f x) as [y|e] eqn:Hx; simpl.
    + destruct (rmap f l) as [zs|e] eqn:Hl; simpl.
      * split; [|intros [e H]; discriminate].
        intros [x' [e [[<-|Hin] Hf]]]; [congruence|].
        destruct (proj1 IH (ex_intro _ x' (ex_intro _ e (conj Hin Hf))))
          as [e' He']. discriminate.
      * split; [intros _; now exists e|]. intros _.
        destruct (proj2 IH (ex_intro _ e eq_refl)) as [x' [e' [Hin Hf]]].
        exists x', e'. split; [now right|exact Hf].
    + split; [intros _; now exists e|]. intros _.
      exists x, e. split; [now left|exact Hx].
Qed.

(** X22.  In a buffered answer the upstream's tool calls become tool_use
    blocks one for one and in order: each block carries its call's id,
    its function's name, and as input the parsed arguments, the empty
    object standing in for absent or empty arguments.  One call that
    cannot be converted (no function, arguments that do not parse) makes
    the whole conversion fail: no block is produced for the others. *)
Theorem tool_calls_become_blocks (message : value) (tcs : list value) :
  get_opt message "tool_calls" = Arr tcs ->
  (forall blocks,
     toolUses message = Val blocks <->
     Forall2 (fun tc block =>
       exists fn input,
         get tc "function" = Val fn
         /\ fn <> Undefined /\ fn <> Null
         /\ rbind (to_str (or_else (get_opt fn "arguments") (Str "{}")))
              JSON_parse
            = Val input
         /\ block = Obj [("type", Str "tool_use"); ("id", get_opt tc "id");
                         ("name", get_opt fn "name"); ("input", input)])
       tcs blocks)
  /\ ((exists tc e, In tc tcs /\ toolUse tc = Throw e)
      <-> exists e, toolUses message = Throw e).
Proof.
  intros Htc.
  assert (Hrun : toolUses message = rmap toolUse tcs).
  { unfold toolUses. rewrite Htc. reflexivity. }
  assert (Hone : forall tc block,
            toolUse tc = Val block <->
            exists fn input,
              get tc "function" = Val fn
              /\ fn <> Undefined /\ fn <> Null
              /\ rbind (to_str (or_else (get_opt fn "arguments") (Str "{}")))
                   JSON_parse
                 = Val input
              /\ block = Obj [("type", Str "tool_use"); ("id", get_opt tc "id");
                              ("name", get_opt fn "name"); ("input", input)]).
  { intros tc block. unfold toolUse. split.
    - destruct (get tc "id") as [id|e] eqn:Hid; cbn [rbind]; [|discriminate].
      destruct (get tc "function") as [fn|e] eqn:Hfn; cbn [rbind]; [|discriminate].
      destruct (get fn "name") as [name|e] eqn:Hname; cbn [rbind]; [|discriminate].
      destruct (get fn "arguments") as [args|e] eqn:Hargs; cbn [rbind];
        [|discriminate].
      destruct (to_str (or_else args (Str "{}"))) as [text|e] eqn:Htext;
        cbn [rbind]; [|discriminate].
      destruct (JSON_parse text) as [input|e] eqn:Hin; cbn [rbind];
        [|discriminate].
      intros [= <-]. exists fn, input.
      rewrite (get_get_opt _ _ _ Hargs), (get_get_opt _ _ _ Hid),
        (get_get_opt _ _ _ Hname).
      split; [reflexivity|]. split; [intros ->; discriminate|].
      split; [intros ->; discriminate|].
      split; [rewrite Htext; exact Hin|reflexivity].
    - intros [fn [input [Hfn [Hu [Hn [Hin ->]]]]]].
      destruct (get_total _ _ _ Hfn "id") as [id Hid].
      rewrite Hid, Hfn. cbn [rbind].
      assert (Hname : get fn "name" = Val (get_opt fn "name"))
        by (destruct fn; try reflexivity; contradiction).
      assert (Hargs : get fn "arguments" = Val (get_opt fn "arguments"))
        by (destruct fn; try reflexivity; contradiction).
      rewrite Hname, Hargs. cbn [rbind].
      destruct (to_str (or_else (get_opt fn "arguments") (Str "{}")))
        as [text|e]; cbn [rbind] in Hin |- *; [|discriminate].
      rewrite Hin. cbn [rbind].
      now rewrite (get_get_opt _ _ _ Hid). }
  split.
  - intros blocks. rewrite Hrun, rmap_Val. split; intros H.
    + eapply Forall2_impl; [|exact H]. intros tc b. apply Hone.
    + eapply Forall2_impl; [|exact H]. intros tc b. apply Hone.
  - rewrite Hrun. apply rmap_Throw.
Qed.

End ToolCalls.


(* ================================================================== *)
(** ** The system text *)

Section SystemText.
Import JS Conv Proxy.
Context {E : Engine}.

Lemma rmap_Throw_in {A B} (f : A -> result B) (l : list A) (e : exn) :
  rmap f l = Throw e -> exists x, In x l /\ f x = Throw e.
Proof.
  induction l as [|x l IH]; simpl; [discriminate|].
  destruct (f x) as [y|e0] eqn:Hx; simpl.
  - destruct (rmap f l) as [zs|e1]; simpl; [discriminate|].
    intros [= <-]. destruct (IH eq_refl) as [x' [Hin Hf]].
    exists x'. split; [now right|exact Hf].
  - intros [= <-]. exists x. split; [now left|exact Hx].
Qed.

Lemma blockText_throws (b : value) (e : exn) :
  blockText b = Throw e <-> (b = Null \/ b = Undefined) /\ e = TypeError "text".
Proof.
  unfold blockText. destruct b; simpl; split;
    try discriminate;
    try (intros [[H|H] _]; discriminate);
    try (intros [= <-]; split; [|reflexivity]);
    try (now left); try (now right);
    intros [_ ->]; reflexivity.
Qed.

Lemma blockText_reads (b : value) :
  b <> Null -> b <> Undefined ->
  blockText b = Val (or_else (get_opt b "text") (Str "")).
Proof.
  intros Hn Hu. unfold blockText.
  destruct b; try contradiction; reflexivity.
Qed.

(** What [String] throws is the TypeError of the conversion. *)
Lemma to_str_throws :
  forall (v : value) (e : exn),
    to_str v = Throw e -> e = TypeError "toString".
Proof.
  fix to_str_throws 1. intros v e.
  destruct v as [| |b|n|s|l|props]; simpl; try discriminate.
  - destruct b; discriminate.
  - revert e. induction l as [|x r IHr]; intros e; simpl; [discriminate|].
    destruct (nullish x).
    + simpl.
      match goal with
      | |- rbind (rbind ?inner _) _ = _ -> _ =>
          destruct inner as [ss|e']; simpl; [discriminate|]
      end.
      intros [= <-]. apply IHr. reflexivity.
    + destruct (to_str x) as [t|e'] eqn:Hx; simpl.
      * match goal with
        | |- rbind (rbind ?inner _) _ = _ -> _ =>
            destruct inner as [ss|e']; simpl; [discriminate|]
        end.
        intros [= <-]. apply IHr. reflexivity.
      * intros [= <-]. now apply (to_str_throws x).
  - destruct (has_own "toString" props); [|discriminate].
    now intros [= <-].
Qed.

Lemma text_never_nullish (t : value) : nullish (or_else t (Str "")) = false.
Proof.
  unfold or_else. destruct (truthy t) eqn:Ht; [|reflexivity].
  destruct t; try discriminate; reflexivity.
Qed.

Lemma text_printed (t : value) :
  to_str (or_else t (Str "")) = match to_str t with
                                | Val s => to_str (or_else t (Str ""))
                                | Throw e => Throw e
                                end.
Proof.
  destruct (to_str t) as [s|e] eqn:Ht; [reflexivity|].
  assert (Htrue : truthy t = true)
    by (destruct t as [| |[]|n|s|l|o]; simpl in *; try discriminate;
        reflexivity).
  unfold or_else. now rewrite Htrue.
Qed.

(** X23.  [extractSystemText] reads a system prompt of any shape.  A
    string is returned as it is, and anything that is neither a string
    nor an array counts as the empty text.  For an array it fails in two
    cases only: the array holds a null (or undefined) block, and then
    with the TypeError of reading [text] off it; or no block is null but
    the text of one of them cannot be printed (an object with a property
    of its own called toString), and then with the TypeError of the
    conversion.  Otherwise the result is the texts of the blocks, the
    empty string for a block without text, joined by single spaces. *)
Theorem extractSystemText_outcome (system : value) :
  (forall e,
     extractSystemText system = Throw e <->
     exists blocks,
       system = Arr blocks
       /\ ((e = TypeError "text"
            /\ exists b, In b blocks /\ (b = Null \/ b = Undefined))
           \/ (e = TypeError "toString"
               /\ (forall b, In b blocks -> b <> Null /\ b <> Undefined)
               /\ exists b, In b blocks /\ ~ printable (get_opt b "text"))))
  /\ (forall s, system = Str s -> extractSystemText system = Val s)
  /\ ((forall s, system <> Str s) -> (forall blocks, system <> Arr blocks) ->
      extractSystemText system = Val "")
  /\ (forall blocks,
        system = Arr blocks ->
        (forall b, In b blocks ->
           b <> Null /\ b <> Undefined /\ printable (get_opt b "text")) ->
        exists texts,
          extractSystemText system = Val (String.concat " " texts)
          /\ Forall2 (fun b t =>
               to_str (if truthy (get_opt b "text") then get_opt b "text"
                       else Str "") = Val t) blocks texts).
Proof.
  assert (Hread : forall blocks,
            (forall b, In b blocks -> b <> Null /\ b <> Undefined) ->
            rmap blockText blocks
            = Val (List.map (fun b => or_else (get_opt b "text") (Str ""))
                     blocks)).
  { induction blocks as [|b blocks IH]; intros Hall; [reflexivity|].
    simpl. destruct (Hall b (or_introl eq_refl)) as [Hn Hu].
    rewrite (blockText_reads b Hn Hu). cbn [rbind].
    rewrite IH by (intros b' Hb'; apply Hall; now right).
    reflexivity. }
  assert (Hnull : forall blocks,
            (exists b, In b blocks /\ (b = Null \/ b = Undefined))
            \/ (forall b, In b blocks -> b <> Null /\ b <> Undefined)).
  { induction blocks as [|b blocks IH].
    - right. intros b [].
    - destruct IH as [[b' [Hin Hb']]|Hall].
      + left. exists b'. split; [now right|exact Hb'].
      + destruct b; try (right; intros b' [<-|Hin];
                         [split; discriminate|now apply Hall]);
          left; eexists; (split; [now left|]); [now right|now left]. }
  split; [|split; [|split]].
  - intros e. split.
    + destruct system as [| | | | |blocks|]; simpl; try discriminate.
      intros Hrun. exists blocks. split; [reflexivity|].
      destruct (Hnull blocks) as [[b [Hin Hb]]|Hall].
      * left.
        assert (Hb' : blockText b = Throw (TypeError "text"))
          by (apply blockText_throws; now split).
        destruct (proj1 (rmap_Throw blockText blocks)
                    (ex_intro _ b (ex_intro _ _ (conj Hin Hb')))) as [e' He'].
        rewrite He' in Hrun. cbn [rbind] in Hrun. injection Hrun as <-.
        apply rmap_Throw_in in He'. destruct He' as [b' [_ Hb2]].
        apply blockText_throws in Hb2. destruct Hb2 as [_ ->].
        split; [reflexivity|]. now exists b.
      * right. rewrite (Hread blocks Hall) in Hrun. cbn [rbind] in Hrun.
        unfold join_values in Hrun.
        destruct (rmap element_str _) as [ss|e'] eqn:Hjoin;
          cbn [rbind] in Hrun; [discriminate|].
        injection Hrun as <-.
        apply rmap_Throw_in in Hjoin. destruct Hjoin as [x [Hin Hx]].
        apply in_map_iff in Hin. destruct Hin as [b [<- Hin]].
        unfold element_str in Hx. rewrite text_never_nullish in Hx.
        split; [now apply (to_str_throws _ _ Hx)|]. split; [exact Hall|].
        exists b. split; [exact Hin|].
        intros [t Ht]. rewrite text_printed, Ht in Hx.
        unfold or_else in Hx.
        destruct (truthy (get_opt b "text")); [congruence|discriminate].
    + intros [blocks [-> [[-> [b [Hin Hb]]]|[-> [Hall [b [Hin Hb]]]]]]]; simpl.
      * assert (Hb' : blockText b = Throw (TypeError "text"))
          by (apply blockText_throws; now split).
        destruct (proj1 (rmap_Throw blockText blocks)
                    (ex_intro _ b (ex_intro _ _ (conj Hin Hb')))) as [e He].
        rewrite He. simpl. f_equal.
        apply rmap_Throw_in in He. destruct He as [b' [_ Hb2]].
        apply blockText_throws in Hb2. now destruct Hb2 as [_ ->].
      * rewrite (Hread blocks Hall). cbn [rbind]. unfold join_values.
        assert (Hx : exists e,
                  element_str (or_else (get_opt b "text") (Str ""))
                  = Throw e).
        { unfold element_str. rewrite text_never_nullish, text_printed.
          destruct (to_str (get_opt b "text")) as [t|e] eqn:Ht.
          - exfalso. apply Hb. now exists t.
          - now exists e. }
        destruct Hx as [e Hx].
        destruct (proj1 (rmap_Throw element_str
                           (List.map (fun b => or_else (get_opt b "text")
                                                 (Str "")) blocks))
                    (ex_intro _ _ (ex_intro _ e
                       (conj (in_map _ _ _ Hin) Hx)))) as [e' He'].
        rewrite He'. cbn [rbind]. f_equal.
        apply rmap_Throw_in in He'. destruct He' as [x [_ Hx']].
        unfold element_str in Hx'.
        destruct (nullish x); [discriminate|].
        now apply (to_str_throws _ _ Hx').
  - intros s ->. reflexivity.
  - intros Hs Ha. destruct system as [| | | |s|blocks|]; try reflexivity.
    + exfalso. now apply (Hs s).
    + exfalso. now apply (Ha blocks).
  - intros blocks -> Hall. simpl.
    rewrite (Hread blocks) by (intros b Hb; split; now apply Hall).
    cbn [rbind]. unfold join_values.
    assert (Hjoin : exists texts,
              rmap element_str
                (List.map (fun b => or_else (get_opt b "text") (Str ""))
                   blocks) = Val texts
              /\ Forall2 (fun b t =>
                   to_str (if truthy (get_opt b "text")
                           then get_opt b "text" else Str "") = Val t)
                   blocks texts).
    { clear Hread Hnull.
      induction blocks as [|b blocks IH].
      - exists []. split; [reflexivity|constructor].
      - destruct IH as [texts [Hrun Hall2]];
          [intros b' Hb'; apply Hall; now right|].
        destruct (Hall b (or_introl eq_refl)) as [_ [_ [t Ht]]].
        assert (Hx : exists t', to_str (or_else (get_opt b "text") (Str ""))
                                = Val t').
        { unfold or_else. destruct (truthy (get_opt b "text"));
            [now exists t|now exists ""]. }
        destruct Hx as [t' Ht'].
        exists (t' :: texts). split.
        + simpl. unfold element_str at 1.
          rewrite text_never_nullish, Ht'. cbn [rbind].
          rewrite Hrun. reflexivity.
        + constructor; [exact Ht'|exact Hall2]. }
    destruct Hjoin as [texts [Hrun Hall2]].
    exists texts. rewrite Hrun. split; [reflexivity|exact Hall2].
Qed.

End SystemText.

(* ================================================================== *)
(** ** The statements above at sample requests *)

Section MoreWitnesses.
Import JS Conv Proxy.

Lemma openai_first_call_witness :
  exists posted rest,
    events (snd (messages (E := Sample.engine [Sample.buffered])
                   (T := Sample.translators) (Sample.config "openai" [])
                   (Sample.world [Sample.answer 200 ["{}"]])
                   [] (Sample.stringify Sample.buffered) (fresh Logger.create)))
    = ([LogRequest false; Translate ToChatCompletions;
        Fetch "https://api.openai.com/v1/chat/completions"
          [("Content-Type", "application/json"); ("Authorization", "Bearer sk")]
          (Sample.stringify (Obj posted))] ++ rest)%list
    /\ lookup "stream" posted = Bool false
    /\ lookup "model" posted = Str "gpt-x".
Proof.
  pose proof (fun d oreq =>
                openai_first_call (E := Sample.engine [Sample.buffered])
                  (T := Sample.translators) (Sample.config "openai" [])
                  (Sample.world [Sample.answer 200 ["{}"]])
                  [] (Sample.stringify Sample.buffered) Logger.create
                  Sample.buffered d oreq) as H.
  edestruct H as [posted [rest [Hev [_ Hbuf]]]].
  - discriminate.
  - reflexivity.
  - reflexivity.
  - reflexivity.
  - now exists "claude-sonnet".
  - now exists "0".
  - reflexivity.
  - exists posted, rest. split; [exact Hev|].
    destruct (Hbuf eq_refl) as [H1 [_ H3]]. split; [exact H1|].
    rewrite H3 by discriminate. reflexivity.
Defined.

Lemma passthrough_relays_once_witness :
  exists s1,
    messages (E := Sample.engine [Sample.leading]) (T := Sample.translators)
      (Sample.config "openai" ["lead"])
      (Sample.world [Sample.cut_off 429 ["slow"; "down"]])
      [("x-api-key", "k1"); ("host", "localhost")]
      (Sample.stringify Sample.leading) (fresh Logger.create)
    = (Val tt, s1)
    /\ res s1
       = {| head := Some (429, [("Content-Type", "application/json");
                                ("Cache-Control", "no-cache");
                                ("Connection", "keep-alive")]);
            sent := ["slow"; "down"];
            writableEnded := true |}
    /\ events s1
       = [LogRequest true;
          Fetch "https://api.anthropic.com/v1/messages"
            [("Content-Type", "application/json"); ("x-api-key", "k1")]
            (Sample.stringify Sample.leading);
          LogError; LogError]
    /\ calls s1 = 1%nat.
Proof.
  pose proof (fun d =>
                passthrough_relays_once (E := Sample.engine [Sample.leading])
                  (T := Sample.translators) (Sample.config "openai" ["lead"])
                  (Sample.world [Sample.cut_off 429 ["slow"; "down"]])
                  [("x-api-key", "k1"); ("host", "localhost")]
                  (Sample.stringify Sample.leading) Logger.create
                  Sample.leading d (Sample.cut_off 429 ["slow"; "down"])) as H.
  edestruct H as [s1 [Hrun [Hres [Hev Hc]]]].
  - reflexivity.
  - reflexivity.
  - reflexivity.
  - now exists "claude-opus-4".
  - now exists "0".
  - reflexivity.
  - exists s1. split; [exact Hrun|]. split; [exact Hres|].
    split; [exact Hev|exact Hc].
Defined.

Lemma passthrough_unreachable_witness :
  exists s1,
    messages (E := Sample.engine [Sample.leading]) (T := Sample.translators)
      (Sample.config "openai" ["lead"]) (Sample.world [])
      [] (Sample.stringify Sample.leading) (fresh Logger.create)
    = (Val tt, s1)
    /\ res s1
       = {| head := Some (500, [("Content-Type", "application/json")]);
            sent :=
              [Sample.stringify
                 (Obj [("type", Str "error");
                       ("error", Obj [("type", Str "api_error");
                                      ("message", Str "fetch failed")])])];
            writableEnded := true |}
    /\ calls s1 = 1%nat.
Proof.
  pose proof (fun d =>
                passthrough_unreachable (E := Sample.engine [Sample.leading])
                  (T := Sample.translators) (Sample.config "openai" ["lead"])
                  (Sample.world []) [] (Sample.stringify Sample.leading)
                  Logger.create Sample.leading d (Error "fetch failed")) as H.
  edestruct H as [s1 [Hrun [Hres [_ Hc]]]].
  - reflexivity.
  - reflexivity.
  - reflexivity.
  - now exists "claude-opus-4".
  - now exists "0".
  - reflexivity.
  - exists s1. split; [exact Hrun|]. split; [exact Hres|exact Hc].
Defined.

Lemma count_tokens_passthrough_witness :
  countTokens (E := Sample.engine [Sample.leading])
    (Sample.config "openai" ["lead"])
    (Sample.world [Sample.cut_off 200 ["{"]])
    [] (Sample.stringify Sample.leading) (fresh Logger.create)
  = (Throw (Error "Cannot write headers after they are sent to the client"),
     {| res := {| head := Some (200, [("Content-Type", "application/json");
                                      ("Cache-Control", "no-cache");
                                      ("Connection", "keep-alive")]);
                  sent := ["{"];
                  writableEnded := true |};
        events :=
          [Fetch "https://api.anthropic.com/v1/messages/count_tokens"
             [("Content-Type", "application/json")]
             (Sample.stringify Sample.leading)];
        calls := 1; logger := Logger.create; session := None;
        requestModel := Str "unknown" |}).
Proof.
  destruct (count_tokens_passthrough (E := Sample.engine [Sample.leading])
              (Sample.config "openai" ["lead"])
              (Sample.world [Sample.cut_off 200 ["{"]])
              [] (Sample.stringify Sample.leading) Logger.create
              Sample.leading eq_refl eq_refl) as [_ Hrelay].
  destruct (Hrelay "You lead. hydra:lead" eq_refl) as [_ Hup].
  exact (Hup (Sample.cut_off 200 ["{"]) eq_refl).
Defined.

Lemma listener_always_answers_witness :
  exists e s1,
    listener (E := Sample.engine [Sample.opaque]) (T := Sample.translators)
      (Sample.config "openai" []) (Sample.world []) "POST"
      (Some "/v1/messages") [] (Sample.stringify Sample.opaque)
      (fresh Logger.create)
    = (Throw e, s1)
    /\ res s1 = {| head := None; sent := []; writableEnded := false |}
    /\ calls s1 = 0%nat.
Proof.
  destruct (listener_always_answers (E := Sample.engine [Sample.opaque])
              (T := Sample.translators) (Sample.config "openai" [])
              (Sample.world []) "POST" (Some "/v1/messages") []
              (Sample.stringify Sample.opaque) Logger.create)
    as [o [s1 [Hrun [Hop _]]]].
  destruct Hop as [[e He] [Hres Hc]].
  { split; [reflexivity|]. split; [reflexivity|].
    exists Sample.opaque, (TypeError "toString"). split; reflexivity. }
  exists e, s1. rewrite <- He. split; [exact Hrun|]. split; assumption.
Defined.

Lemma unroutable_request_witness :
  messages (E := Sample.engine [Null]) (T := Sample.translators)
    (Sample.config "openai" []) (Sample.world []) [] "null"
    (fresh Logger.create)
  = (Val tt,
     {| res :=
          {| head := Some (500, [("Content-Type", "application/json")]);
             sent :=
               [Sample.stringify
                  (Obj [("type", Str "error");
                        ("error",
                         Obj [("type", Str "api_error");
                              ("message",
                               Str "Cannot read properties (reading model)")])])];
             writableEnded := true |};
        events := [ConsoleError]; calls := 0; logger := Logger.create;
        session := None; requestModel := Str "unknown" |})
  /\ messages (E := Sample.engine [Sample.unreadable])
       (T := Sample.translators) (Sample.config "openai" [])
       (Sample.world []) [] (Sample.stringify Sample.unreadable)
       (fresh Logger.create)
     = (Throw (TypeError "toString"),
        {| res := {| head := None; sent := []; writableEnded := false |};
           events := []; calls := 0; logger := Logger.create;
           session := None;
           requestModel := Obj [("toString", Num 1)] |}).
Proof.
  split.
  - exact (proj1 (unroutable_request (E := Sample.engine [Null])
                    (T := Sample.translators) (Sample.config "openai" [])
                    (Sample.world []) [] "null" Logger.create Null
                    (TypeError "model") eq_refl eq_refl)
             (ex_intro _ "undefined" eq_refl)).
  - exact (proj2 (unroutable_request (E := Sample.engine [Sample.unreadable])
                    (T := Sample.translators) (Sample.config "openai" [])
                    (Sample.world []) [] (Sample.stringify Sample.unreadable)
                    Logger.create Sample.unreadable (TypeError "text")
                    eq_refl eq_refl)
             (TypeError "toString") eq_refl).
Defined.

Lemma chatgpt_error_envelope_witness :
  exists s1,
    messages (E := Sample.engine [Sample.buffered]) (T := Sample.translators)
      (Sample.config "chatgpt" [])
      (Sample.world [Sample.answer 401 ["bad token"]])
      [] (Sample.stringify Sample.buffered) (fresh Logger.create)
    = (Val tt, s1)
    /\ res s1
       = {| head := Some (401, [("Content-Type", "application/json")]);
            sent :=
              [Sample.stringify
                 (Obj [("type", Str "error");
                       ("error", Obj [("type", Str "api_error");
                                      ("message", Str "bad token")])])];
            writableEnded := true |}.
Proof.
  pose proof (fun rr d =>
                chatgpt_error_envelope (E := Sample.engine [Sample.buffered])
                  (T := Sample.translators) (Sample.config "chatgpt" [])
                  (Sample.world [Sample.answer 401 ["bad token"]])
                  [] (Sample.stringify Sample.buffered) Logger.create
                  Sample.buffered rr d (Sample.answer 401 ["bad token"])) as H.
  edestruct H as [s1 [pre [code [message [Hrun [_ [Hres [_ [Hread _]]]]]]]]].
  - reflexivity.
  - reflexivity.
  - reflexivity.
  - reflexivity.
  - now exists "claude-sonnet".
  - now exists "0".
  - reflexivity.
  - left. exists 0%nat. split; [lia|]. split; [intros i Hi; lia|].
    split; [reflexivity|discriminate].
  - left. reflexivity.
  - exists s1. split; [exact Hrun|].
    destruct (Hread eq_refl eq_refl) as [Hcode Hmsg].
    rewrite Hcode, Hmsg in Hres. exact Hres.
Defined.

Lemma openai_streaming_witness :
  exists s1,
    messages (E := Sample.engine [Sample.streamed]) (T := Sample.translators)
      (Sample.config "openai" [])
      (Sample.world [Sample.answer 200 ["data: a"; "data: b"]])
      [] (Sample.stringify Sample.streamed) (fresh Logger.create)
    = (Val tt, s1)
    /\ res s1
       = {| head := Some (200, [("Content-Type", "text/event-stream");
                                ("Cache-Control", "no-cache");
                                ("Connection", "keep-alive")]);
            sent := ["data: a"; "data: b"];
            writableEnded := true |}.
Proof.
  pose proof (fun d oreq =>
                openai_streaming (E := Sample.engine [Sample.streamed])
                  (T := Sample.translators) (Sample.config "openai" [])
                  (Sample.world [Sample.answer 200 ["data: a"; "data: b"]])
                  [] (Sample.stringify Sample.streamed) Logger.create
                  Sample.streamed d oreq
                  (Sample.answer 200 ["data: a"; "data: b"])) as H.
  edestruct H as [s1 [pre [Hrun [Hres _]]]].
  - discriminate.
  - reflexivity.
  - reflexivity.
  - reflexivity.
  - reflexivity.
  - now exists "claude-sonnet".
  - now exists "0".
  - reflexivity.
  - left. exists 0%nat. split; [lia|]. split; [intros i Hi; lia|].
    split; [reflexivity|discriminate].
  - reflexivity.
  - exists s1. split; [exact Hrun|exact Hres].
Defined.

Lemma extractSystemText_outcome_witness :
  extractSystemText (E := Sample.engine [])
    (Arr [Obj [("type", Str "text"); ("text", Obj [("toString", Num 1)])]])
  = Throw (TypeError "toString").
Proof.
  apply (proj1 (extractSystemText_outcome (E := Sample.engine [])
                  (Arr [Obj [("type", Str "text");
                             ("text", Obj [("toString", Num 1)])]]))).
  eexists. split; [reflexivity|]. right.
  split; [reflexivity|]. split.
  - intros b [<-|[]]. split; discriminate.
  - eexists. split; [now left|]. intros [t Ht]. discriminate.
Defined.


Lemma routing_reads_three_messages_witness :
  let hello := Obj [("role", Str "user"); ("content", Str "hello")] in
  let marked := Obj [("role", Str "user"); ("content", Str "hydra:lead")] in
  exists d',
    route (E := Sample.engine []) (Sample.config "openai" ["lead"])
      (Obj [("model", Str "claude-opus-4"); ("system", Str "You lead.");
            ("messages", Arr [hello; hello; hello; marked])])
    = Val d'
    /\ isPassthrough d' = false.
Proof.
  intros hello marked.
  pose proof (fun d =>
                routing_reads_three_messages (E := Sample.engine [])
                  (Sample.config "openai" ["lead"])
                  [("model", Str "claude-opus-4"); ("system", Str "You lead.");
                   ("messages", Arr [hello; hello; hello])]
                  [hello; hello; hello] [hello; hello; hello; marked] d) as H.
  edestruct H as [d' [Hr [_ [_ [_ [Hp _]]]]]].
  - reflexivity.
  - reflexivity.
  - reflexivity.
  - exists d'. split; [exact Hr|exact Hp].
Defined.

Lemma session_table_shape_witness :
  exists s,
    Logger.map_get "T1"
      (Logger.sessions
         (snd (Logger.identify Logger.create
                 (Sample.teammate_info 4 "You help the team lead."))))
    = Some s
    /\ Logger.type s = Logger.teammate
    /\ Logger.color s = Logger.C_yellow.
Proof.
  exact (proj2 (proj2 (session_table_shape _
                         (reach_identify Logger.create
                            (Sample.teammate_info 4 "You help the team lead.")
                            reach_create)))
           1%nat (conj (le_n 1) (le_n 1))).
Defined.

Lemma identify_touches_one_witness :
  Logger.lastMsgCount
    (fst (Logger.identify Logger.create
            (Sample.teammate_info 4 "You help the team lead."))) = 4
  /\ Logger.requestCount
       (fst (Logger.identify Logger.create
               (Sample.teammate_info 4 "You help the team lead."))) = 1.
Proof.
  destruct (identify_touches_one Logger.create
              (Sample.teammate_info 4 "You help the team lead.") reach_create)
    as [_ [Hc Hnew]].
  split; [exact Hc|exact (proj1 Hnew)].
Defined.

Lemma warmup_and_lead_sessions_witness :
  Logger.key (fst (Logger.identify Logger.create Sample.idle_teammate)) = "WARM"
  /\ Logger.teammateIndex
       (snd (Logger.identify Logger.create Sample.idle_teammate)) = 0%nat.
Proof.
  destruct (warmup_and_lead_sessions Logger.create Sample.idle_teammate
              reach_create (or_introl eq_refl)) as [Hk [_ [Hi _]]].
  split; [exact Hk|exact Hi].
Defined.

Lemma extractName_is_name_witness :
  is_name "scout-2" = true
  /\ occurs_in "scout-2" "You are a teammate on this team, named scout-2.".
Proof.
  exact (extractName_is_name
           "You are a teammate on this team, named scout-2." "scout-2" eq_refl).
Defined.

Lemma tool_calls_become_blocks_witness :
  let call :=
    Obj [("id", Str "call_1");
         ("function", Obj [("name", Str "search"); ("arguments", Str "{}")])] in
  toolUses (E := Sample.engine [Obj []]) (Obj [("tool_calls", Arr [call])])
  = Val [Obj [("type", Str "tool_use"); ("id", Str "call_1");
              ("name", Str "search"); ("input", Obj [])]].
Proof.
  intros call.
  apply (proj1 (tool_calls_become_blocks (E := Sample.engine [Obj []])
                  (Obj [("tool_calls", Arr [call])]) [call] eq_refl)).
  constructor; [|constructor].
  exists (Obj [("name", Str "search"); ("arguments", Str "{}")]), (Obj []).
  split; [reflexivity|]. split; [discriminate|]. split; [discriminate|].
  split; reflexivity.
Defined.

End MoreWitnesses.
